(** * DukValue: a variant over Duktape values, and its reference table

    A shallow embedding of the [DukValue] class of dukglue
    (the variant class, its copy/move/assignment rules, and the
    "ref array" kept in the Duktape heap stash), together with the
    properties of it that the specification states.

    Layout of the development:
    - results and the state-and-failure monad;
    - [Double]     the doubles that appear as payloads;
    - [Duktape]    the part of the Duktape C API the class calls;
    - [RefArray]   [push_ref_array], [stash_ref], [free_ref];
    - [Variant]    the class itself, over a store of instances;
    - the observations and invariants the properties are stated with,
      and sample states;
    - the lemmas and theorems, and their evaluation on the samples. *)

From Stdlib Require Import ZArith Bool Strings.Byte Floats.SpecFloat.
From stdpp Require Import base option list gmap strings fin_maps.

Open Scope Z_scope.

#[global] Instance byte_eq_dec : EqDecision byte := Byte.byte_eq_dec.

(* ===================================================================== *)
(** ** Results                                                            *)
(* ===================================================================== *)

(** The ways an operation can stop without a value.
    - [AssertionFailure]: an [assert(false)] of the class was reached
      (assertions are compiled in: the header includes <assert.h> and does
      not define NDEBUG);
    - [EngineError]: Duktape raised an error (the [duk_require_*] family,
      an invalid stack index given to a call that needs a valid one);
    - [InvalidAccess]: the C++ code dereferenced something that is not
      there (a context pointer that designates no engine, a released
      counter, an inactive union member, a conversion or an [int]
      addition whose result the language leaves undefined). *)
Inductive failure := AssertionFailure | EngineError | InvalidAccess.

Inductive result (A : Type) :=
| Ok (a : A)
| Fail (f : failure).
Arguments Ok {A} a.
Arguments Fail {A} f.

(** State-and-failure monad over a state type [S]. *)
Definition M (S A : Type) : Type := S -> result (A * S).

Definition ret {S A} (a : A) : M S A := fun s => Ok (a, s).

Definition bind {S A B} (m : M S A) (k : A -> M S B) : M S B :=
  fun s => match m s with
           | Ok (a, s') => k a s'
           | Fail f => Fail f
           end.

Definition fail {S A} (f : failure) : M S A := fun _ => Fail f.

Declare Scope m_scope.
Delimit Scope m_scope with M.
Notation "'let*' x ':=' m 'in' k" := (bind m (fun x => k))
  (at level 10, x name, m at level 100, k at level 200) : m_scope.
Notation "m ;;; k" := (bind m (fun _ => k))
  (at level 100, k at level 200, right associativity) : m_scope.
Open Scope m_scope.

(* ===================================================================== *)
(** ** Doubles                                                            *)
(* ===================================================================== *)

(** A number payload is a C [double].  The code never computes with
    doubles: it stores them, compares them with [==], and converts them to
    and from 32-bit integers.  They are represented by the Standard
    Library's [spec_float] (sign, mantissa, exponent) and every operation
    below is defined on the value [(-1)^s * m * 2^e], so it does not
    depend on how a value is normalised. *)
Module Double.

Definition two32 : Z := 2 ^ 32.
Definition two31 : Z := 2 ^ 31.

(** Integer part of a double, rounding toward zero; [None] for NaN and
    the infinities. *)
Definition trunc (d : spec_float) : option Z :=
  match d with
  | S754_zero _ => Some 0
  | S754_finite s m e => Some (cond_Zopp s (Z.shiftl (Z.pos m) e))
  | S754_infinity _ | S754_nan => None
  end.

(** C++ [x == y] on doubles. *)
Definition eqb (x y : spec_float) : bool :=
  match x, y with
  | S754_zero _, S754_zero _ => true
  | S754_infinity s1, S754_infinity s2 => Bool.eqb s1 s2
  | S754_finite s1 m1 e1, S754_finite s2 m2 e2 =>
      let e := Z.min e1 e2 in
      Bool.eqb s1 s2
      && (Z.pos m1 * 2 ^ (e1 - e) =? Z.pos m2 * 2 ^ (e2 - e))
  | _, _ => false
  end.

(** [(double) n] for an integer [n]; exact for every 32-bit [n]. *)
Definition of_Z (n : Z) : spec_float :=
  match n with
  | Z0 => S754_zero false
  | Z.pos p => S754_finite false p 0
  | Z.neg p => S754_finite true p 0
  end.

(** [static_cast<uint32_t>(d)]: the fractional part is discarded; the
    behaviour is undefined when the truncated value does not fit the
    destination type ([conv.fpint]). *)
Definition to_uint32 (d : spec_float) : result Z :=
  match trunc d with
  | Some n => if (0 <=? n) && (n <? two32) then Ok n else Fail InvalidAccess
  | None => Fail InvalidAccess
  end.

(** [static_cast<int32_t>(d)], under the same rule. *)
Definition to_int32 (d : spec_float) : result Z :=
  match trunc d with
  | Some n => if (- two31 <=? n) && (n <? two31) then Ok n else Fail InvalidAccess
  | None => Fail InvalidAccess
  end.

(** Conversion of an [uint32_t] to [int] (two's complement wrap). *)
Definition uint32_to_int32 (u : Z) : Z :=
  if u <? two31 then u else u - two32.

(** Conversion of a [size_t] or wider value to [uint32_t]. *)
Definition wrap_uint32 (n : Z) : Z := n mod two32.

(** [static_cast<float>(d)]: round to nearest even in binary32. *)
Definition to_float (d : spec_float) : spec_float :=
  match d with
  | S754_finite s m e => binary_normalize 24 128 (cond_Zopp s (Z.pos m)) e s
  | _ => d
  end.

End Double.

(* ===================================================================== *)
(** ** The Duktape API used by the class                                  *)
(* ===================================================================== *)

(** Duktape is not part of the repository: the class only calls its C API.
    This module gives the called functions the behaviour the Duktape API
    documents, on a heap of objects, a heap stash and a value stack.
    Not modelled: the value-stack reserve (pushes never run out of room),
    garbage collection (an object lives as long as the heap does; "pinned"
    is read off the ref array), prototypes and accessors, and property
    access on a base that is not an object (reported as [EngineError]). *)
Module Duktape.

Inductive duk_type :=
| DUK_TYPE_NONE | DUK_TYPE_UNDEFINED | DUK_TYPE_NULL | DUK_TYPE_BOOLEAN
| DUK_TYPE_NUMBER | DUK_TYPE_STRING | DUK_TYPE_OBJECT | DUK_TYPE_BUFFER
| DUK_TYPE_POINTER | DUK_TYPE_LIGHTFUNC.

#[global] Instance duk_type_eq_dec : EqDecision duk_type.
Proof. solve_decision. Defined.

(** The numeric value of each [DUK_TYPE_*] constant (duktape.h). *)
Definition type_code (t : duk_type) : Z :=
  match t with
  | DUK_TYPE_NONE => 0 | DUK_TYPE_UNDEFINED => 1 | DUK_TYPE_NULL => 2
  | DUK_TYPE_BOOLEAN => 3 | DUK_TYPE_NUMBER => 4 | DUK_TYPE_STRING => 5
  | DUK_TYPE_OBJECT => 6 | DUK_TYPE_BUFFER => 7 | DUK_TYPE_POINTER => 8
  | DUK_TYPE_LIGHTFUNC => 9
  end.

(** [DUK_TYPE_MASK_x = 1 << DUK_TYPE_x]; [DUK_TYPE_MASK_THROW = 1 << 10]. *)
Definition type_mask (t : duk_type) : Z := Z.shiftl 1 (type_code t).
Definition DUK_TYPE_MASK_THROW : Z := Z.shiftl 1 10.

(** A tagged value.  Objects and buffers live in the heap and are named
    by a reference; a pointer is an address, [0] being [NULL]. *)
Inductive tval :=
| TUndefined
| TNull
| TBoolean (b : bool)
| TNumber (d : spec_float)
| TString (s : list byte)
| TObject (r : nat)
| TBuffer (r : nat)
| TPointer (p : Z)
| TLightfunc (f : Z).

Definition type_of (v : tval) : duk_type :=
  match v with
  | TUndefined => DUK_TYPE_UNDEFINED
  | TNull => DUK_TYPE_NULL
  | TBoolean _ => DUK_TYPE_BOOLEAN
  | TNumber _ => DUK_TYPE_NUMBER
  | TString _ => DUK_TYPE_STRING
  | TObject _ => DUK_TYPE_OBJECT
  | TBuffer _ => DUK_TYPE_BUFFER
  | TPointer _ => DUK_TYPE_POINTER
  | TLightfunc _ => DUK_TYPE_LIGHTFUNC
  end.

(** A heap object: its array-index properties, its [length] (kept for
    arrays) and its string-keyed properties. *)
Record hobject := HObject {
  o_is_array : bool;
  o_index : gmap Z tval;
  o_length : Z;
  o_props : gmap string tval
}.

(** One engine instance (what a [duk_context*] designates).  The value
    stack is kept top first: [h_stack = top :: ... :: bottom]. *)
Record duk_heap := DukHeap {
  h_objs : gmap nat hobject;
  h_stash : nat;
  h_stack : list tval
}.

Definition set_stack (st : list tval) (h : duk_heap) : duk_heap :=
  DukHeap (h_objs h) (h_stash h) st.
Definition set_obj (r : nat) (o : hobject) (h : duk_heap) : duk_heap :=
  DukHeap (<[r := o]> (h_objs h)) (h_stash h) (h_stack h).

Abbreviation Duk := (M duk_heap).

(** *** Stack indices

    A non-negative index counts from the bottom, a negative one from the
    top ([-1] is the top).  [stack_pos] gives the position in the
    top-first list; for a negative index it may lie beyond the stack, and
    the lookup then finds nothing. *)
Definition stack_pos (idx : Z) (st : list tval) : option nat :=
  if idx <? 0 then Some (Z.to_nat (- idx - 1))
  else
    let top := Z.of_nat (length st) in
    if idx <? top then Some (Z.to_nat (top - 1 - idx)) else None.

Definition stack_at (idx : Z) (st : list tval) : option tval :=
  match stack_pos idx st with
  | Some p => st !! p
  | None => None
  end.

(** *** Reading the stack *)

Definition duk_get_type (idx : Z) : Duk duk_type := fun h =>
  Ok (match stack_at idx (h_stack h) with
      | Some v => type_of v
      | None => DUK_TYPE_NONE
      end, h).

(** [duk_check_type_mask]: does the mask contain the type of the value?
    With [DUK_TYPE_MASK_THROW] in the mask a mismatch is thrown. *)
Definition duk_check_type_mask (idx : Z) (mask : Z) : Duk bool :=
  let* t := duk_get_type idx in
  if negb (Z.land (type_mask t) mask =? 0) then ret true
  else if negb (Z.land mask DUK_TYPE_MASK_THROW =? 0) then fail EngineError
  else ret false.

Definition duk_require_boolean (idx : Z) : Duk bool := fun h =>
  match stack_at idx (h_stack h) with
  | Some (TBoolean b) => Ok (b, h)
  | _ => Fail EngineError
  end.

Definition duk_require_number (idx : Z) : Duk spec_float := fun h =>
  match stack_at idx (h_stack h) with
  | Some (TNumber d) => Ok (d, h)
  | _ => Fail EngineError
  end.

Definition duk_require_pointer (idx : Z) : Duk Z := fun h =>
  match stack_at idx (h_stack h) with
  | Some (TPointer p) => Ok (p, h)
  | _ => Fail EngineError
  end.

(** [duk_get_lstring]: the bytes of a string and their number;
    [NULL] and [0] for anything else. *)
Definition duk_get_lstring (idx : Z) : Duk (option (list byte) * Z) := fun h =>
  Ok (match stack_at idx (h_stack h) with
      | Some (TString s) => (Some s, Z.of_nat (length s))
      | _ => (None, 0)
      end, h).

(** [duk_get_uint]: a number clamped to [0 .. UINT_MAX] (NaN gives 0),
    its fraction dropped; [0] for anything that is not a number. *)
Definition clamp_uint (d : spec_float) : Z :=
  match d with
  | S754_nan => 0
  | S754_infinity s => if s then 0 else Double.two32 - 1
  | _ =>
      match Double.trunc d with
      | Some n => Z.max 0 (Z.min n (Double.two32 - 1))
      | None => 0
      end
  end.

Definition tval_uint (v : tval) : Z :=
  match v with
  | TNumber d => clamp_uint d
  | _ => 0
  end.

Definition duk_get_uint (idx : Z) : Duk Z := fun h =>
  Ok (match stack_at idx (h_stack h) with
      | Some v => tval_uint v
      | None => 0
      end, h).

(** [duk_get_length]: the [length] of an object; the character length
    of a string (bytes that are not UTF-8 continuation bytes); [0] for
    anything else. *)
Definition is_continuation (b : byte) : bool :=
  let n := Z.of_N (Byte.to_N b) in (128 <=? n) && (n <? 192).

Definition duk_get_length (idx : Z) : Duk Z := fun h =>
  match stack_at idx (h_stack h) with
  | Some (TObject r) =>
      match h_objs h !! r with
      | Some o => Ok (o_length o, h)
      | None => Fail InvalidAccess
      end
  | Some (TString s) =>
      Ok (Z.of_nat (length (filter (fun b => is_continuation b = false) s)), h)
  | _ => Ok (0, h)
  end.

(** *** Pushing, popping, moving *)

Definition duk_push (v : tval) : Duk unit := fun h =>
  Ok (tt, set_stack (v :: h_stack h) h).

Definition duk_push_undefined : Duk unit := duk_push TUndefined.
Definition duk_push_null : Duk unit := duk_push TNull.
Definition duk_push_boolean (b : bool) : Duk unit := duk_push (TBoolean b).
Definition duk_push_number (d : spec_float) : Duk unit := duk_push (TNumber d).
Definition duk_push_int (n : Z) : Duk unit := duk_push (TNumber (Double.of_Z n)).
Definition duk_push_uint (n : Z) : Duk unit := duk_push (TNumber (Double.of_Z n)).
Definition duk_push_pointer (p : Z) : Duk unit := duk_push (TPointer p).

(** [duk_push_lstring data len]: the first [len] bytes at [data]. *)
Definition duk_push_lstring (data : list byte) (len : Z) : Duk unit :=
  duk_push (TString (take (Z.to_nat len) data)).

Definition duk_push_heap_stash : Duk unit := fun h =>
  Ok (tt, set_stack (TObject (h_stash h) :: h_stack h) h).

(** [duk_push_array]: a new empty array, at a reference not in use. *)
Definition empty_array : hobject := HObject true ∅ 0 ∅.

Definition duk_push_array : Duk unit := fun h =>
  let r := fresh (dom (h_objs h)) in
  Ok (tt, DukHeap (<[r := empty_array]> (h_objs h)) (h_stash h)
                  (TObject r :: h_stack h)).

Definition duk_pop : Duk unit := fun h =>
  match h_stack h with
  | _ :: st => Ok (tt, set_stack st h)
  | [] => Fail EngineError
  end.

Definition duk_pop_2 : Duk unit := fun h =>
  match h_stack h with
  | _ :: _ :: st => Ok (tt, set_stack st h)
  | _ => Fail EngineError
  end.

Definition duk_dup (idx : Z) : Duk unit := fun h =>
  match stack_at idx (h_stack h) with
  | Some v => Ok (tt, set_stack (v :: h_stack h) h)
  | None => Fail EngineError
  end.

(** [duk_remove]: take the value at [idx] out, the ones above it move
    down by one. *)
Definition duk_remove (idx : Z) : Duk unit := fun h =>
  match stack_pos idx (h_stack h) with
  | Some p =>
      match h_stack h !! p with
      | Some _ => Ok (tt, set_stack (delete p (h_stack h)) h)
      | None => Fail EngineError
      end
  | None => Fail EngineError
  end.

(** *** Properties *)

(** The object a stack index designates. *)
Definition object_at (idx : Z) (h : duk_heap) : result (nat * hobject) :=
  match stack_at idx (h_stack h) with
  | Some (TObject r) =>
      match h_objs h !! r with
      | Some o => Ok (r, o)
      | None => Fail InvalidAccess
      end
  | _ => Fail EngineError
  end.

Definition duk_has_prop_string (obj_idx : Z) (key : string) : Duk bool := fun h =>
  match object_at obj_idx h with
  | Ok (_, o) => Ok (bool_decide (is_Some (o_props o !! key)), h)
  | Fail f => Fail f
  end.

(** The getters push the property, or [undefined] when there is none,
    and say whether it was there. *)
Definition duk_get_prop_string (obj_idx : Z) (key : string) : Duk bool := fun h =>
  match object_at obj_idx h with
  | Ok (_, o) =>
      Ok (bool_decide (is_Some (o_props o !! key)),
          set_stack (default TUndefined (o_props o !! key) :: h_stack h) h)
  | Fail f => Fail f
  end.

Definition duk_get_prop_index (obj_idx : Z) (arr_idx : Z) : Duk bool := fun h =>
  match object_at obj_idx h with
  | Ok (_, o) =>
      Ok (bool_decide (is_Some (o_index o !! arr_idx)),
          set_stack (default TUndefined (o_index o !! arr_idx) :: h_stack h) h)
  | Fail f => Fail f
  end.

(** [obj[key] = value], the value being popped from the top. *)
Definition put_string (key : string) (v : tval) (o : hobject) : hobject :=
  HObject (o_is_array o) (o_index o) (o_length o) (<[key := v]> (o_props o)).

(** An array grows to [arr_idx + 1] when an index at or past its length
    is written; [2^32 - 1] is not an array index and leaves [length]. *)
Definition put_index (arr_idx : Z) (v : tval) (o : hobject) : hobject :=
  HObject (o_is_array o) (<[arr_idx := v]> (o_index o))
          (if o_is_array o && (arr_idx <? Double.two32 - 1)
           then Z.max (o_length o) (arr_idx + 1) else o_length o)
          (o_props o).

Definition duk_put_prop_string (obj_idx : Z) (key : string) : Duk bool := fun h =>
  match object_at obj_idx h, h_stack h with
  | Ok (r, o), v :: st =>
      Ok (true, DukHeap (<[r := put_string key v o]> (h_objs h)) (h_stash h) st)
  | Fail f, _ => Fail f
  | _, [] => Fail EngineError
  end.

Definition duk_put_prop_index (obj_idx : Z) (arr_idx : Z) : Duk bool := fun h =>
  match object_at obj_idx h, h_stack h with
  | Ok (r, o), v :: st =>
      Ok (true, DukHeap (<[r := put_index arr_idx v o]> (h_objs h)) (h_stash h) st)
  | Fail f, _ => Fail f
  | _, [] => Fail EngineError
  end.

(** [duk_equals]: ECMAScript [==] on two stack values.  What it answers
    belongs to the engine (it may coerce, and call into script code), so
    the comparison is a parameter; an invalid index gives false.  The
    call leaves the stack as it is. *)
Definition duk_equals (js_equals : duk_heap -> tval -> tval -> bool)
    (idx1 idx2 : Z) : Duk bool := fun h =>
  match stack_at idx1 (h_stack h), stack_at idx2 (h_stack h) with
  | Some v1, Some v2 => Ok (js_equals h v1 v2, h)
  | _, _ => Ok (false, h)
  end.

End Duktape.

(* ===================================================================== *)
(** ** The ref array                                                      *)
(* ===================================================================== *)

(** The three private static functions of the class.  Each runs against
    the engine its [ctx] argument designates, which is the state the [Duk]
    monad threads. *)
Module RefArray.
Import Duktape.

Definition DUKVALUE_REF_ARRAY : string := "dukglue_dukvalue_refs".

(** [push_ref_array]: push the array kept under [DUKVALUE_REF_ARRAY] in
    the heap stash, creating it with [ref_array[0] = 0] when absent. *)
Definition push_ref_array : Duk unit :=
  duk_push_heap_stash ;;;
  let* has := duk_has_prop_string (-1) DUKVALUE_REF_ARRAY in
  (if negb has then
     duk_push_array ;;;
     (* ref_array[0] = 0 (initialize free list as empty) *)
     duk_push_int 0 ;;;
     duk_put_prop_index (-2) 0 ;;;
     duk_put_prop_string (-2) DUKVALUE_REF_ARRAY ;;;
     ret tt
   else ret tt) ;;;
  duk_get_prop_string (-1) DUKVALUE_REF_ARRAY ;;;
  duk_remove (-2).

(** [stash_ref]: put a new reference to the value at [idx] into the ref
    array and return its index in the array. *)
Definition stash_ref (idx : Z) : Duk Z :=
  push_ref_array ;;;
  (* if idx is relative, adjust it for the array just pushed *)
  let idx := if idx <? 0 then idx - 1 else idx in
  (* free indices are kept in a linked list, starting at ref_array[0] *)
  duk_get_prop_index (-1) 0 ;;;
  let* next_free_idx := duk_get_uint (-1) in
  duk_pop ;;;
  let* next_free_idx :=
    (if next_free_idx =? 0 then
       (* no free spots in the array, make a new one at arr.length *)
       let* len := duk_get_length (-1) in
       ret (Double.wrap_uint32 len)
     else
       (* ref_array[0] = ref_array[next_free_idx] *)
       duk_get_prop_index (-1) next_free_idx ;;;
       duk_put_prop_index (-2) 0 ;;;
       ret next_free_idx) in
  duk_dup idx ;;;
  duk_put_prop_index (-2) next_free_idx ;;;
  duk_pop ;;;
  ret next_free_idx.

(** [free_ref]: remove [ref_array_idx] from the ref array and add its
    spot to the free list (at [refs[0]]). *)
Definition free_ref (ref_array_idx : Z) : Duk unit :=
  push_ref_array ;;;
  (* refs[old_obj_idx] = refs[0] (implicitly gives up our reference) *)
  duk_get_prop_index (-1) 0 ;;;
  duk_put_prop_index (-2) ref_array_idx ;;;
  (* refs[0] = old_obj_idx *)
  duk_push_uint ref_array_idx ;;;
  duk_put_prop_index (-2) 0 ;;;
  duk_pop.

(** *** Observing the ref array *)

(** The reference the stash holds under the key, when it is an object
    other than the stash itself. *)
Definition ref_array_ref (h : duk_heap) : option nat :=
  match h_objs h !! h_stash h with
  | Some so =>
      match o_props so !! DUKVALUE_REF_ARRAY with
      | Some (TObject r) => if decide (r = h_stash h) then None else Some r
      | _ => None
      end
  | None => None
  end.

Definition ref_array (h : duk_heap) : option hobject :=
  match ref_array_ref h with
  | Some r => h_objs h !! r
  | None => None
  end.

(** The stash exists and has no entry under the key yet. *)
Definition ref_array_absent (h : duk_heap) : Prop :=
  match h_objs h !! h_stash h with
  | Some so => o_props so !! DUKVALUE_REF_ARRAY = None
  | None => False
  end.

(** What [ref_array[i]] reads as. *)
Definition slot (i : Z) (o : hobject) : tval :=
  default TUndefined (o_index o !! i).

(** The head of the free list: [ref_array[0]] read as an unsigned. *)
Definition free_head (o : hobject) : Z := tval_uint (slot 0 o).

(** The array as [push_ref_array] creates it. *)
Definition fresh_ref_array : hobject :=
  put_index 0 (TNumber (Double.of_Z 0)) empty_array.

(** The ref array of [h] is the object [r], with contents [arr]. *)
Definition refs_at (h : duk_heap) (r : nat) (arr : hobject) : Prop :=
  ref_array_ref h = Some r /\ h_objs h !! r = Some arr.

(** The heap once [push_ref_array] has made sure the array exists:
    unchanged when the stash has an entry under the key. *)
Definition ensure_ref_array (h : duk_heap) : duk_heap :=
  match h_objs h !! h_stash h with
  | Some so =>
      match o_props so !! DUKVALUE_REF_ARRAY with
      | Some _ => h
      | None =>
          let r := fresh (dom (h_objs h)) in
          DukHeap (<[h_stash h := put_string DUKVALUE_REF_ARRAY (TObject r) so]>
                     (<[r := fresh_ref_array]> (h_objs h)))
                  (h_stash h) (h_stack h)
      end
  | None => h
  end.

(** The array is there, or the stash is and the array can be created. *)
Definition refs_ok (h : duk_heap) : Prop :=
  ref_array_absent h \/ exists r arr, refs_at h r arr.

(** What [stash_ref] computes on the array: the index it returns and the
    array it leaves. *)
Definition allocate_slot (v : tval) (o : hobject) : Z * hobject :=
  let next_free_idx := free_head o in
  if next_free_idx =? 0 then
    let k := Double.wrap_uint32 (o_length o) in (k, put_index k v o)
  else
    (next_free_idx,
     put_index next_free_idx v (put_index 0 (slot next_free_idx o) o)).

(** What [free_ref] computes on the array. *)
Definition release_slot (k : Z) (o : hobject) : hobject :=
  put_index 0 (TNumber (Double.of_Z k)) (put_index k (slot 0 o) o).

(** *** The protocol in the specification's words

    Allocate: read slot 0; if it is 0 the new index is the array's
    current length; otherwise the new index is the value read and slot 0
    is overwritten with the value stored at that slot; then the target
    is stored at the chosen index.
    Free: overwrite the target slot with the current value of slot 0,
    then overwrite slot 0 with the freed index.
    A slot is written with the engine's array store, [put_index]. *)
Definition spec_allocate (v : tval) (o : hobject) : Z * hobject :=
  let head := tval_uint (slot 0 o) in
  if head =? 0 then (o_length o, put_index (o_length o) v o)
  else (head, put_index head v (put_index 0 (slot head o) o)).

Definition spec_free (k : Z) (o : hobject) : hobject :=
  put_index 0 (TNumber (Double.of_Z k)) (put_index k (slot 0 o) o).

End RefArray.

(* ===================================================================== *)
(** ** The variant class                                                  *)
(* ===================================================================== *)

Module Variant.
Import Duktape RefArray.

(** [enum Type]: seven of the Duktape type tags. *)
Abbreviation UNDEFINED := DUK_TYPE_UNDEFINED.
Abbreviation NULLREF := DUK_TYPE_NULL.
Abbreviation BOOLEAN := DUK_TYPE_BOOLEAN.
Abbreviation NUMBER := DUK_TYPE_NUMBER.
Abbreviation STRING := DUK_TYPE_STRING.
Abbreviation OBJECT := DUK_TYPE_OBJECT.
Abbreviation POINTER := DUK_TYPE_POINTER.

(** [union ValueTypes]: one member is active at a time; a default
    constructed value has none. *)
Inductive ValueTypes :=
| POD_unset
| POD_boolean (b : bool)
| POD_number (d : spec_float)
| POD_pointer (p : Z)
| POD_ref_array_idx (i : Z).

(** The data members.  [mContext] is a [duk_context*] ([0] is [NULL]),
    [mType] holds what [duk_get_type] returned, [mRefCount] is the
    address of a shared [int], or [None] for [NULL]. *)
Record DukValue := MkDukValue {
  mContext : Z;
  mType : duk_type;
  mPOD : ValueTypes;
  mString : list byte;
  mRefCount : option nat
}.

Definition with_mContext (c : Z) (v : DukValue) : DukValue :=
  MkDukValue c (mType v) (mPOD v) (mString v) (mRefCount v).
Definition with_mType (t : duk_type) (v : DukValue) : DukValue :=
  MkDukValue (mContext v) t (mPOD v) (mString v) (mRefCount v).
Definition with_mPOD (p : ValueTypes) (v : DukValue) : DukValue :=
  MkDukValue (mContext v) (mType v) p (mString v) (mRefCount v).
Definition with_mString (s : list byte) (v : DukValue) : DukValue :=
  MkDukValue (mContext v) (mType v) (mPOD v) s (mRefCount v).
Definition with_mRefCount (r : option nat) (v : DukValue) : DukValue :=
  MkDukValue (mContext v) (mType v) (mPOD v) (mString v) r.

(** Reading a member of the union. *)
Definition pod_boolean (p : ValueTypes) : result bool :=
  match p with POD_boolean b => Ok b | _ => Fail InvalidAccess end.
Definition pod_number (p : ValueTypes) : result spec_float :=
  match p with POD_number d => Ok d | _ => Fail InvalidAccess end.
Definition pod_pointer (p : ValueTypes) : result Z :=
  match p with POD_pointer a => Ok a | _ => Fail InvalidAccess end.
Definition pod_ref_array_idx (p : ValueTypes) : result Z :=
  match p with POD_ref_array_idx i => Ok i | _ => Fail InvalidAccess end.

Definition rbind {A B} (r : result A) (k : A -> result B) : result B :=
  match r with Ok a => k a | Fail f => Fail f end.

Definition lift {S A} (r : result A) : M S A := fun s =>
  match r with Ok a => Ok (a, s) | Fail f => Fail f end.

(** [DukValue()]: an undefined-type value. *)
Definition default_value : DukValue :=
  MkDukValue 0 UNDEFINED POD_unset [] None.

(** *** The host state

    The engines by context pointer, the [int] counters allocated with
    [new], and the [DukValue] instances by address: copies share a
    counter through its address, and assignment and the constructors
    write through [this] and through their argument. *)
Record host := MkHost {
  engines : gmap Z duk_heap;
  counters : gmap nat Z;
  instances : gmap nat DukValue
}.

Abbreviation Host := (M host).

Definition with_engines (e : gmap Z duk_heap) (s : host) : host :=
  MkHost e (counters s) (instances s).
Definition with_counters (c : gmap nat Z) (s : host) : host :=
  MkHost (engines s) c (instances s).
Definition with_instances (i : gmap nat DukValue) (s : host) : host :=
  MkHost (engines s) (counters s) i.

(** Run engine calls against the engine [ctx] designates. *)
Definition with_ctx {A} (ctx : Z) (m : Duk A) : Host A := fun s =>
  match engines s !! ctx with
  | Some h =>
      match m h with
      | Ok (a, h') => Ok (a, with_engines (<[ctx := h']> (engines s)) s)
      | Fail f => Fail f
      end
  | None => Fail InvalidAccess
  end.

Definition load (a : nat) : Host DukValue := fun s =>
  match instances s !! a with
  | Some v => Ok (v, s)
  | None => Fail InvalidAccess
  end.

Definition store (a : nat) (v : DukValue) : Host unit := fun s =>
  Ok (tt, with_instances (<[a := v]> (instances s)) s).

(** [this->field = e], where [e] may read the instance at [from]. *)
Definition write_from (this from : nat)
    (f : DukValue -> DukValue -> DukValue) : Host unit :=
  let* r := load from in
  let* t := load this in
  store this (f r t).

Definition update (this : nat) (f : DukValue -> DukValue) : Host unit :=
  let* t := load this in store this (f t).

(** [new int(n)], [*p], [*p = n], [delete p]. *)
Definition new_int (n : Z) : Host nat := fun s =>
  let l := fresh (dom (counters s)) in
  Ok (l, with_counters (<[l := n]> (counters s)) s).

Definition read_int (l : nat) : Host Z := fun s =>
  match counters s !! l with
  | Some n => Ok (n, s)
  | None => Fail InvalidAccess
  end.

Definition write_int (l : nat) (n : Z) : Host unit := fun s =>
  match counters s !! l with
  | Some _ => Ok (tt, with_counters (<[l := n]> (counters s)) s)
  | None => Fail InvalidAccess
  end.

Definition delete_int (l : nat) : Host unit := fun s =>
  match counters s !! l with
  | Some _ => Ok (tt, with_counters (delete l (counters s)) s)
  | None => Fail InvalidAccess
  end.

(** [a + b] on [int]: signed overflow is undefined. *)
Definition int_add (a b : Z) : result Z :=
  if (- Double.two31 <=? a + b) && (a + b <? Double.two31)
  then Ok (a + b) else Fail InvalidAccess.

(** *** Reference counting *)

(** [release_ref_count]: release our reference based on the state of
    [mRefCount]. *)
Definition release_ref_count (this : nat) : Host unit :=
  let* v := load this in
  if decide (mType v = OBJECT) then
    (match mRefCount v with
     | Some l =>
         (* sharing with another DukValue, are we the only one left? *)
         let* c := read_int l in
         (if 1 <? c then
            (* still someone else referencing this *)
            write_int l (c - 1)
          else
            (* not sharing anymore, we can free it *)
            let* i := lift (pod_ref_array_idx (mPOD v)) in
            with_ctx (mContext v) (free_ref i) ;;;
            delete_int l) ;;;
         update this (with_mRefCount None)
     | None =>
         (* not sharing with any other DukValue, free it *)
         let* i := lift (pod_ref_array_idx (mPOD v)) in
         with_ctx (mContext v) (free_ref i)
     end) ;;;
    update this (with_mType UNDEFINED)
  else ret tt.

(** [operator=(const DukValue& rhs)]. *)
Definition assign (this rhs : nat) : Host unit :=
  (* free whatever we had *)
  release_ref_count this ;;;
  (* copy things *)
  write_from this rhs (fun r => with_mContext (mContext r)) ;;;
  write_from this rhs (fun r => with_mType (mType r)) ;;;
  write_from this rhs (fun r => with_mPOD (mPOD r)) ;;;
  let* t := load this in
  (if decide (mType t = STRING)
   then write_from this rhs (fun r => with_mString (mString r))
   else ret tt) ;;;
  let* t := load this in
  if decide (mType t = OBJECT) then
    (* ref counting increment *)
    let* r := load rhs in
    match mRefCount r with
    | None =>
        (* not ref counted before, need to allocate memory *)
        let* l := new_int 2 in
        update rhs (with_mRefCount (Some l)) ;;;
        write_from this rhs (fun r => with_mRefCount (mRefCount r))
    | Some _ =>
        (* already refcounting, just increment *)
        write_from this rhs (fun r => with_mRefCount (mRefCount r)) ;;;
        let* t := load this in
        match mRefCount t with
        | Some l =>
            let* c := read_int l in
            let* c' := lift (int_add c 1) in
            write_int l c'
        | None => fail InvalidAccess
        end
    end
  else ret tt.

(** [DukValue(const DukValue& copy) : DukValue() { *this = copy; }],
    constructing at the address [this]. *)
Definition copy_construct (this copy : nat) : Host unit :=
  store this default_value ;;;
  assign this copy.

(** [DukValue(DukValue&& move)], constructing at the address [this].
    The members are assigned in the body; [mString] starts empty. *)
Definition move_construct (this move : nat) : Host unit :=
  store this (MkDukValue 0 DUK_TYPE_NONE POD_unset [] None) ;;;
  write_from this move (fun r => with_mContext (mContext r)) ;;;
  write_from this move (fun r => with_mType (mType r)) ;;;
  write_from this move (fun r => with_mPOD (mPOD r)) ;;;
  write_from this move (fun r => with_mRefCount (mRefCount r)) ;;;
  let* t := load this in
  (if decide (mType t = STRING) then
     (* mString = std::move(move.mString): the source is left empty *)
     write_from this move (fun r => with_mString (mString r)) ;;;
     update move (with_mString [])
   else ret tt) ;;;
  update move (with_mType UNDEFINED) ;;;
  update move (with_mRefCount None).

(** [~DukValue()]: release any reference we have; the instance then
    ceases to exist. *)
Definition destroy (this : nat) : Host unit :=
  release_ref_count this ;;;
  fun s => Ok (tt, with_instances (delete this (instances s)) s).

(** *** Capture and push *)

(** [mString.assign(data, len)]. *)
Definition string_assign (data : option (list byte)) (len : Z) : list byte :=
  match data with
  | Some bytes => take (Z.to_nat len) bytes
  | None => []
  end.

(** What [return std::move(value)] hands to the caller: the move
    constructor applied to the local, which is then destroyed as an
    undefined-type value (nothing to release). *)
Definition moved (v : DukValue) : DukValue :=
  MkDukValue (mContext v) (mType v) (mPOD v)
             (if decide (mType v = STRING) then mString v else [])
             (mRefCount v).

(** [copy_from_stack]: copy the value at [idx] on the stack into a new
    DukValue and return it.  The default arguments are [idx = -1] and
    [accept_mask = ~0x0]. *)
Definition accept_all : Z := Double.two32 - 1.

Definition copy_from_stack_in (ctx : Z) (idx : Z) (accept_mask : Z)
    : Duk DukValue :=
  let* ok := duk_check_type_mask idx accept_mask in
  if negb ok then fail AssertionFailure
  else
    let value := with_mContext ctx default_value in
    let* t := duk_get_type idx in
    let value := with_mType t value in
    let* value :=
      match t with
      | UNDEFINED => ret value
      | NULLREF => ret (with_mPOD (POD_pointer 0) value)
      | BOOLEAN =>
          let* b := duk_require_boolean idx in
          ret (with_mPOD (POD_boolean b) value)
      | NUMBER =>
          let* d := duk_require_number idx in
          ret (with_mPOD (POD_number d) value)
      | STRING =>
          let* dl := duk_get_lstring idx in
          ret (with_mString (string_assign (fst dl) (snd dl)) value)
      | OBJECT =>
          let* i := stash_ref idx in
          ret (with_mPOD (POD_ref_array_idx i) value)
      | POINTER =>
          let* p := duk_require_pointer idx in
          ret (with_mPOD (POD_pointer p) value)
      | _ => ret value
      end in
    ret (moved value).

Definition copy_from_stack (ctx : Z) (idx : Z) (accept_mask : Z)
    : Host DukValue :=
  with_ctx ctx (copy_from_stack_in ctx idx accept_mask).

(** [take_from_stack]: same as [copy_from_stack], but also removes the
    value we copied from the stack. *)
Definition take_from_stack (ctx : Z) (idx : Z) (accept_mask : Z)
    : Host DukValue :=
  let* val := copy_from_stack ctx idx accept_mask in
  with_ctx ctx (duk_remove idx) ;;;
  ret (moved val).

(** [push]: push the value we hold onto the stack.  A type tag outside
    the enumeration matches no case. *)
Definition push_in (v : DukValue) : Duk unit :=
  match mType v with
  | UNDEFINED => duk_push_undefined
  | NULLREF => duk_push_null
  | BOOLEAN =>
      let* b := lift (pod_boolean (mPOD v)) in duk_push_boolean b
  | NUMBER =>
      let* d := lift (pod_number (mPOD v)) in duk_push_number d
  | STRING =>
      duk_push_lstring (mString v) (Z.of_nat (length (mString v)))
  | OBJECT =>
      push_ref_array ;;;
      let* i := lift (pod_ref_array_idx (mPOD v)) in
      duk_get_prop_index (-1) i ;;;
      duk_remove (-2)
  | POINTER =>
      let* p := lift (pod_pointer (mPOD v)) in duk_push_pointer p
  | _ => ret tt
  end.

Definition push (v : DukValue) : Host unit :=
  with_ctx (mContext v) (push_in v).

(** [operator==]. *)
Definition equals (js_equals : duk_heap -> tval -> tval -> bool)
    (this rhs : DukValue) : Host bool :=
  if decide (mType this <> mType rhs \/ mContext this <> mContext rhs)
  then ret false
  else
    match mType this with
    | UNDEFINED | NULLREF => ret true
    | BOOLEAN =>
        let* a := lift (pod_boolean (mPOD this)) in
        let* b := lift (pod_boolean (mPOD rhs)) in
        ret (Bool.eqb a b)
    | NUMBER =>
        let* a := lift (pod_number (mPOD this)) in
        let* b := lift (pod_number (mPOD rhs)) in
        ret (Double.eqb a b)
    | STRING => ret (bool_decide (mString this = mString rhs))
    | OBJECT =>
        (* this could be optimized to only push ref_array once... *)
        push this ;;;
        push rhs ;;;
        let* equal := with_ctx (mContext this) (duk_equals js_equals (-1) (-2)) in
        with_ctx (mContext this) duk_pop_2 ;;;
        ret equal
    | POINTER =>
        let* a := lift (pod_pointer (mPOD this)) in
        let* b := lift (pod_pointer (mPOD rhs)) in
        ret (a =? b)
    | _ => fail AssertionFailure
    end.

(** [operator!=]. *)
Definition not_equals (js_equals : duk_heap -> tval -> tval -> bool)
    (this rhs : DukValue) : Host bool :=
  let* e := equals js_equals this rhs in ret (negb e).

(** *** The (type-safe) getters *)

Definition as_double (v : DukValue) : result spec_float :=
  if decide (mType v <> NUMBER) then Fail AssertionFailure
  else pod_number (mPOD v).

Definition as_float (v : DukValue) : result spec_float :=
  if decide (mType v <> NUMBER) then Fail AssertionFailure
  else rbind (pod_number (mPOD v)) (fun d => Ok (Double.to_float d)).

(** [return static_cast<uint32_t>(mPOD.number)] from a function that
    returns [duk_int_t]. *)
Definition as_int (v : DukValue) : result Z :=
  if decide (mType v <> NUMBER) then Fail AssertionFailure
  else rbind (pod_number (mPOD v)) (fun d =>
       rbind (Double.to_uint32 d) (fun u =>
       Ok (Double.uint32_to_int32 u))).

Definition as_uint (v : DukValue) : result Z :=
  if decide (mType v <> NUMBER) then Fail AssertionFailure
  else rbind (pod_number (mPOD v)) Double.to_uint32.

Definition as_pointer (v : DukValue) : result Z :=
  if decide (mType v <> POINTER /\ mType v <> NULLREF) then Fail AssertionFailure
  else pod_pointer (mPOD v).

Definition as_string (v : DukValue) : result (list byte) :=
  if decide (mType v <> STRING) then Fail AssertionFailure
  else Ok (mString v).

Definition as_c_string (v : DukValue) : result (list byte) :=
  if decide (mType v <> STRING) then Fail AssertionFailure
  else Ok (mString v).

Definition type (v : DukValue) : duk_type := mType v.
Definition context (v : DukValue) : Z := mContext v.

End Variant.

Import Duktape RefArray Variant.

(* ===================================================================== *)
(** ** What the properties are stated with                                *)
(* ===================================================================== *)

#[global] Instance spec_float_eq_dec : EqDecision spec_float.
Proof. solve_decision. Defined.
#[global] Instance tval_eq_dec : EqDecision tval.
Proof. solve_decision. Defined.
#[global] Instance ValueTypes_eq_dec : EqDecision ValueTypes.
Proof. solve_decision. Defined.

(** The seven kinds of [enum Type]. *)
Definition supported (t : duk_type) : bool :=
  match t with
  | DUK_TYPE_NONE | DUK_TYPE_BUFFER | DUK_TYPE_LIGHTFUNC => false
  | _ => true
  end.

(** The union member that is active is the one the kind selects. *)
Definition pod_matches (v : DukValue) : bool :=
  match mType v, mPOD v with
  | BOOLEAN, POD_boolean _ => true
  | NUMBER, POD_number _ => true
  | POINTER, POD_pointer _ => true
  | NULLREF, POD_pointer p => p =? 0
  | OBJECT, POD_ref_array_idx _ => true
  | UNDEFINED, _ => true
  | STRING, _ => true
  | _, _ => false
  end.

(** The text a variant holds: the buffer is meaningful for a String only. *)
Definition text (v : DukValue) : option (list byte) :=
  if decide (mType v = STRING) then Some (mString v) else None.

(** An instance once [release_ref_count] has run on it as an Object. *)
Definition released (v : DukValue) : DukValue :=
  with_mType UNDEFINED (with_mRefCount None v).

(** [this] (then holding [t], not an Object) after copying a non-Object
    [r] into it. *)
Definition copied (r t : DukValue) : DukValue :=
  MkDukValue (mContext r) (mType r) (mPOD r)
             (if decide (mType r = STRING) then mString r else mString t)
             (mRefCount t).

(** [this] (then holding [t]) after copying the Object [r] into it, both
    then holding the counter [l]. *)
Definition sharing (r t : DukValue) (l : nat) : DukValue :=
  MkDukValue (mContext r) OBJECT (mPOD r) (mString t) (Some l).

(** The source of a move, afterwards. *)
Definition moved_from (v : DukValue) : DukValue :=
  MkDukValue (mContext v) UNDEFINED (mPOD v)
             (if decide (mType v = STRING) then [] else mString v) None.

(** The variant that capturing the stack value [v] produces, [k] being
    the slot index [stash_ref] returned when [v] is an object. *)
Definition captured (ctx : Z) (v : tval) (k : Z) : DukValue :=
  match v with
  | TUndefined => MkDukValue ctx UNDEFINED POD_unset [] None
  | TNull => MkDukValue ctx NULLREF (POD_pointer 0) [] None
  | TBoolean b => MkDukValue ctx BOOLEAN (POD_boolean b) [] None
  | TNumber d => MkDukValue ctx NUMBER (POD_number d) [] None
  | TString s => MkDukValue ctx STRING POD_unset s None
  | TObject _ => MkDukValue ctx OBJECT (POD_ref_array_idx k) [] None
  | TBuffer _ => MkDukValue ctx DUK_TYPE_BUFFER POD_unset [] None
  | TPointer p => MkDukValue ctx POINTER (POD_pointer p) [] None
  | TLightfunc _ => MkDukValue ctx DUK_TYPE_LIGHTFUNC POD_unset [] None
  end.

(** The acceptance mask contains the type. *)
Definition accepts (mask : Z) (t : duk_type) : bool :=
  negb (Z.land (type_mask t) mask =? 0).

(** The type [duk_get_type] reports for a stack index. *)
Definition reported_type (idx : Z) (h : duk_heap) : duk_type :=
  match stack_at idx (h_stack h) with
  | Some v => type_of v
  | None => DUK_TYPE_NONE
  end.

(** The value [push] puts on the stack for a well-formed variant of one
    of the seven kinds, [arr] being the ref array. *)
Definition pushed_value (v : DukValue) (arr : hobject) : tval :=
  match mType v, mPOD v with
  | NULLREF, _ => TNull
  | BOOLEAN, POD_boolean b => TBoolean b
  | NUMBER, POD_number d => TNumber d
  | STRING, _ => TString (mString v)
  | OBJECT, POD_ref_array_idx i => slot i arr
  | POINTER, POD_pointer p => TPointer p
  | _, _ => TUndefined
  end.

(** [push] called [n] times in a row. *)
Fixpoint push_times (n : nat) (v : DukValue) : Host unit :=
  match n with
  | O => ret tt
  | S n' => push v ;;; push_times n' v
  end.

(** *** The reference-count invariant *)

(** The instances that hold the counter at [l]. *)
Definition sharers (l : nat) (inst : gmap nat DukValue) : gmap nat DukValue :=
  filter (fun kv => mRefCount kv.2 = Some l) inst.

(** [1] when the instance, if any, holds the counter at [l]. *)
Definition holds (l : nat) (o : option DukValue) : nat :=
  match o with
  | Some v => if decide (mRefCount v = Some l) then 1%nat else 0%nat
  | None => 0%nat
  end.

(** The invariant, with [least] the smallest value a live counter may
    have:
    - an instance that is not an Object has no counter;
    - every live counter equals the number of instances that hold it, and
      is at least [least];
    - a counter an instance holds is live;
    - the instances that hold one counter designate one slot of one
      engine. *)
Definition counted_from (least : Z) (s : host) : Prop :=
  map_Forall (fun _ v => mType v <> OBJECT -> mRefCount v = None) (instances s)
  /\ map_Forall (fun l c =>
        c = Z.of_nat (size (sharers l (instances s))) /\ least <= c)
       (counters s)
  /\ map_Forall (fun _ v => match mRefCount v with
                            | Some l => is_Some (counters s !! l)
                            | None => True
                            end) (instances s)
  /\ map_Forall (fun _ va =>
       map_Forall (fun _ vb =>
         is_Some (mRefCount va) -> mRefCount va = mRefCount vb ->
         mContext va = mContext vb /\ mPOD va = mPOD vb) (instances s))
       (instances s).

#[global] Instance counted_from_dec least s : Decision (counted_from least s).
Proof.
  unfold counted_from.
  repeat apply and_dec; apply map_Forall_dec; intros; try apply _.
  destruct (mRefCount _); apply _.
Defined.

(** The same invariant, quantifier by quantifier: the form the proofs
    use ([counted_from_facts] below relates the two). *)
Record counted_facts (least : Z) (s : host) : Prop := {
  cf_plain : forall a v,
    instances s !! a = Some v -> mType v <> OBJECT -> mRefCount v = None;
  cf_total : forall l,
    Z.of_nat (size (sharers l (instances s))) = default 0 (counters s !! l);
  cf_least : forall l c, counters s !! l = Some c -> least <= c;
  cf_slot : forall a b va vb l,
    instances s !! a = Some va -> instances s !! b = Some vb ->
    mRefCount va = Some l -> mRefCount vb = Some l ->
    mContext va = mContext vb /\ mPOD va = mPOD vb
}.

(** What [release_ref_count] leaves at [this]. *)
Definition let_go (v : DukValue) : DukValue :=
  if decide (mType v = OBJECT) then released v else v.

(** The invariant the code keeps: a counter stays, at 1, with the last
    instance that holds it. *)
Definition counted (s : host) : Prop := counted_from 1 s.

(** *** Counting by slot *)

(** [w] is an Object that designates the slot [v] designates: the same
    slot of the same engine. *)
Definition shares_slot (v w : DukValue) : Prop :=
  mType w = OBJECT /\ mContext w = mContext v /\ mPOD w = mPOD v.

#[global] Instance shares_slot_dec v w : Decision (shares_slot v w).
Proof. unfold shares_slot. apply _. Defined.

(** The instances that share the slot of [v]. *)
Definition on_slot (v : DukValue) (inst : gmap nat DukValue)
    : gmap nat DukValue :=
  filter (fun kv => shares_slot v kv.2) inst.

(** Two Object instances that share a slot hold one counter. *)
Definition one_counter_per_slot (inst : gmap nat DukValue) : Prop :=
  map_Forall (fun a va =>
    map_Forall (fun b vb =>
      a <> b -> mType va = OBJECT -> shares_slot va vb ->
      is_Some (mRefCount va) /\ mRefCount va = mRefCount vb) inst) inst.

(** The counter of an Object instance is live and its value is the number
    of instances that share the slot; an Object instance without a
    counter is the only instance on its slot. *)
Definition counts_its_slot (s : host) : Prop :=
  map_Forall (fun _ v =>
    mType v = OBJECT ->
    match mRefCount v with
    | Some l =>
        counters s !! l = Some (Z.of_nat (size (on_slot v (instances s))))
    | None => size (on_slot v (instances s)) = 1%nat
    end) (instances s).

(** The reference-count invariant, by slot, with [least] the smallest
    value a live counter may have: [counted_from least], the instances
    that share a slot hold one counter, and that counter is the number of
    instances that share the slot. *)
Definition slot_counted_from (least : Z) (s : host) : Prop :=
  counted_from least s
  /\ one_counter_per_slot (instances s)
  /\ counts_its_slot s.

#[global] Instance slot_counted_from_dec least s :
  Decision (slot_counted_from least s).
Proof.
  unfold slot_counted_from, one_counter_per_slot, counts_its_slot.
  apply and_dec; [apply counted_from_dec|apply and_dec].
  - apply map_Forall_dec. intros a va. apply map_Forall_dec. intros b vb.
    apply _.
  - apply map_Forall_dec. intros a v. apply impl_dec; [apply _|].
    destruct (mRefCount v); apply _.
Defined.

(** The invariant the code keeps: the counter of a slot is the number of
    instances that share the slot, and stays, at 1, with the last of
    them. *)
Definition slot_counted (s : host) : Prop := slot_counted_from 1 s.

(** The invariant in the specification's words: the counter of a slot is
    the number of instances that share the slot, and a counter that is
    present is at least 2. *)
Definition counted_as_specified (s : host) : Prop := slot_counted_from 2 s.

(** The second clause, quantifier by quantifier. *)
Definition slots_apart (inst : gmap nat DukValue) : Prop :=
  forall a b va vb,
    inst !! a = Some va -> inst !! b = Some vb -> a <> b ->
    mType va = OBJECT -> mType vb = OBJECT ->
    mContext va = mContext vb -> mPOD va = mPOD vb ->
    exists l, mRefCount va = Some l /\ mRefCount vb = Some l.

(** *** When the operations return *)

(** Every Object instance designates a slot of an engine that is there. *)
Definition engines_ready (s : host) : Prop :=
  forall a v, instances s !! a = Some v -> mType v = OBJECT ->
    (exists i, mPOD v = POD_ref_array_idx i)
    /\ exists h, engines s !! mContext v = Some h /\ refs_ok h.

(** No counter is at [INT_MAX]. *)
Definition counters_bounded (s : host) : Prop :=
  forall l c, counters s !! l = Some c -> c + 1 < Double.two31.

(* ===================================================================== *)
(** ** The free list and the slots in use                                 *)
(* ===================================================================== *)

(** The free list of the ref array [o], read from the index [head]: each
    free slot holds the index of the next one, and [0] ends the list. *)
Inductive free_chain (o : hobject) : Z -> list Z -> Prop :=
| chain_end : free_chain o 0 []
| chain_step k ks :
    k <> 0 -> free_chain o (tval_uint (slot k o)) ks ->
    free_chain o k (k :: ks).

(** The ref array is well formed, with free slots [ks]: it is an array
    that has its slot 0 and can still grow; the list read from slot 0 is
    [ks], without repetition, inside the array. *)
Definition free_list_wf (o : hobject) (ks : list Z) : Prop :=
  o_is_array o = true
  /\ 1 <= o_length o < Double.two32 - 1
  /\ free_chain o (free_head o) ks
  /\ NoDup ks
  /\ Forall (fun k => 1 <= k < o_length o) ks.

(** A slot in use: inside the array, not slot 0, not on the free list. *)
Definition live (o : hobject) (ks : list Z) (i : Z) : Prop :=
  1 <= i < o_length o /\ i ∉ ks.

(** The ref array of an engine, if there, can grow by [n] slots. *)
Definition room (n : Z) (h : duk_heap) : Prop :=
  forall r arr, refs_at h r arr -> o_length arr + n < Double.two32 - 1.

(** The ref array of an engine is not there yet, or is well formed. *)
Definition engine_ok (h : duk_heap) : Prop :=
  ref_array_absent h
  \/ exists r arr ks, refs_at h r arr /\ free_list_wf arr ks.

(** The variant [v] pins the object [o]: it designates a slot in use of
    the ref array of its engine, and that slot holds [o]. *)
Definition owns (eng : gmap Z duk_heap) (v : DukValue) (o : nat) : Prop :=
  exists h r arr ks i,
    eng !! mContext v = Some h /\ refs_at h r arr /\ free_list_wf arr ks
    /\ mPOD v = POD_ref_array_idx i /\ live arr ks i
    /\ slot i arr = TObject o.

(** The ownership invariant:
    - the ref array of every engine is absent or well formed;
    - every Object instance pins an object;
    - two Object instances that designate one slot of one engine share a
      counter. *)
Record pinned (s : host) : Prop := {
  pin_engines : forall ctx h, engines s !! ctx = Some h -> engine_ok h;
  pin_owned : forall a v,
    instances s !! a = Some v -> mType v = OBJECT ->
    exists o, owns (engines s) v o;
  pin_apart : forall a b va vb,
    instances s !! a = Some va -> instances s !! b = Some vb -> a <> b ->
    mType va = OBJECT -> mType vb = OBJECT ->
    mContext va = mContext vb -> mPOD va = mPOD vb ->
    exists l, mRefCount va = Some l /\ mRefCount vb = Some l
}.

(** *** Values and what can be observed of them *)

(** The variant that capturing a position with no value produces: its
    type tag is [DUK_TYPE_NONE], which [enum Type] leaves out. *)
Definition nothing (ctx : Z) : DukValue :=
  MkDukValue ctx DUK_TYPE_NONE POD_unset [] None.

(** Two variants hold the same value: engine, kind, payload and text. *)
Definition same_payload (a b : DukValue) : Prop :=
  mContext a = mContext b /\ mType a = mType b /\ mPOD a = mPOD b
  /\ text a = text b.

(** The public const members answer the same for both variants. *)
Definition observably_equal (a b : DukValue) : Prop :=
  (forall js y s, equals js a y s = equals js b y s
                  /\ equals js y a s = equals js y b s)
  /\ (forall s, push a s = push b s)
  /\ as_double a = as_double b /\ as_float a = as_float b
  /\ as_int a = as_int b /\ as_uint a = as_uint b
  /\ as_pointer a = as_pointer b
  /\ as_string a = as_string b /\ as_c_string a = as_c_string b
  /\ type a = type b /\ context a = context b.

(* ===================================================================== *)
(** ** Sample states                                                      *)
(* ===================================================================== *)

(** Concrete doubles, heaps and host states, on which the statements
    below are evaluated. *)
Module Sample.

(** [-1.0] and [3000000000.0] as binary64 numbers. *)
Definition minus_one : spec_float := S754_finite true 4503599627370496 (-52).
Definition three_billion : spec_float :=
  S754_finite false 6291456000000000 (-21).

(** The bytes of "a", a zero byte, and U+00E9 in UTF-8. *)
Definition text_bytes : list byte := [x61; x00; xc3; xa9].

Definition plain_object : hobject := HObject false ∅ 0 ∅.

(** A heap stash holding the ref array, whose slot 1 pins object 5. *)
Definition stash : hobject :=
  HObject false ∅ 0 {[ DUKVALUE_REF_ARRAY := TObject 1%nat ]}.
Definition refs : hobject :=
  HObject true {[ 0 := TNumber (Double.of_Z 0); 1 := TObject 5%nat ]} 2 ∅.

Definition heap : duk_heap :=
  DukHeap {[ 0%nat := stash; 1%nat := refs;
             5%nat := plain_object; 6%nat := plain_object ]}
          0%nat
          [TObject 6%nat; TString text_bytes; TNumber minus_one; TNull].

(** The same engine before the class was ever used on it. *)
Definition unused_heap : duk_heap :=
  DukHeap {[ 0%nat := plain_object; 6%nat := plain_object ]}
          0%nat [TObject 6%nat].

Definition ctx : Z := 4096.

(** The owner of slot 1, at address 100. *)
Definition owner : DukValue :=
  MkDukValue ctx OBJECT (POD_ref_array_idx 1) [] None.

Definition state : host :=
  MkHost {[ ctx := heap ]} ∅ {[ 100%nat := owner ]}.

(** Two instances sharing slot 1 through the counter at 0, which is 2. *)
Definition sharer : DukValue :=
  MkDukValue ctx OBJECT (POD_ref_array_idx 1) [] (Some 0%nat).

Definition shared : host :=
  MkHost {[ ctx := heap ]} {[ 0%nat := 2 ]}
         {[ 100%nat := sharer; 101%nat := sharer ]}.

(** [shared] after the instance at 100 was released. *)
Definition shared_released : host :=
  MkHost {[ ctx := heap ]} {[ 0%nat := 1 ]}
         {[ 100%nat := released sharer; 101%nat := sharer ]}.

Definition number (d : spec_float) : DukValue :=
  MkDukValue ctx NUMBER (POD_number d) [] None.



(** An equality oracle for the engine: identity of values. *)
Definition same_value (_ : duk_heap) (v1 v2 : tval) : bool :=
  bool_decide (v1 = v2).

End Sample.

(* ===================================================================== *)
(** ** Engine calls, one step at a time                                   *)
(* ===================================================================== *)

(** Each lemma of this section rewrites one API call made on a stack of
    known shape; [next] then exposes the call that follows it. *)
Ltac next :=
  cbv beta iota; unfold set_stack, set_obj; cbn [h_objs h_stash h_stack fst snd].

Section engine_steps.
Context (objs : gmap nat hobject) (stash : nat) (st : list tval).

Lemma step_push v :
  duk_push v (DukHeap objs stash st) = Ok (tt, DukHeap objs stash (v :: st)).
Proof. done. Qed.

Lemma step_get_uint x :
  duk_get_uint (-1) (DukHeap objs stash (x :: st))
  = Ok (tval_uint x, DukHeap objs stash (x :: st)).
Proof. done. Qed.

Lemma step_pop x :
  duk_pop (DukHeap objs stash (x :: st)) = Ok (tt, DukHeap objs stash st).
Proof. done. Qed.

Lemma step_remove_under x y :
  duk_remove (-2) (DukHeap objs stash (x :: y :: st))
  = Ok (tt, DukHeap objs stash (x :: st)).
Proof. done. Qed.

Lemma step_dup idx x v :
  stack_at idx (x :: st) = Some v ->
  duk_dup idx (DukHeap objs stash (x :: st))
  = Ok (tt, DukHeap objs stash (v :: x :: st)).
Proof. intros H. unfold duk_dup; simpl. by rewrite H. Qed.

Lemma step_get_length r o :
  objs !! r = Some o ->
  duk_get_length (-1) (DukHeap objs stash (TObject r :: st))
  = Ok (o_length o, DukHeap objs stash (TObject r :: st)).
Proof. intros H. unfold duk_get_length; simpl. by rewrite H. Qed.

Lemma step_get_prop_index r o i :
  objs !! r = Some o ->
  duk_get_prop_index (-1) i (DukHeap objs stash (TObject r :: st))
  = Ok (bool_decide (is_Some (o_index o !! i)),
        DukHeap objs stash (slot i o :: TObject r :: st)).
Proof. intros H. unfold duk_get_prop_index, object_at; simpl. by rewrite H. Qed.

Lemma step_put_prop_index r o i v :
  objs !! r = Some o ->
  duk_put_prop_index (-2) i (DukHeap objs stash (v :: TObject r :: st))
  = Ok (true, DukHeap (<[r := put_index i v o]> objs) stash (TObject r :: st)).
Proof. intros H. unfold duk_put_prop_index, object_at; simpl. by rewrite H. Qed.

Lemma step_has_prop_string r o key :
  objs !! r = Some o ->
  duk_has_prop_string (-1) key (DukHeap objs stash (TObject r :: st))
  = Ok (bool_decide (is_Some (o_props o !! key)),
        DukHeap objs stash (TObject r :: st)).
Proof. intros H. unfold duk_has_prop_string, object_at; simpl. by rewrite H. Qed.

Lemma step_get_prop_string r o key :
  objs !! r = Some o ->
  duk_get_prop_string (-1) key (DukHeap objs stash (TObject r :: st))
  = Ok (bool_decide (is_Some (o_props o !! key)),
        DukHeap objs stash (default TUndefined (o_props o !! key) :: TObject r :: st)).
Proof. intros H. unfold duk_get_prop_string, object_at; simpl. by rewrite H. Qed.

Lemma step_put_prop_string r o key v :
  objs !! r = Some o ->
  duk_put_prop_string (-2) key (DukHeap objs stash (v :: TObject r :: st))
  = Ok (true, DukHeap (<[r := put_string key v o]> objs) stash (TObject r :: st)).
Proof. intros H. unfold duk_put_prop_string, object_at; simpl. by rewrite H. Qed.
End engine_steps.

(** Pushing one value leaves every other value where an index finds it,
    once a relative index is moved down by one as [stash_ref] does. *)
Lemma stack_at_under idx x st v :
  stack_at idx st = Some v ->
  stack_at (if idx <? 0 then idx - 1 else idx) (x :: st) = Some v.
Proof.
  unfold stack_at, stack_pos. destruct (Z.ltb_spec idx 0) as [Hn|Hn].
  - destruct (Z.ltb_spec (idx - 1) 0); [|lia].
    replace (Z.to_nat (- (idx - 1) - 1)) with (S (Z.to_nat (- idx - 1))) by lia.
    done.
  - destruct (Z.ltb_spec idx 0); [lia|]. simpl length.
    destruct (Z.ltb_spec idx (Z.of_nat (length st))); [|done].
    destruct (Z.ltb_spec idx (Z.of_nat (S (length st)))); [|lia].
    replace (Z.to_nat (Z.of_nat (S (length st)) - 1 - idx))
      with (S (Z.to_nat (Z.of_nat (length st) - 1 - idx))) by lia.
    done.
Qed.

Lemma wrap_uint32_small n : 0 <= n < Double.two32 -> Double.wrap_uint32 n = n.
Proof. intros. unfold Double.wrap_uint32. by apply Z.mod_small. Qed.

(* ===================================================================== *)
(** ** The ref array functions                                            *)
(* ===================================================================== *)

Lemma ref_array_ref_inv h r :
  ref_array_ref h = Some r ->
  exists so, h_objs h !! h_stash h = Some so
        /\ o_props so !! DUKVALUE_REF_ARRAY = Some (TObject r)
        /\ r <> h_stash h.
Proof.
  unfold ref_array_ref. intros H.
  destruct (h_objs h !! h_stash h) as [so|] eqn:Hs; [|done].
  destruct (o_props so !! DUKVALUE_REF_ARRAY) as [[]|] eqn:Hk; try done.
  case_decide; [done|]. simplify_eq. eauto.
Qed.

Lemma ensure_ref_array_present h r arr :
  refs_at h r arr -> ensure_ref_array h = h.
Proof.
  intros [Hr _]. apply ref_array_ref_inv in Hr as (so & Hs & Hk & _).
  unfold ensure_ref_array. by rewrite Hs, Hk.
Qed.

Lemma ensure_ref_array_stack h : h_stack (ensure_ref_array h) = h_stack h.
Proof.
  unfold ensure_ref_array. destruct (h_objs h !! h_stash h) as [so|]; [|done].
  by destruct (o_props so !! DUKVALUE_REF_ARRAY).
Qed.

(** After [ensure_ref_array] the array is there. *)
Lemma ensure_ref_array_refs h :
  refs_ok h -> exists r arr, refs_at (ensure_ref_array h) r arr.
Proof.
  intros [Habs|(r & arr & Hat)].
  - unfold ref_array_absent in Habs. unfold ensure_ref_array.
    destruct (h_objs h !! h_stash h) as [so|] eqn:Hs; [|done]. rewrite Habs.
    set (r := fresh (dom (h_objs h))).
    assert (r <> h_stash h) as Hne.
    { intros E. apply (is_fresh (dom (h_objs h))). fold r. rewrite E.
      apply elem_of_dom. eauto. }
    exists r, fresh_ref_array. split; simpl.
    + unfold ref_array_ref; simpl. rewrite lookup_insert_eq; simpl.
      rewrite lookup_insert_eq. by case_decide.
    + rewrite lookup_insert_ne by done. by rewrite lookup_insert_eq.
  - exists r, arr. by rewrite (ensure_ref_array_present h r arr).
Qed.

Lemma push_ref_array_present objs stash st r arr :
  refs_at (DukHeap objs stash st) r arr ->
  push_ref_array (DukHeap objs stash st)
  = Ok (tt, DukHeap objs stash (TObject r :: st)).
Proof.
  intros [Hr Ha]. apply ref_array_ref_inv in Hr as (so & Hs & Hk & Hne).
  simpl in *. unfold push_ref_array, bind, duk_push_heap_stash. next.
  rewrite (step_has_prop_string _ _ _ _ _ _ Hs). next. rewrite Hk; simpl.
  rewrite (step_get_prop_string _ _ _ _ _ _ Hs). next.
  rewrite Hk; simpl. apply step_remove_under.
Qed.

Lemma push_ref_array_absent objs stash st :
  ref_array_absent (DukHeap objs stash st) ->
  exists r,
    ref_array_ref (ensure_ref_array (DukHeap objs stash st)) = Some r
    /\ push_ref_array (DukHeap objs stash st)
       = Ok (tt, set_stack (TObject r :: st)
                   (ensure_ref_array (DukHeap objs stash st))).
Proof.
  unfold ref_array_absent, ensure_ref_array; simpl. intros Habs.
  destruct (objs !! stash) as [so|] eqn:Hs; [|done]. rewrite Habs.
  set (r := fresh (dom objs)).
  assert (r <> stash) as Hne.
  { intros E. apply (is_fresh (dom objs)). fold r. rewrite E.
    apply elem_of_dom. eauto. }
  exists r. split.
  { unfold ref_array_ref; simpl. rewrite lookup_insert_eq; simpl.
    rewrite lookup_insert_eq. by case_decide. }
  unfold push_ref_array, bind, duk_push_heap_stash. next.
  rewrite (step_has_prop_string _ _ _ _ _ _ Hs). next. rewrite Habs.
  rewrite bool_decide_eq_false_2 by (by intros [? ?]). cbn [negb].
  unfold duk_push_array, duk_push_int. next. fold r.
  rewrite step_push. next.
  erewrite step_put_prop_index by apply lookup_insert_eq. next.
  rewrite insert_insert_eq.
  erewrite step_put_prop_string
    by (rewrite lookup_insert_ne by done; exact Hs).
  next. unfold ret. next.
  erewrite step_get_prop_string by apply lookup_insert_eq. next.
  simpl. rewrite lookup_insert_eq. simpl. apply step_remove_under.
Qed.

(** [push_ref_array] pushes the array, having created it if needed. *)
Lemma push_ref_array_ok h :
  refs_ok h ->
  exists r arr,
    refs_at (ensure_ref_array h) r arr
    /\ push_ref_array h
       = Ok (tt, set_stack (TObject r :: h_stack h) (ensure_ref_array h)).
Proof.
  intros Hok. destruct (ensure_ref_array_refs h Hok) as (r & arr & Hat).
  exists r, arr. split; [done|]. destruct h as [objs stash st].
  destruct Hok as [Habs|(r' & arr' & Hat')].
  - destruct (push_ref_array_absent _ _ _ Habs) as (r2 & Hr2 & ->).
    destruct Hat as [Hr _]. by simplify_eq.
  - rewrite (ensure_ref_array_present _ _ _ Hat') in *.
    destruct Hat as [Hr _], Hat' as [Hr' Ha']. simplify_eq.
    by apply (push_ref_array_present _ _ _ _ arr').
Qed.

Lemma refs_at_set_obj h r arr arr' :
  refs_at h r arr -> refs_at (set_obj r arr' h) r arr'.
Proof.
  intros [Hr Ha]. pose proof (ref_array_ref_inv _ _ Hr) as (so & Hs & Hk & Hne).
  split; simpl; [|by rewrite lookup_insert_eq].
  unfold ref_array_ref; simpl. rewrite lookup_insert_ne by done.
  rewrite Hs, Hk. by case_decide.
Qed.

Lemma refs_at_set_stack h r arr st :
  refs_at h r arr -> refs_at (set_stack st h) r arr.
Proof. by intros [Hr Ha]. Qed.

(** [stash_ref] on a heap whose array is there. *)
Lemma stash_ref_present h r arr idx v :
  refs_at h r arr ->
  stack_at idx (h_stack h) = Some v ->
  stash_ref idx h
  = Ok (fst (allocate_slot v arr), set_obj r (snd (allocate_slot v arr)) h).
Proof.
  intros Hat Hv. destruct h as [objs stash st]; simpl in *.
  pose proof (stack_at_under idx (TObject r) st v Hv) as Hv'.
  unfold stash_ref, bind.
  rewrite (push_ref_array_present _ _ _ _ _ Hat).
  destruct Hat as [Hr Ha]; simpl in Ha. next.
  rewrite (step_get_prop_index _ _ _ _ _ _ Ha). next.
  rewrite step_get_uint. next. rewrite step_pop. next.
  unfold allocate_slot. fold (free_head arr).
  destruct (free_head arr =? 0) eqn:Hh; next.
  - rewrite (step_get_length _ _ _ _ _ Ha). unfold ret. next.
    rewrite (step_dup _ _ _ _ _ _ Hv'). next.
    rewrite (step_put_prop_index _ _ _ _ _ _ _ Ha). next.
    by rewrite step_pop.
  - rewrite (step_get_prop_index _ _ _ _ _ _ Ha). next.
    rewrite (step_put_prop_index _ _ _ _ _ _ _ Ha). unfold ret. next.
    rewrite (step_dup _ _ _ _ _ _ Hv'). next.
    erewrite step_put_prop_index by apply lookup_insert_eq. next.
    rewrite step_pop. by rewrite insert_insert_eq.
Qed.

(** [free_ref] on a heap whose array is there. *)
Lemma free_ref_present h r arr k :
  refs_at h r arr ->
  free_ref k h = Ok (tt, set_obj r (release_slot k arr) h).
Proof.
  intros Hat. destruct h as [objs stash st]; simpl in *.
  unfold free_ref, bind.
  rewrite (push_ref_array_present _ _ _ _ _ Hat).
  destruct Hat as [Hr Ha]; simpl in Ha. next.
  rewrite (step_get_prop_index _ _ _ _ _ _ Ha). next.
  rewrite (step_put_prop_index _ _ _ _ _ _ _ Ha). next.
  unfold duk_push_uint. rewrite step_push. next.
  erewrite step_put_prop_index by apply lookup_insert_eq. next.
  rewrite step_pop. unfold release_slot. by rewrite insert_insert_eq.
Qed.

(** The first use creates the array and then proceeds as any later use. *)
Lemma push_ref_array_ensure h :
  refs_ok h -> push_ref_array h = push_ref_array (ensure_ref_array h).
Proof.
  intros Hok. destruct (push_ref_array_ok h Hok) as (r & arr & Hat & ->).
  rewrite <- (ensure_ref_array_stack h).
  destruct (ensure_ref_array h) as [objs stash st].
  by rewrite (push_ref_array_present _ _ _ _ _ Hat).
Qed.

Lemma stash_ref_ensure h idx :
  refs_ok h -> stash_ref idx h = stash_ref idx (ensure_ref_array h).
Proof. intros Hok. unfold stash_ref, bind. by rewrite push_ref_array_ensure. Qed.

Lemma free_ref_ensure h k :
  refs_ok h -> free_ref k h = free_ref k (ensure_ref_array h).
Proof. intros Hok. unfold free_ref, bind. by rewrite push_ref_array_ensure. Qed.

Lemma free_ref_ok h k :
  refs_ok h ->
  exists r arr,
    refs_at (ensure_ref_array h) r arr
    /\ free_ref k h
       = Ok (tt, set_obj r (release_slot k arr) (ensure_ref_array h)).
Proof.
  intros Hok. destruct (ensure_ref_array_refs h Hok) as (r & arr & Hat).
  exists r, arr. split; [done|]. rewrite free_ref_ensure by done.
  by apply free_ref_present.
Qed.

(** *** Reading the array after a write *)

Lemma slot_put_index_eq i v o : slot i (put_index i v o) = v.
Proof. unfold slot; simpl. by rewrite lookup_insert_eq. Qed.

Lemma slot_put_index_ne i j v o : i <> j -> slot j (put_index i v o) = slot j o.
Proof. intros. unfold slot; simpl. by rewrite lookup_insert_ne. Qed.

Lemma tval_uint_of_Z k :
  0 <= k < Double.two32 -> tval_uint (TNumber (Double.of_Z k)) = k.
Proof.
  intros [H0 H1]. destruct k as [|p|p]; [done| |lia].
  unfold Double.of_Z, tval_uint, clamp_uint, Double.trunc, cond_Zopp.
  rewrite Z.shiftl_0_r. unfold Double.two32 in *. lia.
Qed.

Lemma tval_uint_range v : 0 <= tval_uint v < Double.two32.
Proof.
  unfold Double.two32.
  destruct v as [| | |d| | | | |]; simpl; try lia.
  unfold clamp_uint, Double.two32.
  destruct d as [s|s| |s m e]; cbn [Double.trunc]; try lia.
  destruct s; lia.
Qed.

Lemma spec_allocate_eq v o :
  0 <= o_length o < Double.two32 -> allocate_slot v o = spec_allocate v o.
Proof.
  intros H. unfold allocate_slot, spec_allocate, free_head.
  by rewrite wrap_uint32_small.
Qed.

(* ===================================================================== *)
(** ** The free-list protocol                                             *)
(* ===================================================================== *)

(** C3.  Free-list slot protocol.  On an engine whose ref array (created on
    first use if need be) is [arr], with at least its slot 0 and a 32-bit
    length: [stash_ref] returns the index and leaves the array that the
    specification's Allocate describes (slot 0 read; if 0, append at the
    current length; otherwise take the index read and overwrite slot 0
    with what that slot held), with the stack as it was; [free_ref] leaves
    the array of the specification's Free (old slot 0 into the freed slot,
    then the freed index into slot 0); the index allocated is never 0;
    and an allocation that follows the freeing of a slot [K] returns
    exactly [K], stores the value there and puts back the former head. *)
Theorem free_list_protocol (h : duk_heap) (r : nat) (arr : hobject)
    (idx : Z) (v : tval) (K : Z) :
  refs_ok h ->
  refs_at (ensure_ref_array h) r arr ->
  stack_at idx (h_stack h) = Some v ->
  1 <= o_length arr < Double.two32 ->
  stash_ref idx h
  = Ok (fst (spec_allocate v arr),
        set_obj r (snd (spec_allocate v arr)) (ensure_ref_array h))
  /\ free_ref K h
     = Ok (tt, set_obj r (spec_free K arr) (ensure_ref_array h))
  /\ fst (spec_allocate v arr) <> 0
  /\ (1 <= K < Double.two32 ->
      exists arr',
        (free_ref K ;;; stash_ref idx) h
        = Ok (K, set_obj r arr' (ensure_ref_array h))
        /\ slot K arr' = v
        /\ slot 0 arr' = slot 0 arr).
Proof.
  intros Hok Hat Hv Hlen.
  assert (stack_at idx (h_stack (ensure_ref_array h)) = Some v) as Hv1
    by (by rewrite ensure_ref_array_stack).
  assert (free_ref K h
          = Ok (tt, set_obj r (spec_free K arr) (ensure_ref_array h))) as Hfree.
  { rewrite free_ref_ensure by done. by apply free_ref_present. }
  split; [|split; [done|split]].
  - rewrite stash_ref_ensure by done.
    rewrite <- spec_allocate_eq by lia. by apply stash_ref_present.
  - unfold spec_allocate.
    destruct (Z.eqb_spec (tval_uint (slot 0 arr)) 0); cbn [fst]; [lia|done].
  - intros HK. unfold bind. rewrite Hfree.
    pose proof (refs_at_set_obj _ _ _ (spec_free K arr) Hat) as Hat'.
    rewrite (stash_ref_present _ r (spec_free K arr) idx v Hat' Hv1).
    assert (free_head (spec_free K arr) = K) as Hhead.
    { unfold free_head, spec_free. rewrite slot_put_index_eq.
      apply tval_uint_of_Z. lia. }
    unfold allocate_slot. rewrite Hhead.
    destruct (Z.eqb_spec K 0) as [|HK0]; [lia|]. cbn [fst snd].
    eexists. split.
    + unfold set_obj; simpl. by rewrite insert_insert_eq.
    + split; [apply slot_put_index_eq|].
      rewrite slot_put_index_ne by done. rewrite slot_put_index_eq.
      unfold spec_free. rewrite slot_put_index_ne by done.
      apply slot_put_index_eq.
Qed.

(* ===================================================================== *)
(** ** Host operations, one step at a time                                *)
(* ===================================================================== *)

Ltac hnext :=
  cbv beta iota;
  cbn [engines counters instances with_engines with_counters with_instances
       mContext mType mPOD mString mRefCount lift
       with_mContext with_mType with_mPOD with_mString with_mRefCount
       pod_boolean pod_number pod_pointer pod_ref_array_idx].

Ltac hnext_in H :=
  cbv beta iota in H;
  unfold with_engines, with_counters, with_instances in H;
  cbn [engines counters instances with_engines with_counters with_instances
       mContext mType mPOD mString mRefCount lift
       with_mContext with_mType with_mPOD with_mString with_mRefCount
       pod_boolean pod_number pod_pointer pod_ref_array_idx] in H.

Section host_steps.
Context (eng : gmap Z duk_heap) (cnt : gmap nat Z) (inst : gmap nat DukValue).

Lemma step_load a v :
  inst !! a = Some v ->
  load a (MkHost eng cnt inst) = Ok (v, MkHost eng cnt inst).
Proof. intros H. unfold load; simpl. by rewrite H. Qed.

Lemma step_store a v :
  store a v (MkHost eng cnt inst) = Ok (tt, MkHost eng cnt (<[a := v]> inst)).
Proof. done. Qed.

Lemma step_update a v f :
  inst !! a = Some v ->
  update a f (MkHost eng cnt inst)
  = Ok (tt, MkHost eng cnt (<[a := f v]> inst)).
Proof. intros H. unfold update, bind. by rewrite (step_load _ _ H). Qed.

Lemma step_write_from this from r t f :
  inst !! from = Some r ->
  inst !! this = Some t ->
  write_from this from f (MkHost eng cnt inst)
  = Ok (tt, MkHost eng cnt (<[this := f r t]> inst)).
Proof.
  intros Hr Ht. unfold write_from, bind.
  rewrite (step_load _ _ Hr). hnext. by rewrite (step_load _ _ Ht).
Qed.

Lemma step_with_ctx {A} ctx (m : Duk A) h a h' :
  eng !! ctx = Some h ->
  m h = Ok (a, h') ->
  with_ctx ctx m (MkHost eng cnt inst)
  = Ok (a, MkHost (<[ctx := h']> eng) cnt inst).
Proof. intros He Hm. unfold with_ctx; simpl. by rewrite He, Hm. Qed.

Lemma step_new_int n :
  new_int n (MkHost eng cnt inst)
  = Ok (fresh (dom cnt), MkHost eng (<[fresh (dom cnt) := n]> cnt) inst).
Proof. done. Qed.

Lemma step_read_int l c :
  cnt !! l = Some c ->
  read_int l (MkHost eng cnt inst) = Ok (c, MkHost eng cnt inst).
Proof. intros H. unfold read_int; simpl. by rewrite H. Qed.

Lemma step_write_int l c n :
  cnt !! l = Some c ->
  write_int l n (MkHost eng cnt inst)
  = Ok (tt, MkHost eng (<[l := n]> cnt) inst).
Proof. intros H. unfold write_int; simpl. by rewrite H. Qed.

Lemma step_delete_int l c :
  cnt !! l = Some c ->
  delete_int l (MkHost eng cnt inst)
  = Ok (tt, MkHost eng (delete l cnt) inst).
Proof. intros H. unfold delete_int; simpl. by rewrite H. Qed.
End host_steps.

(** *** [release_ref_count], case by case *)
Lemma release_other eng cnt inst this v :
  inst !! this = Some v -> mType v <> OBJECT ->
  release_ref_count this (MkHost eng cnt inst) = Ok (tt, MkHost eng cnt inst).
Proof.
  intros Hv Ht. unfold release_ref_count, bind. rewrite (step_load _ _ _ _ _ Hv).
  hnext. by case_decide.
Qed.

Lemma release_sole eng cnt inst this v i h h' :
  inst !! this = Some v -> mType v = OBJECT -> mRefCount v = None ->
  mPOD v = POD_ref_array_idx i ->
  eng !! mContext v = Some h -> free_ref i h = Ok (tt, h') ->
  release_ref_count this (MkHost eng cnt inst)
  = Ok (tt, MkHost (<[mContext v := h']> eng) cnt (<[this := released v]> inst)).
Proof.
  intros Hv Ht Hrc Hp He Hf. unfold release_ref_count, bind.
  rewrite (step_load _ _ _ _ _ Hv). hnext. case_decide; [|done].
  rewrite Hrc, Hp. hnext.
  rewrite (step_with_ctx _ _ _ _ _ _ _ _ He Hf). hnext.
  rewrite (step_update _ _ _ _ _ _ Hv). f_equal. f_equal. f_equal. f_equal.
  unfold released, with_mType, with_mRefCount; simpl. by rewrite Hrc.
Qed.

Lemma release_shared eng cnt inst this v l c :
  inst !! this = Some v -> mType v = OBJECT -> mRefCount v = Some l ->
  cnt !! l = Some c -> 1 < c ->
  release_ref_count this (MkHost eng cnt inst)
  = Ok (tt, MkHost eng (<[l := c - 1]> cnt) (<[this := released v]> inst)).
Proof.
  intros Hv Ht Hrc Hc Hlt. unfold release_ref_count, bind.
  rewrite (step_load _ _ _ _ _ Hv). hnext. case_decide; [|done].
  rewrite Hrc. rewrite (step_read_int _ _ _ _ _ Hc). hnext.
  destruct (Z.ltb_spec 1 c); [|lia].
  rewrite (step_write_int _ _ _ _ _ _ Hc). hnext.
  rewrite (step_update _ _ _ _ _ _ Hv). hnext.
  erewrite step_update by apply lookup_insert_eq. by rewrite insert_insert_eq.
Qed.

Lemma release_last eng cnt inst this v l c i h h' :
  inst !! this = Some v -> mType v = OBJECT -> mRefCount v = Some l ->
  cnt !! l = Some c -> c <= 1 ->
  mPOD v = POD_ref_array_idx i ->
  eng !! mContext v = Some h -> free_ref i h = Ok (tt, h') ->
  release_ref_count this (MkHost eng cnt inst)
  = Ok (tt, MkHost (<[mContext v := h']> eng) (delete l cnt)
                   (<[this := released v]> inst)).
Proof.
  intros Hv Ht Hrc Hc Hle Hp He Hf. unfold release_ref_count, bind.
  rewrite (step_load _ _ _ _ _ Hv). hnext. case_decide; [|done].
  rewrite Hrc. rewrite (step_read_int _ _ _ _ _ Hc). hnext.
  destruct (Z.ltb_spec 1 c); [lia|].
  rewrite Hp. hnext.
  rewrite (step_with_ctx _ _ _ _ _ _ _ _ He Hf). hnext.
  rewrite (step_delete_int _ _ _ _ _ Hc). hnext.
  rewrite (step_update _ _ _ _ _ _ Hv). hnext.
  erewrite step_update by apply lookup_insert_eq. by rewrite insert_insert_eq.
Qed.

Lemma with_fields_id (r : DukValue) :
  with_mContext (mContext r) r = r /\ with_mType (mType r) r = r
  /\ with_mPOD (mPOD r) r = r /\ with_mString (mString r) r = r
  /\ with_mRefCount (mRefCount r) r = r.
Proof. by destruct r. Qed.

(** The copying part of [operator=], entered with [this] released. *)
Lemma assign_plain s0 eng cnt inst this rhs t r :
  release_ref_count this s0 = Ok (tt, MkHost eng cnt inst) ->
  inst !! this = Some t -> inst !! rhs = Some r ->
  mType r <> OBJECT ->
  assign this rhs s0 = Ok (tt, MkHost eng cnt (<[this := copied r t]> inst)).
Proof.
  intros Hrel Ht Hr Hty. unfold assign, bind. rewrite Hrel. hnext.
  destruct (decide (this = rhs)) as [->|Hne].
  - assert (t = r) as -> by congruence.
    destruct (with_fields_id r) as (E1 & E2 & E3 & E4 & E5).
    rewrite (step_write_from _ _ _ _ _ _ _ _ Hr Hr). hnext. rewrite E1.
    rewrite (insert_id _ _ _ Hr).
    rewrite (step_write_from _ _ _ _ _ _ _ _ Hr Hr). hnext. rewrite E2.
    rewrite (insert_id _ _ _ Hr).
    rewrite (step_write_from _ _ _ _ _ _ _ _ Hr Hr). hnext. rewrite E3.
    rewrite (insert_id _ _ _ Hr).
    rewrite (step_load _ _ _ _ _ Hr). hnext.
    assert (copied r r = r) as ->.
    { unfold copied. destruct r; simpl. by case_decide. }
    rewrite (insert_id _ _ _ Hr).
    case_decide.
    + rewrite (step_write_from _ _ _ _ _ _ _ _ Hr Hr). hnext. rewrite E4.
      rewrite (insert_id _ _ _ Hr). rewrite (step_load _ _ _ _ _ Hr). hnext.
      by case_decide.
    + unfold ret. hnext. rewrite (step_load _ _ _ _ _ Hr). hnext.
      by case_decide.
  - rewrite (step_write_from _ _ _ _ _ _ _ _ Hr Ht). hnext.
    erewrite step_write_from;
      [|by rewrite lookup_insert_ne by done|by apply lookup_insert_eq]. hnext.
    rewrite insert_insert_eq.
    erewrite step_write_from;
      [|by rewrite lookup_insert_ne by done|by apply lookup_insert_eq]. hnext.
    rewrite insert_insert_eq.
    erewrite step_load by apply lookup_insert_eq. hnext.
    unfold copied. case_decide.
    + erewrite step_write_from;
        [|by rewrite lookup_insert_ne by done|by apply lookup_insert_eq]. hnext.
      rewrite insert_insert_eq.
      erewrite step_load by apply lookup_insert_eq. hnext.
      by case_decide.
    + unfold ret. hnext.
      erewrite step_load by apply lookup_insert_eq. hnext.
      by case_decide.
Qed.

Lemma assign_object_first s0 eng cnt inst this rhs t r :
  release_ref_count this s0 = Ok (tt, MkHost eng cnt inst) ->
  inst !! this = Some t -> inst !! rhs = Some r -> this <> rhs ->
  mType r = OBJECT -> mRefCount r = None ->
  assign this rhs s0
  = Ok (tt, MkHost eng (<[fresh (dom cnt) := 2]> cnt)
              (<[this := sharing r t (fresh (dom cnt))]>
                 (<[rhs := with_mRefCount (Some (fresh (dom cnt))) r]> inst))).
Proof.
  intros Hrel Ht Hr Hne Hty Hrc. unfold assign, bind. rewrite Hrel. hnext.
  rewrite (step_write_from _ _ _ _ _ _ _ _ Hr Ht). hnext.
  erewrite step_write_from;
    [|by rewrite lookup_insert_ne by done|by apply lookup_insert_eq]. hnext.
  rewrite insert_insert_eq.
  erewrite step_write_from;
    [|by rewrite lookup_insert_ne by done|by apply lookup_insert_eq]. hnext.
  rewrite insert_insert_eq.
  erewrite step_load by apply lookup_insert_eq. hnext.
  rewrite Hty. case_decide; [done|]. unfold ret. hnext.
  erewrite step_load by apply lookup_insert_eq. hnext.
  case_decide; [|done].
  erewrite step_load by (by rewrite lookup_insert_ne by done). hnext.
  rewrite Hrc. rewrite step_new_int. hnext.
  erewrite step_update by (by rewrite lookup_insert_ne by done). hnext.
  erewrite step_write_from;
    [|by apply lookup_insert_eq
     |by rewrite lookup_insert_ne by done; apply lookup_insert_eq]. hnext.
  rewrite (insert_insert_ne _ rhs this) by done. by rewrite insert_insert_eq.
Qed.

Lemma assign_object_again s0 eng cnt inst this rhs t r l c :
  release_ref_count this s0 = Ok (tt, MkHost eng cnt inst) ->
  inst !! this = Some t -> inst !! rhs = Some r -> this <> rhs ->
  mType r = OBJECT -> mRefCount r = Some l ->
  cnt !! l = Some c -> - Double.two31 <= c + 1 < Double.two31 ->
  assign this rhs s0
  = Ok (tt, MkHost eng (<[l := c + 1]> cnt) (<[this := sharing r t l]> inst)).
Proof.
  intros Hrel Ht Hr Hne Hty Hrc Hc Hov. unfold assign, bind. rewrite Hrel. hnext.
  rewrite (step_write_from _ _ _ _ _ _ _ _ Hr Ht). hnext.
  erewrite step_write_from;
    [|by rewrite lookup_insert_ne by done|by apply lookup_insert_eq]. hnext.
  rewrite insert_insert_eq.
  erewrite step_write_from;
    [|by rewrite lookup_insert_ne by done|by apply lookup_insert_eq]. hnext.
  rewrite insert_insert_eq.
  erewrite step_load by apply lookup_insert_eq. hnext.
  rewrite Hty. case_decide; [done|]. unfold ret. hnext.
  erewrite step_load by apply lookup_insert_eq. hnext.
  case_decide; [|done].
  erewrite step_load by (by rewrite lookup_insert_ne by done). hnext.
  rewrite Hrc.
  erewrite step_write_from;
    [|by rewrite lookup_insert_ne by done|by apply lookup_insert_eq]. hnext.
  rewrite insert_insert_eq.
  erewrite step_load by apply lookup_insert_eq. hnext. rewrite Hrc.
  rewrite (step_read_int _ _ _ _ _ Hc). hnext.
  unfold int_add.
  destruct (Z.leb_spec (- Double.two31) (c + 1)); [|lia].
  destruct (Z.ltb_spec (c + 1) Double.two31); [|lia]. cbn [andb]. hnext.
  by rewrite (step_write_int _ _ _ _ _ _ Hc).
Qed.

(** *** The constructors and the destructor *)

Lemma release_default eng cnt inst this :
  release_ref_count this (MkHost eng cnt (<[this := default_value]> inst))
  = Ok (tt, MkHost eng cnt (<[this := default_value]> inst)).
Proof. apply (release_other _ _ _ _ default_value); [apply lookup_insert_eq|done]. Qed.

Lemma copy_construct_plain eng cnt inst this copy r :
  inst !! copy = Some r -> this <> copy -> mType r <> OBJECT ->
  copy_construct this copy (MkHost eng cnt inst)
  = Ok (tt, MkHost eng cnt (<[this := copied r default_value]> inst)).
Proof.
  intros Hr Hne Hty. unfold copy_construct, bind. rewrite step_store. hnext.
  erewrite assign_plain;
    [|apply release_default|apply lookup_insert_eq
     |by rewrite lookup_insert_ne by done|done].
  by rewrite insert_insert_eq.
Qed.

Lemma copy_construct_first eng cnt inst this copy r :
  inst !! copy = Some r -> this <> copy ->
  mType r = OBJECT -> mRefCount r = None ->
  copy_construct this copy (MkHost eng cnt inst)
  = Ok (tt, MkHost eng (<[fresh (dom cnt) := 2]> cnt)
              (<[this := sharing r default_value (fresh (dom cnt))]>
                 (<[copy := with_mRefCount (Some (fresh (dom cnt))) r]> inst))).
Proof.
  intros Hr Hne Hty Hrc. unfold copy_construct, bind. rewrite step_store. hnext.
  erewrite assign_object_first;
    [|apply release_default|apply lookup_insert_eq
     |by rewrite lookup_insert_ne by done|done|done|done].
  rewrite (insert_insert_ne _ copy this) by done. by rewrite insert_insert_eq.
Qed.

Lemma copy_construct_again eng cnt inst this copy r l c :
  inst !! copy = Some r -> this <> copy ->
  mType r = OBJECT -> mRefCount r = Some l ->
  cnt !! l = Some c -> - Double.two31 <= c + 1 < Double.two31 ->
  copy_construct this copy (MkHost eng cnt inst)
  = Ok (tt, MkHost eng (<[l := c + 1]> cnt)
              (<[this := sharing r default_value l]> inst)).
Proof.
  intros Hr Hne Hty Hrc Hc Hov. unfold copy_construct, bind.
  rewrite step_store. hnext.
  erewrite assign_object_again;
    [|apply release_default|apply lookup_insert_eq
     |by rewrite lookup_insert_ne by done|done|done|done|done|done].
  by rewrite insert_insert_eq.
Qed.

Lemma move_construct_spec eng cnt inst this move A :
  inst !! move = Some A -> this <> move ->
  move_construct this move (MkHost eng cnt inst)
  = Ok (tt, MkHost eng cnt
              (<[move := moved_from A]> (<[this := moved A]> inst))).
Proof.
  intros HA Hne. unfold move_construct, bind. rewrite step_store. hnext.
  erewrite step_write_from;
    [|by rewrite lookup_insert_ne by done|by apply lookup_insert_eq]. hnext.
  rewrite insert_insert_eq.
  erewrite step_write_from;
    [|by rewrite lookup_insert_ne by done|by apply lookup_insert_eq]. hnext.
  rewrite insert_insert_eq.
  erewrite step_write_from;
    [|by rewrite lookup_insert_ne by done|by apply lookup_insert_eq]. hnext.
  rewrite insert_insert_eq.
  erewrite step_write_from;
    [|by rewrite lookup_insert_ne by done|by apply lookup_insert_eq]. hnext.
  rewrite insert_insert_eq.
  erewrite step_load by apply lookup_insert_eq. hnext.
  unfold moved, moved_from. case_decide.
  - erewrite step_write_from;
      [|by rewrite lookup_insert_ne by done|by apply lookup_insert_eq]. hnext.
    rewrite insert_insert_eq.
    erewrite step_update by (by rewrite lookup_insert_ne by done). hnext.
    erewrite step_update by apply lookup_insert_eq. hnext.
    rewrite insert_insert_eq.
    erewrite step_update by apply lookup_insert_eq. hnext.
    by rewrite insert_insert_eq.
  - unfold ret. hnext.
    erewrite step_update by (by rewrite lookup_insert_ne by done). hnext.
    erewrite step_update by apply lookup_insert_eq. hnext.
    by rewrite insert_insert_eq.
Qed.

Lemma destroy_unfold this s s1 :
  release_ref_count this s = Ok (tt, s1) ->
  destroy this s = Ok (tt, with_instances (delete this (instances s1)) s1).
Proof. intros H. unfold destroy, bind. by rewrite H. Qed.

(* ===================================================================== *)
(** ** Move                                                               *)
(* ===================================================================== *)

(** C5.  Move semantics.  Move-constructing [B] at [this] from the
    instance [A] at [move] succeeds; [B] has the engine handle, the kind,
    the payload, the text and the counter pointer of [A]; no counter and no
    engine is touched; [A] is left with kind Undefined and no counter; and
    destroying [A] afterwards succeeds, releases nothing (engines and
    counters are as before the move) and leaves [B] as it is. *)
Theorem move_leaves_source_empty (eng : gmap Z duk_heap) (cnt : gmap nat Z)
    (inst : gmap nat DukValue) (this move : nat) (A : DukValue) :
  inst !! move = Some A ->
  this <> move ->
  exists s' B A' s'',
    move_construct this move (MkHost eng cnt inst) = Ok (tt, s')
    /\ instances s' !! this = Some B
    /\ mContext B = mContext A /\ mType B = mType A /\ mPOD B = mPOD A
    /\ text B = text A /\ mRefCount B = mRefCount A
    /\ counters s' = cnt /\ engines s' = eng
    /\ instances s' !! move = Some A'
    /\ mType A' = UNDEFINED /\ mRefCount A' = None
    /\ destroy move s' = Ok (tt, s'')
    /\ engines s'' = eng /\ counters s'' = cnt
    /\ instances s'' !! this = Some B
    /\ instances s'' !! move = None.
Proof.
  intros HA Hne.
  set (inst' := <[move := moved_from A]> (<[this := moved A]> inst)).
  exists (MkHost eng cnt inst'), (moved A), (moved_from A),
         (MkHost eng cnt (delete move inst')).
  split; [by apply move_construct_spec|].
  split; [by unfold inst'; simpl; rewrite lookup_insert_ne by done;
             apply lookup_insert_eq|].
  do 3 (split; [done|]).
  split; [by unfold text, moved; simpl; case_decide|].
  do 3 (split; [done|]).
  split; [apply lookup_insert_eq|].
  do 2 (split; [done|]).
  split.
  { apply (destroy_unfold move _ (MkHost eng cnt inst')).
    apply (release_other _ _ _ _ (moved_from A)); [apply lookup_insert_eq|done]. }
  do 2 (split; [done|]). simpl. split.
  - rewrite lookup_delete_ne by done. unfold inst'.
    rewrite lookup_insert_ne by done. apply lookup_insert_eq.
  - apply lookup_delete_eq.
Qed.

(* ===================================================================== *)
(** ** Self-assignment                                                    *)
(* ===================================================================== *)

Lemma copied_self (t : DukValue) : copied t t = t.
Proof. unfold copied. destruct t; simpl. by case_decide. Qed.

(** [v = v], once the release has run and left a non-Object, changes
    nothing more. *)
Lemma assign_self s0 eng cnt inst a t :
  release_ref_count a s0 = Ok (tt, MkHost eng cnt inst) ->
  inst !! a = Some t -> mType t <> OBJECT ->
  assign a a s0 = Ok (tt, MkHost eng cnt inst).
Proof.
  intros Hrel Ht Hty. erewrite assign_plain by done.
  rewrite copied_self. by rewrite insert_id.
Qed.

(** C10.  Self-assignment.  For the instance [v] at address [a]:
    - if [v] is not an Object, [v = v] succeeds and leaves the whole state
      as it is;
    - if [v] is an Object without a counter (sole owner), [v = v] frees its
      slot in the ref array and leaves [v] released, with kind Undefined;
    - if [v] is an Object whose counter is above 1, [v = v] decrements the
      counter and leaves [v] released, the engine untouched;
    - if [v] is an Object whose counter is 1, [v = v] frees its slot,
      deletes the counter and leaves [v] released. *)
Theorem self_assignment (eng : gmap Z duk_heap) (cnt : gmap nat Z)
    (inst : gmap nat DukValue) (a : nat) (v : DukValue)
    (i : Z) (h : duk_heap) (r : nat) (arr : hobject) (l : nat) (c : Z) :
  inst !! a = Some v ->
  mType (released v) = UNDEFINED
  /\ (mType v <> OBJECT ->
      assign a a (MkHost eng cnt inst) = Ok (tt, MkHost eng cnt inst))
  /\ (mType v = OBJECT -> mRefCount v = None ->
      mPOD v = POD_ref_array_idx i ->
      eng !! mContext v = Some h -> refs_at h r arr ->
      assign a a (MkHost eng cnt inst)
      = Ok (tt, MkHost (<[mContext v := set_obj r (spec_free i arr) h]> eng)
                       cnt (<[a := released v]> inst)))
  /\ (mType v = OBJECT -> mRefCount v = Some l ->
      cnt !! l = Some c -> 1 < c ->
      assign a a (MkHost eng cnt inst)
      = Ok (tt, MkHost eng (<[l := c - 1]> cnt) (<[a := released v]> inst)))
  /\ (mType v = OBJECT -> mRefCount v = Some l ->
      cnt !! l = Some c -> c <= 1 ->
      mPOD v = POD_ref_array_idx i ->
      eng !! mContext v = Some h -> refs_at h r arr ->
      assign a a (MkHost eng cnt inst)
      = Ok (tt, MkHost (<[mContext v := set_obj r (spec_free i arr) h]> eng)
                       (delete l cnt) (<[a := released v]> inst))).
Proof.
  intros Hv. split; [done|]. split; [|split; [|split]].
  - intros Hty. eapply assign_self; [|done|done].
    by apply (release_other _ _ _ _ v).
  - intros Hty Hrc Hp He Hat.
    eapply assign_self; [|apply lookup_insert_eq|done].
    eapply release_sole; try done. by apply free_ref_present.
  - intros Hty Hrc Hc Hlt.
    eapply assign_self; [|apply lookup_insert_eq|done].
    by eapply release_shared.
  - intros Hty Hrc Hc Hle Hp He Hat.
    eapply assign_self; [|apply lookup_insert_eq|done].
    eapply release_last; try done. by apply free_ref_present.
Qed.

(* ===================================================================== *)
(** ** Capture                                                            *)
(* ===================================================================== *)

Lemma take_length {A} (l : list A) : take (Z.to_nat (Z.of_nat (length l))) l = l.
Proof. rewrite Nat2Z.id. apply firstn_all. Qed.

Lemma step_get_type idx h :
  duk_get_type idx h = Ok (reported_type idx h, h).
Proof. done. Qed.

Lemma step_check_type_mask idx mask h :
  duk_check_type_mask idx mask h
  = if accepts mask (reported_type idx h) then Ok (true, h)
    else if negb (Z.land mask DUK_TYPE_MASK_THROW =? 0)
         then Fail EngineError else Ok (false, h).
Proof.
  unfold duk_check_type_mask, bind. rewrite step_get_type. cbv beta iota.
  unfold accepts.
  destruct (negb (Z.land (type_mask (reported_type idx h)) mask =? 0)); [done|].
  by destruct (negb (Z.land mask DUK_TYPE_MASK_THROW =? 0)).
Qed.

Lemma reported_type_at idx h v :
  stack_at idx (h_stack h) = Some v -> reported_type idx h = type_of v.
Proof. unfold reported_type. by intros ->. Qed.

(** A type outside the mask stops the capture. *)
Lemma copy_from_stack_in_rejected ctx idx mask h :
  accepts mask (reported_type idx h) = false ->
  copy_from_stack_in ctx idx mask h
  = Fail (if negb (Z.land mask DUK_TYPE_MASK_THROW =? 0)
          then EngineError else AssertionFailure).
Proof.
  intros Hacc. unfold copy_from_stack_in, bind.
  rewrite step_check_type_mask, Hacc.
  by destruct (negb (Z.land mask DUK_TYPE_MASK_THROW =? 0)).
Qed.

(** Capturing anything but an object reads the value and leaves the
    engine alone. *)
Lemma copy_from_stack_in_value ctx idx mask h v :
  stack_at idx (h_stack h) = Some v ->
  accepts mask (type_of v) = true ->
  type_of v <> OBJECT ->
  copy_from_stack_in ctx idx mask h = Ok (captured ctx v 0, h).
Proof.
  intros Hv Hacc Hobj. unfold copy_from_stack_in, bind.
  rewrite step_check_type_mask, (reported_type_at _ _ _ Hv), Hacc.
  cbv beta iota. cbn [negb]. rewrite step_get_type. cbv beta iota.
  rewrite (reported_type_at _ _ _ Hv).
  destruct v; try done; cbv beta iota delta [type_of];
    unfold duk_require_boolean, duk_require_number, duk_require_pointer,
      duk_get_lstring, ret; rewrite ?Hv; try done.
  cbn [fst snd string_assign captured]. unfold moved; simpl.
  by rewrite take_length.
Qed.

(** Capturing an object allocates it a slot. *)
Lemma copy_from_stack_in_object ctx idx mask h o r arr :
  stack_at idx (h_stack h) = Some (TObject o) ->
  accepts mask OBJECT = true ->
  refs_at h r arr ->
  copy_from_stack_in ctx idx mask h
  = Ok (captured ctx (TObject o) (fst (allocate_slot (TObject o) arr)),
        set_obj r (snd (allocate_slot (TObject o) arr)) h).
Proof.
  intros Hv Hacc Hat. unfold copy_from_stack_in, bind.
  rewrite step_check_type_mask, (reported_type_at _ _ _ Hv).
  cbv beta iota delta [type_of]. rewrite Hacc.
  cbv beta iota. cbn [negb]. rewrite step_get_type. cbv beta iota.
  rewrite (reported_type_at _ _ _ Hv). cbv beta iota delta [type_of].
  by rewrite (stash_ref_present _ _ _ _ _ Hat Hv).
Qed.

Lemma copy_from_stack_in_ensure ctx idx mask h :
  refs_ok h ->
  reported_type idx h = OBJECT ->
  copy_from_stack_in ctx idx mask h
  = copy_from_stack_in ctx idx mask (ensure_ref_array h).
Proof.
  intros Hok Hty.
  assert (reported_type idx (ensure_ref_array h) = OBJECT) as Hty'.
  { unfold reported_type in *. by rewrite ensure_ref_array_stack. }
  unfold copy_from_stack_in, bind.
  rewrite !step_check_type_mask, Hty, Hty'.
  destruct (accepts mask OBJECT); cbv beta iota.
  - cbn [negb]. rewrite !step_get_type. cbv beta iota. rewrite Hty, Hty'.
    by rewrite stash_ref_ensure.
  - by destruct (negb (Z.land mask DUK_TYPE_MASK_THROW =? 0)).
Qed.

(* ===================================================================== *)
(** ** Push                                                               *)
(* ===================================================================== *)

(** Pushing an Object looks its slot up and leaves the array as it is. *)
Lemma push_in_object v i h r arr :
  mType v = OBJECT -> mPOD v = POD_ref_array_idx i ->
  refs_at h r arr ->
  push_in v h = Ok (tt, set_stack (slot i arr :: h_stack h) h).
Proof.
  intros Hty Hp Hat. unfold push_in. rewrite Hty, Hp. unfold bind.
  destruct h as [objs stash st].
  rewrite (push_ref_array_present _ _ _ _ _ Hat). next. cbn [lift pod_ref_array_idx].
  destruct Hat as [_ Ha]; simpl in Ha.
  rewrite (step_get_prop_index _ _ _ _ _ _ Ha). next.
  by rewrite step_remove_under.
Qed.

(** Pushing what was captured from a value other than an object gives the
    value back. *)
Lemma push_in_captured ctx v k h :
  supported (type_of v) = true -> type_of v <> OBJECT ->
  push_in (captured ctx v k) h = Ok (tt, set_stack (v :: h_stack h) h).
Proof.
  intros Hs Ho. destruct v; try done; unfold push_in, captured;
    cbn [mType mPOD mString]; try done.
  unfold duk_push_lstring. by rewrite take_length.
Qed.

(* ===================================================================== *)
(** ** The life of a shared reference                                     *)
(* ===================================================================== *)

Lemma fresh_counter_free (cnt : gmap nat Z) : cnt !! fresh (dom cnt) = None.
Proof. apply not_elem_of_dom, is_fresh. Qed.

Lemma spec_allocate_nonzero v arr :
  1 <= o_length arr -> fst (spec_allocate v arr) <> 0.
Proof.
  intros Hlen. unfold spec_allocate.
  destruct (Z.eqb_spec (tval_uint (slot 0 arr)) 0); cbn [fst]; [lia|done].
Qed.

Lemma spec_allocate_range v arr :
  0 <= o_length arr < Double.two32 ->
  0 <= fst (spec_allocate v arr) < Double.two32.
Proof.
  intros Hlen. unfold spec_allocate.
  destruct (Z.eqb_spec (tval_uint (slot 0 arr)) 0); cbn [fst]; [lia|].
  apply tval_uint_range.
Qed.

Lemma spec_allocate_slot v arr :
  slot (fst (spec_allocate v arr)) (snd (spec_allocate v arr)) = v.
Proof.
  unfold spec_allocate.
  destruct (tval_uint (slot 0 arr) =? 0); cbn [fst snd]; apply slot_put_index_eq.
Qed.

(** What the host state is after [A] was captured at [a], copied to [b],
    the copy copied to [c], and [a] and [b] destroyed: only [c] is left
    of the three, holding the counter, now at 1. *)
Lemma copies_then_two_destroyed eng cnt inst a b c A :
  a <> b -> a <> c -> b <> c ->
  mType A = OBJECT -> mRefCount A = None ->
  let l := fresh (dom cnt) in
  (store a A ;;; copy_construct b a ;;; copy_construct c b ;;;
   destroy a ;;; destroy b) (MkHost eng cnt inst)
  = Ok (tt, MkHost eng (<[l := 1]> cnt)
              (<[c := MkDukValue (mContext A) OBJECT (mPOD A) [] (Some l)]>
                 (delete b (delete a inst)))).
Proof.
  intros Hab Hac Hbc Hty Hrc l. unfold bind at 1. rewrite step_store. hnext.
  unfold bind at 1.
  erewrite copy_construct_first; [|apply lookup_insert_eq|done|done|done].
  fold l. hnext. rewrite insert_insert_eq. unfold bind at 1.
  erewrite (copy_construct_again _ _ _ c b _ l 2);
    [|apply lookup_insert_eq|done|done|done|apply lookup_insert_eq
     |unfold Double.two31; lia].
  hnext. rewrite insert_insert_eq. unfold bind at 1.
  erewrite destroy_unfold;
    [|eapply (release_shared _ _ _ a _ l 3);
      [by rewrite !lookup_insert_ne by done; apply lookup_insert_eq
      |done|done|apply lookup_insert_eq|lia]].
  hnext. rewrite insert_insert_eq.
  erewrite destroy_unfold;
    [|eapply (release_shared _ _ _ b _ l 2);
      [by rewrite lookup_delete_ne by done;
          rewrite lookup_insert_ne by done;
          rewrite lookup_insert_ne by done; apply lookup_insert_eq
      |done|done|apply lookup_insert_eq|lia]].
  hnext. rewrite insert_insert_eq.
  apply (f_equal (fun i => Ok (tt, MkHost eng (<[l := 1]> cnt) i))).
  apply map_eq. intros k.
  destruct (decide (k = b)) as [->|Hkb].
  { rewrite lookup_delete_eq. rewrite lookup_insert_ne by done.
    by rewrite lookup_delete_eq. }
  rewrite lookup_delete_ne by done. rewrite lookup_insert_ne by done.
  destruct (decide (k = a)) as [->|Hka].
  { rewrite lookup_delete_eq. rewrite lookup_insert_ne by done.
    rewrite lookup_delete_ne by done. by rewrite lookup_delete_eq. }
  rewrite lookup_delete_ne by done. rewrite lookup_insert_ne by done.
  destruct (decide (k = c)) as [->|Hkc].
  { by rewrite !lookup_insert_eq. }
  rewrite !lookup_insert_ne by done.
  by rewrite !lookup_delete_ne by done.
Qed.

(** C1.  Shared-ownership lifecycle.  Let the stack of engine [ctx] hold
    an object at [idx], the acceptance mask admit objects, and the ref
    array (created on first use if need be) have its slot 0 and a 32-bit
    length.  Then capturing succeeds and gives an Object variant [A] with a
    slot index [K], not 0.  With [A] placed at [a], [B = copy(A)] at [b]
    and [C = copy(B)] at [c], destroying [A] and then [B] succeeds and
    leaves every engine exactly as the capture left it: slot [K] of the ref
    array still holds the object, and pushing [C] puts that object on top
    of the stack.  Destroying [C] then succeeds, frees the slot ([K] is the
    head of the free list), removes the counter and leaves the stack as
    it was at the start, and the next allocation, of whatever value,
    returns exactly [K]. *)
Theorem shared_ownership_lifecycle (eng : gmap Z duk_heap) (cnt : gmap nat Z)
    (inst : gmap nat DukValue) (ctx : Z) (h : duk_heap) (r : nat)
    (arr : hobject) (idx mask : Z) (o : nat) (a b c : nat) :
  eng !! ctx = Some h ->
  refs_ok h ->
  refs_at (ensure_ref_array h) r arr ->
  1 <= o_length arr < Double.two32 ->
  stack_at idx (h_stack h) = Some (TObject o) ->
  accepts mask OBJECT = true ->
  a <> b -> a <> c -> b <> c ->
  exists A K s1 h1 arr1 s2 C s3 h3 arr3,
    copy_from_stack ctx idx mask (MkHost eng cnt inst) = Ok (A, s1)
    /\ mType A = OBJECT /\ mPOD A = POD_ref_array_idx K /\ K <> 0
    /\ (store a A ;;; copy_construct b a ;;; copy_construct c b ;;;
        destroy a ;;; destroy b) s1 = Ok (tt, s2)
    /\ engines s2 = engines s1
    /\ engines s2 !! ctx = Some h1
    /\ refs_at h1 r arr1 /\ slot K arr1 = TObject o
    /\ instances s2 !! c = Some C
    /\ instances s2 !! a = None /\ instances s2 !! b = None
    /\ push C s2
       = Ok (tt, with_engines
                   (<[ctx := set_stack (TObject o :: h_stack h1) h1]> (engines s2))
                   s2)
    /\ destroy c s2 = Ok (tt, s3)
    /\ counters s3 = cnt /\ instances s3 !! c = None
    /\ engines s3 !! ctx = Some h3
    /\ h_stack h3 = h_stack h
    /\ refs_at h3 r arr3 /\ free_head arr3 = K
    /\ forall idx' v', stack_at idx' (h_stack h3) = Some v' ->
         exists h4, stash_ref idx' h3 = Ok (K, h4).
Proof.
  intros He Hok Hat Hlen Hv Hacc Hab Hac Hbc.
  set (K := fst (spec_allocate (TObject o) arr)).
  set (arr1 := snd (spec_allocate (TObject o) arr)).
  set (h1 := set_obj r arr1 (ensure_ref_array h)).
  set (A := captured ctx (TObject o) K).
  set (l := fresh (dom cnt)).
  set (C := MkDukValue ctx OBJECT (POD_ref_array_idx K) [] (Some l)).
  set (eng1 := <[ctx := h1]> eng).
  set (inst2 := <[c := C]> (delete b (delete a inst))).
  set (arr3 := spec_free K arr1).
  set (h3 := set_obj r arr3 h1).
  assert (refs_at h1 r arr1) as Hat1 by (by eapply refs_at_set_obj).
  assert (refs_at h3 r arr3) as Hat3 by (by eapply refs_at_set_obj).
  assert (K <> 0) as HK0 by (apply spec_allocate_nonzero; lia).
  assert (0 <= K < Double.two32) as HKr by (apply spec_allocate_range; lia).
  assert (eng1 !! ctx = Some h1) as He1 by apply lookup_insert_eq.
  exists A, K, (MkHost eng1 cnt inst), h1, arr1,
         (MkHost eng1 (<[l := 1]> cnt) inst2), C,
         (MkHost (<[ctx := h3]> eng1) cnt (delete c inst2)), h3, arr3.
  split.
  { unfold copy_from_stack. eapply step_with_ctx; [done|].
    rewrite copy_from_stack_in_ensure;
      [|done|by rewrite (reported_type_at _ _ _ Hv)].
    erewrite copy_from_stack_in_object;
      [|by rewrite ensure_ref_array_stack|done|done].
    by rewrite spec_allocate_eq by lia. }
  do 3 (split; [done|]).
  split; [by apply copies_then_two_destroyed|].
  split; [done|]. split; [done|]. split; [done|].
  split; [apply spec_allocate_slot|].
  split; [apply lookup_insert_eq|].
  split.
  { cbn [instances]. unfold inst2. rewrite lookup_insert_ne by done.
    rewrite lookup_delete_ne by done. apply lookup_delete_eq. }
  split.
  { cbn [instances]. unfold inst2. rewrite lookup_insert_ne by done.
    apply lookup_delete_eq. }
  split.
  { unfold push. eapply step_with_ctx; [done|].
    erewrite push_in_object by done.
    by replace (slot K arr1) with (TObject o)
      by (symmetry; apply spec_allocate_slot). }
  assert (free_head arr3 = K) as Hhead.
  { unfold free_head, arr3, spec_free. rewrite slot_put_index_eq.
    by apply tval_uint_of_Z. }
  split.
  { erewrite destroy_unfold.
    2:{ eapply (release_last _ _ _ c C l 1 K h1);
          [apply lookup_insert_eq|done|done|apply lookup_insert_eq|lia
          |done|done|exact (free_ref_present _ _ _ K Hat1)]. }
    hnext. rewrite !delete_insert_eq.
    by rewrite (delete_id cnt) by apply fresh_counter_free. }
  split; [done|]. split; [apply lookup_delete_eq|].
  split; [apply lookup_insert_eq|].
  split; [by cbn [h3 h1 set_obj h_stack]; rewrite ensure_ref_array_stack|].
  split; [done|]. split; [done|].
  intros idx' v' Hv'. eexists.
  rewrite (stash_ref_present _ _ _ _ _ Hat3 Hv').
  unfold allocate_slot. rewrite Hhead.
  destruct (Z.eqb_spec K 0); [done|]. done.
Qed.

(* ===================================================================== *)
(** ** The reference-count invariant                                      *)
(* ===================================================================== *)

Lemma sharers_lookup l inst a :
  sharers l inst !! a
  = match inst !! a with
    | Some v => if decide (mRefCount v = Some l) then Some v else None
    | None => None
    end.
Proof.
  unfold sharers. destruct (inst !! a) as [v|] eqn:Ha.
  - case_decide.
    + by apply map_lookup_filter_Some.
    + apply map_lookup_filter_None. right. intros x Hx. by simplify_eq.
  - apply map_lookup_filter_None. by left.
Qed.

Lemma sharers_delete l a inst :
  (size (sharers l (delete a inst)) + holds l (inst !! a)
   = size (sharers l inst))%nat.
Proof.
  unfold sharers at 1. rewrite map_filter_delete. fold (sharers l inst).
  rewrite map_size_delete, sharers_lookup. unfold holds.
  destruct (inst !! a) as [v|] eqn:Ha; simpl; [|lia].
  case_decide; simpl; [|lia].
  assert (size (sharers l inst) <> 0%nat); [|lia].
  apply (map_size_ne_0_lookup_2 _ a). rewrite sharers_lookup, Ha.
  by case_decide.
Qed.

Lemma sharers_insert l a v' inst :
  (size (sharers l (<[a := v']> inst)) + holds l (inst !! a)
   = size (sharers l inst) + holds l (Some v'))%nat.
Proof.
  rewrite <- (sharers_delete l a inst).
  rewrite <- (insert_delete_eq inst a v').
  assert (sharers l (delete a inst) !! a = None) as Hnone.
  { by rewrite sharers_lookup, lookup_delete_eq. }
  unfold sharers at 1. rewrite map_filter_insert. cbn [snd holds].
  case_decide.
  - fold (sharers l (delete a inst)). rewrite map_size_insert, Hnone. lia.
  - rewrite delete_delete_eq. fold (sharers l (delete a inst)). lia.
Qed.

Lemma counted_from_facts least s :
  1 <= least -> counted_from least s <-> counted_facts least s.
Proof.
  intros Hl. unfold counted_from. rewrite !map_Forall_lookup. split.
  - intros (H1 & H2 & H3 & H4). split.
    + done.
    + intros l. destruct (counters s !! l) as [c|] eqn:Hc; simpl.
      * by destruct (H2 _ _ Hc) as [-> _].
      * destruct (decide (size (sharers l (instances s)) = 0%nat)) as [->|Hne];
          [done|].
        apply map_size_ne_0_lookup_1 in Hne as (a & v & Ha).
        rewrite sharers_lookup in Ha.
        destruct (instances s !! a) as [v'|] eqn:Hv; [|done].
        case_decide as Hrc; [|done]. specialize (H3 _ _ Hv). rewrite Hrc in H3.
        rewrite Hc in H3. by destruct H3.
    + intros l c Hc. by destruct (H2 _ _ Hc).
    + intros a b va vb l Ha Hb Hra Hrb.
      specialize (H4 _ _ Ha). rewrite map_Forall_lookup in H4.
      apply (H4 _ _ Hb); [by rewrite Hra|congruence].
  - intros [H1 H2 H3 H4]. split; [done|]. split; [|split].
    + intros l c Hc. split; [|by eapply H3].
      specialize (H2 l). rewrite Hc in H2. simpl in H2. lia.
    + intros a v Hv. destruct (mRefCount v) as [l|] eqn:Hrc; [|done].
      specialize (H2 l). destruct (counters s !! l) as [c|] eqn:Hc; [done|].
      simpl in H2.
      assert (size (sharers l (instances s)) <> 0%nat); [|lia].
      apply (map_size_ne_0_lookup_2 _ a). rewrite sharers_lookup, Hv.
      by case_decide.
    + intros a va Ha. apply map_Forall_lookup. intros b vb Hb [l Hsome] Heq.
      apply (H4 a b va vb l); congruence.
Qed.

Lemma counted_from_insert least eng cnt inst eng' cnt' a v' :
  counted_facts least (MkHost eng cnt inst) ->
  (mType v' <> OBJECT -> mRefCount v' = None) ->
  (forall l, default 0 (cnt' !! l) + Z.of_nat (holds l (inst !! a))
             = default 0 (cnt !! l) + Z.of_nat (holds l (Some v'))) ->
  (forall l c', cnt' !! l = Some c' -> least <= c') ->
  (forall b vb l, b <> a -> inst !! b = Some vb ->
     mRefCount v' = Some l -> mRefCount vb = Some l ->
     mContext v' = mContext vb /\ mPOD v' = mPOD vb) ->
  counted_facts least (MkHost eng' cnt' (<[a := v']> inst)).
Proof.
  intros [H1 H2 H3 H4] Hp Hc Hle Hs; cbn [instances counters] in *.
  split; cbn [instances counters].
  - intros b v Hb. destruct (decide (b = a)) as [->|Hne].
    + rewrite lookup_insert_eq in Hb. by simplify_eq.
    + rewrite lookup_insert_ne in Hb by done. by eapply H1.
  - intros l. pose proof (sharers_insert l a v' inst) as E.
    specialize (Hc l). specialize (H2 l). lia.
  - done.
  - intros b1 b2 v1 v2 l Hb1 Hb2 Hr1 Hr2.
    destruct (decide (b1 = a)) as [->|Hn1], (decide (b2 = a)) as [->|Hn2].
    + rewrite lookup_insert_eq in Hb1, Hb2. by simplify_eq.
    + rewrite lookup_insert_eq in Hb1. rewrite lookup_insert_ne in Hb2 by done.
      simplify_eq. by eapply Hs.
    + rewrite lookup_insert_eq in Hb2. rewrite lookup_insert_ne in Hb1 by done.
      simplify_eq. destruct (Hs b1 v1 l) as [-> ->]; done.
    + rewrite lookup_insert_ne in Hb1, Hb2 by done. by eapply H4.
Qed.

Lemma counted_from_delete least eng cnt inst eng' cnt' a :
  counted_facts least (MkHost eng cnt inst) ->
  (forall l, default 0 (cnt' !! l) + Z.of_nat (holds l (inst !! a))
             = default 0 (cnt !! l)) ->
  (forall l c', cnt' !! l = Some c' -> least <= c') ->
  counted_facts least (MkHost eng' cnt' (delete a inst)).
Proof.
  intros [H1 H2 H3 H4] Hc Hle; cbn [instances counters] in *.
  split; cbn [instances counters].
  - intros b v Hb. apply lookup_delete_Some in Hb as [_ Hb]. by eapply H1.
  - intros l. pose proof (sharers_delete l a inst) as E.
    specialize (Hc l). specialize (H2 l). lia.
  - done.
  - intros b1 b2 v1 v2 l Hb1 Hb2.
    apply lookup_delete_Some in Hb1 as [_ Hb1].
    apply lookup_delete_Some in Hb2 as [_ Hb2]. by eapply H4.
Qed.

Lemma release_inv eng cnt inst this s' :
  release_ref_count this (MkHost eng cnt inst) = Ok (tt, s') ->
  exists v, inst !! this = Some v /\
    ((mType v <> OBJECT /\ s' = MkHost eng cnt inst)
     \/ (mType v = OBJECT /\ mRefCount v = None
         /\ exists eng', s' = MkHost eng' cnt (<[this := released v]> inst))
     \/ (mType v = OBJECT /\ exists l c, mRefCount v = Some l /\ cnt !! l = Some c
         /\ 1 < c
         /\ s' = MkHost eng (<[l := c - 1]> cnt) (<[this := released v]> inst))
     \/ (mType v = OBJECT /\ exists l c eng', mRefCount v = Some l
         /\ cnt !! l = Some c /\ c <= 1
         /\ s' = MkHost eng' (delete l cnt) (<[this := released v]> inst))).
Proof.
  intros H. destruct (inst !! this) as [v|] eqn:Hv.
  2:{ unfold release_ref_count, bind, load in H; simpl in H. by rewrite Hv in H. }
  exists v. split; [done|].
  destruct (decide (mType v = OBJECT)) as [Hty|Hty].
  2:{ left. rewrite (release_other _ _ _ _ _ Hv Hty) in H. by simplify_eq. }
  right.
  assert (forall (m : Host unit) (k : unit -> Host unit) s s2,
            bind m k s = Ok (tt, s2) ->
            exists s1, m s = Ok (tt, s1) /\ k tt s1 = Ok (tt, s2)) as Hbind.
  { intros m k s s2 Hb. unfold bind in Hb.
    destruct (m s) as [[[] s1]|]; [eauto|done]. }
  unfold release_ref_count in H. unfold bind at 1 in H.
  rewrite (step_load _ _ _ _ _ Hv) in H. hnext_in H.
  destruct (decide (mType v = OBJECT)); [|done]. 
  apply Hbind in H as (s1 & H & Hfin).
  destruct (mRefCount v) as [l|] eqn:Hrc.
  - right. unfold bind at 1 in H.
    destruct (cnt !! l) as [c|] eqn:Hc.
    2:{ unfold read_int in H; simpl in H. by rewrite Hc in H. }
    rewrite (step_read_int _ _ _ _ _ Hc) in H. hnext_in H.
    apply Hbind in H as (s0 & H & Hupd).
    destruct (Z.ltb_spec 1 c).
    + left. split; [done|]. exists l, c. do 3 (split; [done|]).
      rewrite (step_write_int _ _ _ _ _ _ Hc) in H. simplify_eq.
      rewrite (step_update _ _ _ _ _ _ Hv) in Hupd. simplify_eq.
      erewrite step_update in Hfin by apply lookup_insert_eq. simplify_eq.
      by rewrite insert_insert_eq.
    + right. split; [done|].
      unfold bind at 1 in H.
      destruct (mPOD v) as [| | | |i] eqn:Hp; hnext_in H; try done.
      unfold bind at 1 in H. unfold with_ctx at 1 in H.
      cbn [engines] in H.
      destruct (eng !! mContext v) as [h|]; [|done].
      destruct (free_ref i h) as [[[] h']|]; [|done].
      hnext_in H. rewrite (step_delete_int _ _ _ _ _ Hc) in H. simplify_eq.
      rewrite (step_update _ _ _ _ _ _ Hv) in Hupd. simplify_eq.
      erewrite step_update in Hfin by apply lookup_insert_eq. simplify_eq.
      exists l, c, (<[mContext v:=h']> eng). do 3 (split; [done|]).
      by rewrite insert_insert_eq.
  - left. split; [done|]. split; [done|].
    unfold bind at 1 in H.
    destruct (mPOD v) as [| | | |i] eqn:Hp; hnext_in H; try done.
    unfold with_ctx at 1 in H. cbn [engines] in H.
    destruct (eng !! mContext v) as [h|]; [|done].
    destruct (free_ref i h) as [[[] h']|]; [|done]. hnext_in H. simplify_eq.
    rewrite (step_update _ _ _ _ _ _ Hv) in Hfin. simplify_eq.
    exists (<[mContext v:=h']> eng). unfold released.
    replace (with_mRefCount None v) with v; [done|].
    destruct v; simpl in *. by subst.
Qed.

Lemma holds_Some_eq l v : mRefCount v = Some l -> holds l (Some v) = 1%nat.
Proof. intros H. unfold holds. by case_decide. Qed.

Lemma holds_Some_ne l v : mRefCount v <> Some l -> holds l (Some v) = 0%nat.
Proof. intros H. unfold holds. by case_decide. Qed.

Lemma release_counted s this s' :
  counted_facts 1 s ->
  release_ref_count this s = Ok (tt, s') ->
  counted_facts 1 s'
  /\ exists v, instances s !! this = Some v
       /\ instances s' = <[this := let_go v]> (instances s)
       /\ mType (let_go v) <> OBJECT /\ mRefCount (let_go v) = None.
Proof.
  intros Hc H. destruct s as [eng cnt inst].
  apply release_inv in H as (v & Hv & Hcase). cbn [instances].
  assert (mType v <> OBJECT -> mRefCount v = None) as Hplain
    by (intros; by eapply (cf_plain _ _ Hc)).
  assert (mType (let_go v) <> OBJECT /\ mRefCount (let_go v) = None) as Hgo.
  { unfold let_go. case_decide; [done|]. split; [done|]. by apply Hplain. }
  destruct Hcase as [[Hty ->]|[(Hty & Hrc & eng' & ->)|
    [(Hty & l & c & Hrc & Hl & Hlt & ->)|(Hty & l & c & eng' & Hrc & Hl & Hle & ->)]]];
    cbn [instances].
  - split; [done|]. exists v. split; [done|]. split; [|done].
    unfold let_go. case_decide; [done|]. by rewrite insert_id.
  - split.
    + eapply counted_from_insert; [exact Hc|done| | |done].
      * intros l. rewrite Hv. rewrite !holds_Some_ne; [done|done|by rewrite Hrc].
      * intros l c'. apply (cf_least _ _ Hc).
    + exists v. unfold let_go. by case_decide.
  - split.
    + eapply counted_from_insert; [exact Hc|done| | |done].
      * intros l0. rewrite Hv. rewrite (holds_Some_ne l0 (released v)) by done.
        destruct (decide (l0 = l)) as [->|Hne].
        -- rewrite lookup_insert_eq, Hl, (holds_Some_eq l v) by done. simpl. lia.
        -- rewrite lookup_insert_ne by done.
           rewrite holds_Some_ne by congruence. done.
      * intros l0 c'. destruct (decide (l0 = l)) as [->|Hne].
        -- rewrite lookup_insert_eq. intros; simplify_eq. lia.
        -- rewrite lookup_insert_ne by done. apply (cf_least _ _ Hc).
    + exists v. unfold let_go. by case_decide.
  - split.
    + pose proof (cf_least _ _ Hc l c Hl) as Hge. cbn [counters] in Hge.
      eapply counted_from_insert; [exact Hc|done| | |done].
      * intros l0. rewrite Hv. rewrite (holds_Some_ne l0 (released v)) by done.
        destruct (decide (l0 = l)) as [->|Hne].
        -- rewrite lookup_delete_eq, Hl, (holds_Some_eq l v) by done. simpl. lia.
        -- rewrite lookup_delete_ne by done.
           rewrite holds_Some_ne by congruence. done.
      * intros l0 c' Hl0. apply lookup_delete_Some in Hl0 as [_ Hl0].
        by apply (cf_least _ _ Hc l0).
    + exists v. unfold let_go. by case_decide.
Qed.

Lemma release_post s this s' :
  release_ref_count this s = Ok (tt, s') ->
  exists v, instances s !! this = Some v
       /\ instances s' = <[this := let_go v]> (instances s)
       /\ mType (let_go v) <> OBJECT.
Proof.
  intros H. destruct s as [eng cnt inst].
  apply release_inv in H as (v & Hv & Hcase). cbn [instances].
  exists v. split; [done|]. unfold let_go.
  destruct Hcase as [[Hty ->]|[(Hty & Hrc & eng' & ->)|
    [(Hty & l & c & Hrc & Hl & Hlt & ->)|(Hty & l & c & eng' & Hrc & Hl & Hle & ->)]]];
    cbn [instances]; case_decide; try done.
  by rewrite insert_id.
Qed.

Lemma assign_rhs_missing s0 eng cnt inst this rhs :
  release_ref_count this s0 = Ok (tt, MkHost eng cnt inst) ->
  inst !! rhs = None ->
  assign this rhs s0 = Fail InvalidAccess.
Proof.
  intros Hrel Hr. unfold assign, bind at 1. rewrite Hrel. hnext.
  unfold bind at 1. unfold write_from, bind at 1. unfold load at 1.
  cbn [instances]. by rewrite Hr.
Qed.

Lemma assign_object_again_gen s0 eng cnt inst this rhs t r l :
  release_ref_count this s0 = Ok (tt, MkHost eng cnt inst) ->
  inst !! this = Some t -> inst !! rhs = Some r -> this <> rhs ->
  mType r = OBJECT -> mRefCount r = Some l ->
  assign this rhs s0
  = (let* c := read_int l in
     let* c' := lift (int_add c 1) in
     write_int l c') (MkHost eng cnt (<[this := sharing r t l]> inst)).
Proof.
  intros Hrel Ht Hr Hne Hty Hrc. unfold assign. unfold bind at 1.
  rewrite Hrel. hnext.
  unfold bind at 1. rewrite (step_write_from _ _ _ _ _ _ _ _ Hr Ht). hnext.
  unfold bind at 1.
  erewrite step_write_from;
    [|by rewrite lookup_insert_ne by done|by apply lookup_insert_eq]. hnext.
  rewrite insert_insert_eq. unfold bind at 1.
  erewrite step_write_from;
    [|by rewrite lookup_insert_ne by done|by apply lookup_insert_eq]. hnext.
  rewrite insert_insert_eq. unfold bind at 1.
  erewrite step_load by apply lookup_insert_eq. hnext.
  rewrite Hty. case_decide; [done|]. unfold bind at 1. unfold ret. hnext.
  unfold bind at 1.
  erewrite step_load by apply lookup_insert_eq. hnext.
  case_decide; [|done]. unfold bind at 1.
  erewrite step_load by (by rewrite lookup_insert_ne by done). hnext.
  rewrite Hrc. unfold bind at 1.
  erewrite step_write_from;
    [|by rewrite lookup_insert_ne by done|by apply lookup_insert_eq]. hnext.
  rewrite insert_insert_eq. unfold bind at 1.
  erewrite step_load by apply lookup_insert_eq. hnext. by rewrite Hrc.
Qed.

Lemma assign_inv this rhs s s' :
  assign this rhs s = Ok (tt, s') ->
  exists eng cnt inst t r,
    release_ref_count this s = Ok (tt, MkHost eng cnt inst)
    /\ inst !! this = Some t /\ inst !! rhs = Some r
    /\ mType t <> OBJECT
    /\ ((mType r <> OBJECT
         /\ s' = MkHost eng cnt (<[this := copied r t]> inst))
        \/ (this <> rhs /\ mType r = OBJECT /\ mRefCount r = None
            /\ s' = MkHost eng (<[fresh (dom cnt) := 2]> cnt)
                     (<[this := sharing r t (fresh (dom cnt))]>
                        (<[rhs := with_mRefCount (Some (fresh (dom cnt))) r]> inst)))
        \/ (this <> rhs /\ mType r = OBJECT
            /\ exists l c, mRefCount r = Some l /\ cnt !! l = Some c
                 /\ c + 1 < Double.two31
                 /\ s' = MkHost eng (<[l := c + 1]> cnt)
                          (<[this := sharing r t l]> inst))).
Proof.
  intros H.
  destruct (release_ref_count this s) as [[[] [eng cnt inst]]|] eqn:Hrel.
  2:{ unfold assign, bind at 1 in H. by rewrite Hrel in H. }
  destruct (release_post _ _ _ Hrel) as (v & Hv & Hinst & Hgo).
  cbn [instances] in Hinst.
  assert (inst !! this = Some (let_go v)) as Ht
    by (rewrite Hinst; apply lookup_insert_eq).
  destruct (inst !! rhs) as [r|] eqn:Hr.
  2:{ by rewrite (assign_rhs_missing _ _ _ _ _ _ Hrel Hr) in H. }
  exists eng, cnt, inst, (let_go v), r. do 4 (split; [done|]).
  destruct (decide (mType r = OBJECT)) as [Hty|Hty].
  2:{ left. split; [done|].
      rewrite (assign_plain _ _ _ _ _ _ _ _ Hrel Ht Hr Hty) in H. by simplify_eq. }
  right. assert (this <> rhs) as Hne by (intros ->; congruence).
  destruct (mRefCount r) as [l|] eqn:Hrc.
  - right. do 2 (split; [done|]). exists l.
    rewrite (assign_object_again_gen _ _ _ _ _ _ _ _ _ Hrel Ht Hr Hne Hty Hrc) in H.
    unfold bind at 1 in H.
    destruct (cnt !! l) as [c|] eqn:Hc.
    2:{ unfold read_int in H. cbn [counters] in H. by rewrite Hc in H. }
    rewrite (step_read_int _ _ _ _ _ Hc) in H. hnext_in H.
    unfold bind, int_add in H.
    destruct (Z.leb_spec (- Double.two31) (c + 1)); [|done].
    destruct (Z.ltb_spec (c + 1) Double.two31); [|done].
    cbn [andb] in H. hnext_in H.
    rewrite (step_write_int _ _ _ _ _ _ Hc) in H. simplify_eq. by exists c.
  - left. do 3 (split; [done|]).
    rewrite (assign_object_first _ _ _ _ _ _ _ _ Hrel Ht Hr Hne Hty Hrc) in H.
    by simplify_eq.
Qed.

Lemma cf_live least s a v l :
  counted_facts least s ->
  instances s !! a = Some v -> mRefCount v = Some l ->
  exists c, counters s !! l = Some c.
Proof.
  intros Hc Hv Hrc. pose proof (cf_total _ _ Hc l) as Ht.
  destruct (counters s !! l) as [c|]; [eauto|]. simpl in Ht.
  assert (size (sharers l (instances s)) <> 0%nat); [|lia].
  apply (map_size_ne_0_lookup_2 _ a). rewrite sharers_lookup, Hv.
  by case_decide.
Qed.

Lemma assign_counted s this rhs s' :
  counted_facts 1 s ->
  assign this rhs s = Ok (tt, s') ->
  counted_facts 1 s'.
Proof.
  intros Hc H.
  apply assign_inv in H as (eng & cnt & inst & t & r & Hrel & Ht & Hr & Hty & Hcase).
  destruct (release_counted _ _ _ Hc Hrel) as [Hc1 _].
  assert (mRefCount t = None) as Htrc by (by eapply (cf_plain _ _ Hc1)).
  destruct Hcase as [[Hrty ->]|[(Hne & Hrty & Hrrc & ->)|
    (Hne & Hrty & l & c & Hrrc & Hl & Hov & ->)]].
  - eapply counted_from_insert;
      [exact Hc1|by intros _| | |by intros ? ? ? ? ? Hx; cbn in Hx; congruence].
    + intros l. rewrite Ht. by rewrite !holds_Some_ne by (cbn; congruence).
    + apply (cf_least _ _ Hc1).
  - set (l := fresh (dom cnt)).
    assert (cnt !! l = None) as Hfresh by apply fresh_counter_free.
    assert (forall b vb, inst !! b = Some vb -> mRefCount vb <> Some l) as Hnone.
    { intros b vb Hb Hrc. destruct (cf_live _ _ _ _ _ Hc1 Hb Hrc) as [c Hcl].
      cbn [counters] in Hcl. congruence. }
    assert (counted_facts 1
              (MkHost eng (<[l := 1]> cnt)
                 (<[rhs := with_mRefCount (Some l) r]> inst))) as Hc2.
    { eapply counted_from_insert; [exact Hc1|done| | |].
      - intros l0. rewrite Hr. rewrite (holds_Some_ne l0 r) by congruence.
        destruct (decide (l0 = l)) as [->|Hl0].
        + rewrite lookup_insert_eq, Hfresh, holds_Some_eq by done. done.
        + rewrite lookup_insert_ne by done.
          rewrite holds_Some_ne by (cbn; congruence). done.
      - intros l0 c'. destruct (decide (l0 = l)) as [->|Hl0].
        + rewrite lookup_insert_eq. intros; simplify_eq. lia.
        + rewrite lookup_insert_ne by done. apply (cf_least _ _ Hc1).
      - intros b vb l0 Hb Hvb Hrc1 Hrc2. cbn in Hrc1. simplify_eq.
        by destruct (Hnone _ _ Hvb). }
    eapply counted_from_insert; [exact Hc2|done| | |].
    + intros l0. rewrite (lookup_insert_ne inst rhs this) by done. rewrite Ht.
      rewrite (holds_Some_ne l0 t) by congruence.
      destruct (decide (l0 = l)) as [->|Hl0].
      * rewrite !lookup_insert_eq, holds_Some_eq by done. done.
      * rewrite !lookup_insert_ne by done.
        rewrite holds_Some_ne by (cbn; congruence). done.
    + intros l0 c'. destruct (decide (l0 = l)) as [->|Hl0].
      * rewrite lookup_insert_eq. intros; simplify_eq. lia.
      * rewrite lookup_insert_ne by done. apply (cf_least _ _ Hc1).
    + intros b vb l0 Hb Hvb Hrc1 Hrc2. cbn in Hrc1. simplify_eq.
      destruct (decide (b = rhs)) as [->|Hbr].
      * rewrite lookup_insert_eq in Hvb. by simplify_eq.
      * rewrite lookup_insert_ne in Hvb by done. by destruct (Hnone _ _ Hvb).
  - pose proof (cf_least _ _ Hc1 l c Hl) as Hge. cbn [counters] in Hge.
    eapply counted_from_insert; [exact Hc1|done| | |].
    + intros l0. rewrite Ht. rewrite (holds_Some_ne l0 t) by congruence.
      destruct (decide (l0 = l)) as [->|Hl0].
      * rewrite lookup_insert_eq, Hl, holds_Some_eq by done. simpl. lia.
      * rewrite lookup_insert_ne by done.
        rewrite holds_Some_ne by (cbn; congruence). done.
    + intros l0 c'. destruct (decide (l0 = l)) as [->|Hl0].
      * rewrite lookup_insert_eq. intros; simplify_eq. lia.
      * rewrite lookup_insert_ne by done. apply (cf_least _ _ Hc1).
    + intros b vb l0 Hb Hvb Hrc1 Hrc2. cbn in Hrc1. simplify_eq.
      by eapply (cf_slot _ _ Hc1 rhs b r vb).
Qed.

Lemma copy_construct_counted s this copy s' :
  counted_facts 1 s ->
  instances s !! this = None ->
  copy_construct this copy s = Ok (tt, s') ->
  counted_facts 1 s'.
Proof.
  intros Hc Hnew H. destruct s as [eng cnt inst]. cbn [instances] in Hnew.
  unfold copy_construct, bind at 1 in H. rewrite step_store in H. hnext_in H.
  eapply assign_counted; [|exact H].
  eapply counted_from_insert; [exact Hc|done| | |done].
  - intros l. by rewrite Hnew.
  - apply (cf_least _ _ Hc).
Qed.

Lemma destroy_counted s this s' :
  counted_facts 1 s ->
  destroy this s = Ok (tt, s') ->
  counted_facts 1 s'.
Proof.
  intros Hc H. unfold destroy, bind at 1 in H.
  destruct (release_ref_count this s) as [[[] s1]|] eqn:Hrel; [|done].
  simplify_eq.
  destruct (release_counted _ _ _ Hc Hrel) as (Hc1 & v & Hv & Hinst & Hgo & Hrc).
  destruct s1 as [eng cnt inst]. cbn [instances] in *.
  eapply counted_from_delete; [exact Hc1| |apply (cf_least _ _ Hc1)].
  intros l. rewrite Hinst, lookup_insert_eq.
  rewrite holds_Some_ne by congruence. cbn [counters]. lia.
Qed.

Lemma move_construct_missing eng cnt inst this move :
  inst !! move = None -> this <> move ->
  move_construct this move (MkHost eng cnt inst) = Fail InvalidAccess.
Proof.
  intros Hm Hne. unfold move_construct, bind at 1. rewrite step_store. hnext.
  unfold bind at 1. unfold write_from, bind at 1. unfold load at 1.
  cbn [instances]. by rewrite lookup_insert_ne, Hm by done.
Qed.

Lemma move_construct_counted s this move s' :
  counted_facts 1 s ->
  instances s !! this = None -> this <> move ->
  move_construct this move s = Ok (tt, s') ->
  counted_facts 1 s'.
Proof.
  intros Hc Hnew Hne H. destruct s as [eng cnt inst]. cbn [instances] in Hnew.
  destruct (inst !! move) as [A|] eqn:HA.
  2:{ by rewrite move_construct_missing in H. }
  rewrite (move_construct_spec _ _ _ _ _ _ HA Hne) in H. simplify_eq.
  rewrite (insert_insert_ne _ move this) by done.
  assert (mType A <> OBJECT -> mRefCount A = None) as Hplain
    by (intros; by eapply (cf_plain _ _ Hc)).
  destruct (mRefCount A) as [l|] eqn:Hrc.
  - destruct (cf_live _ _ _ _ _ Hc HA Hrc) as [c Hl]. cbn [counters] in Hl.
    pose proof (cf_least _ _ Hc l c Hl) as Hge. cbn [counters] in Hge.
    set (cntA := if decide (c = 1) then delete l cnt else <[l := c - 1]> cnt).
    assert (forall l0, default 0 (cntA !! l0)
                       = default 0 (cnt !! l0) - Z.of_nat (holds l0 (Some A)))
      as HcntA.
    { intros l0. unfold cntA. destruct (decide (l0 = l)) as [->|Hl0].
      - rewrite holds_Some_eq by done. rewrite Hl. simpl.
        case_decide.
        + rewrite lookup_delete_eq. simpl. lia.
        + rewrite lookup_insert_eq. simpl. lia.
      - rewrite holds_Some_ne by congruence.
        case_decide.
        + rewrite lookup_delete_ne by done. lia.
        + rewrite lookup_insert_ne by done. lia. }
    assert (counted_facts 1 (MkHost eng cntA (<[move := moved_from A]> inst)))
      as Hc2.
    { eapply counted_from_insert; [exact Hc|done| | |done].
      - intros l0. rewrite HA, HcntA.
        rewrite (holds_Some_ne l0 (moved_from A)) by done. lia.
      - intros l0 c'. unfold cntA. case_decide.
        + intros Hx. apply lookup_delete_Some in Hx as [_ Hx].
          by apply (cf_least _ _ Hc l0).
        + destruct (decide (l0 = l)) as [->|Hl0].
          * rewrite lookup_insert_eq. intros; simplify_eq. lia.
          * rewrite lookup_insert_ne by done. apply (cf_least _ _ Hc). }
    eapply counted_from_insert; [exact Hc2| | | |].
    + intros Hty. cbn in Hty. by destruct (Hplain Hty).
    + intros l0. rewrite lookup_insert_ne by done. rewrite Hnew, HcntA.
      unfold holds at 1. unfold holds. cbn [mRefCount moved]. rewrite Hrc. lia.
    + apply (cf_least _ _ Hc).
    + intros b vb l0 Hb Hvb Hrc1 Hrc2. cbn in Hrc1. simplify_eq.
      destruct (decide (b = move)) as [->|Hbm].
      * rewrite lookup_insert_eq in Hvb. by simplify_eq.
      * rewrite lookup_insert_ne in Hvb by done.
        by eapply (cf_slot _ _ Hc move b A vb).
  - assert (counted_facts 1 (MkHost eng cnt (<[move := moved_from A]> inst)))
      as Hc2.
    { eapply counted_from_insert; [exact Hc|done| | |done].
      - intros l0. rewrite HA. by rewrite !holds_Some_ne by (cbn; congruence).
      - apply (cf_least _ _ Hc). }
    eapply counted_from_insert; [exact Hc2|done| | |].
    + intros l0. rewrite lookup_insert_ne by done. rewrite Hnew.
      by rewrite holds_Some_ne by (cbn; congruence).
    + apply (cf_least _ _ Hc).
    + intros b vb l0 Hb Hvb Hrc1. cbn in Hrc1. congruence.
Qed.

(** *** The invariant by slot *)

Lemma one_counter_per_slot_facts inst :
  one_counter_per_slot inst <-> slots_apart inst.
Proof.
  unfold one_counter_per_slot, slots_apart. rewrite map_Forall_lookup. split.
  - intros H a b va vb Ha Hb Hne Hta Htb Hc Hp.
    specialize (H a va Ha). rewrite map_Forall_lookup in H.
    destruct (H b vb Hb Hne Hta) as [[l Hl] He]; [by split|].
    exists l. split; [done|]. congruence.
  - intros H a va Ha. apply map_Forall_lookup. intros b vb Hb Hne Hta (Htb & Hc & Hp).
    destruct (H a b va vb Ha Hb Hne Hta Htb) as (l & E1 & E2); [done|done|].
    split; [by exists l|congruence].
Qed.

Lemma on_slot_lookup v inst a w :
  on_slot v inst !! a = Some w <-> inst !! a = Some w /\ shares_slot v w.
Proof. unfold on_slot. by rewrite map_lookup_filter_Some. Qed.

(** With one counter per slot, the instances that share the slot of an
    Object instance are the holders of its counter, or the instance alone
    when it has none. *)
Lemma counts_its_slot_from least s :
  counted_facts least s -> slots_apart (instances s) -> counts_its_slot s.
Proof.
  intros Hc Hap. apply map_Forall_lookup. intros a v Hv Hty.
  destruct (mRefCount v) as [l|] eqn:Hrc.
  - assert (on_slot v (instances s) = sharers l (instances s)) as ->.
    { apply map_eq. intros b. apply option_eq. intros w.
      rewrite on_slot_lookup. unfold sharers. rewrite map_lookup_filter_Some.
      cbn [snd]. split; intros [Hw Hx]; (split; [done|]).
      - destruct (decide (b = a)) as [->|Hne]; [congruence|].
        destruct Hx as (Htw & Hcw & Hpw).
        destruct (Hap a b v w Hv Hw) as (l' & E1 & E2); try done; congruence.
      - destruct (cf_slot _ _ Hc b a w v l Hw Hv Hx Hrc) as [Hcw Hpw].
        split; [|done]. destruct (decide (mType w = OBJECT)) as [|Hn]; [done|].
        pose proof (cf_plain _ _ Hc b w Hw Hn). congruence. }
    destruct (cf_live _ _ _ _ _ Hc Hv Hrc) as [c Hl].
    pose proof (cf_total _ _ Hc l) as Ht. rewrite Hl in Ht. simpl in Ht.
    rewrite Hl. f_equal. lia.
  - assert (on_slot v (instances s) = {[ a := v ]}) as ->.
    { apply map_eq. intros b. apply option_eq. intros w.
      rewrite on_slot_lookup, lookup_singleton_Some. split.
      - intros [Hw (Htw & Hcw & Hpw)].
        destruct (decide (a = b)) as [->|Hne]; [split; congruence|].
        destruct (Hap a b v w Hv Hw) as (l' & E1 & E2); try done; congruence.
      - intros [<- <-]. split; [done|]. by split. }
    apply map_size_singleton.
Qed.

(** The invariant by slot is the invariant by counter together with one
    counter per slot. *)
Lemma slot_counted_facts least s :
  1 <= least ->
  slot_counted_from least s
  <-> counted_facts least s /\ slots_apart (instances s).
Proof.
  intros Hl. unfold slot_counted_from.
  rewrite (counted_from_facts least s Hl), one_counter_per_slot_facts. split.
  - by intros (Hc & Hap & _).
  - intros [Hc Hap]. do 2 (split; [done|]). by eapply counts_its_slot_from.
Qed.

(** One instance is written: what is left to show for [slots_apart]. *)
Lemma slots_apart_insert inst a v' :
  slots_apart inst ->
  (mType v' = OBJECT ->
   forall b vb, b <> a -> inst !! b = Some vb -> mType vb = OBJECT ->
     mContext v' = mContext vb -> mPOD v' = mPOD vb ->
     exists l, mRefCount v' = Some l /\ mRefCount vb = Some l) ->
  slots_apart (<[a := v']> inst).
Proof.
  intros H Hnew b1 b2 v1 v2 Hb1 Hb2 Hne Ht1 Ht2 Hc Hp.
  destruct (decide (b1 = a)) as [->|Hn1], (decide (b2 = a)) as [->|Hn2].
  - done.
  - rewrite lookup_insert_eq in Hb1. rewrite lookup_insert_ne in Hb2 by done.
    simplify_eq. by eapply Hnew.
  - rewrite lookup_insert_eq in Hb2. rewrite lookup_insert_ne in Hb1 by done.
    simplify_eq. destruct (Hnew Ht2 b1 v1) as (l & E1 & E2); try done.
    by exists l.
  - rewrite lookup_insert_ne in Hb1, Hb2 by done. by eapply H.
Qed.

Lemma slots_apart_delete inst a : slots_apart inst -> slots_apart (delete a inst).
Proof.
  intros H b1 b2 v1 v2 Hb1 Hb2.
  apply lookup_delete_Some in Hb1 as [_ Hb1].
  apply lookup_delete_Some in Hb2 as [_ Hb2]. by eapply H.
Qed.

(** The operations keep one counter per slot. *)
Lemma release_apart s this s' :
  slots_apart (instances s) ->
  release_ref_count this s = Ok (tt, s') ->
  slots_apart (instances s').
Proof.
  intros Hap H. destruct (release_post _ _ _ H) as (v & Hv & -> & Hgo).
  by apply slots_apart_insert.
Qed.

Lemma assign_apart s this rhs s' :
  slots_apart (instances s) ->
  assign this rhs s = Ok (tt, s') ->
  slots_apart (instances s').
Proof.
  intros Hap H.
  apply assign_inv in H as (eng & cnt & inst & t & r & Hrel & Ht & Hr & Hty & Hcase).
  pose proof (release_apart _ _ _ Hap Hrel) as Hap1. cbn [instances] in Hap1.
  assert (forall b vb, b <> rhs -> inst !! b = Some vb -> mType vb = OBJECT ->
            mType r = OBJECT ->
            mContext r = mContext vb -> mPOD r = mPOD vb ->
            exists l, mRefCount r = Some l /\ mRefCount vb = Some l) as Hothers.
  { intros b vb Hb Hvb Htb Htr Hcb Hpb.
    apply (Hap1 rhs b r vb); done. }
  destruct Hcase as [(Hplain & ->)|[(Hne & Hobj & Hrc & ->)|
    (Hne & Hobj & l & c & Hrc & Hl & Hov & ->)]]; cbn [instances].
  - apply slots_apart_insert; [done|]. intros Hx. by cbn in Hx.
  - set (l := fresh (dom cnt)).
    apply slots_apart_insert.
    + apply slots_apart_insert; [done|]. intros _ b vb Hb Hvb Htb Hcb Hpb.
      destruct (Hothers b vb Hb Hvb Htb Hobj Hcb Hpb) as (l' & E & _).
      congruence.
    + intros _ b vb Hb Hvb Htb Hcb Hpb.
      destruct (decide (b = rhs)) as [->|Hbr].
      * rewrite lookup_insert_eq in Hvb. simplify_eq. by exists l.
      * rewrite lookup_insert_ne in Hvb by done.
        destruct (Hothers b vb Hbr Hvb Htb Hobj Hcb Hpb) as (l' & E & _).
        congruence.
  - apply slots_apart_insert; [done|]. intros _ b vb Hb Hvb Htb Hcb Hpb.
    destruct (decide (b = rhs)) as [->|Hbr].
    + assert (vb = r) as -> by congruence. by exists l.
    + destruct (Hothers b vb Hbr Hvb Htb Hobj Hcb Hpb) as (l' & E1 & E2).
      exists l. split; [done|]. congruence.
Qed.

Lemma copy_construct_apart s this copy s' :
  slots_apart (instances s) ->
  copy_construct this copy s = Ok (tt, s') ->
  slots_apart (instances s').
Proof.
  intros Hap H. destruct s as [eng cnt inst].
  unfold copy_construct, bind at 1 in H. rewrite step_store in H. hnext_in H.
  eapply assign_apart; [|exact H]. cbn [instances] in *.
  by apply slots_apart_insert.
Qed.

Lemma move_construct_apart s this move s' :
  slots_apart (instances s) ->
  this <> move ->
  move_construct this move s = Ok (tt, s') ->
  slots_apart (instances s').
Proof.
  intros Hap Hne H. destruct s as [eng cnt inst]. cbn [instances] in *.
  destruct (inst !! move) as [A|] eqn:HA.
  2:{ by rewrite move_construct_missing in H. }
  rewrite (move_construct_spec _ _ _ _ _ _ HA Hne) in H. injection H as <-.
  cbn [instances]. rewrite (insert_insert_ne _ move this) by done.
  apply slots_apart_insert.
  - by apply slots_apart_insert.
  - intros Hty b vb Hb Hvb Htb Hcb Hpb. cbn [moved mType mRefCount] in *.
    destruct (decide (b = move)) as [->|Hbm].
    + rewrite lookup_insert_eq in Hvb. by simplify_eq.
    + rewrite lookup_insert_ne in Hvb by done.
      apply (Hap move b A vb); try done; by apply not_eq_sym.
Qed.

Lemma destroy_apart s this s' :
  slots_apart (instances s) ->
  destroy this s = Ok (tt, s') ->
  slots_apart (instances s').
Proof.
  intros Hap H. unfold destroy, bind at 1 in H.
  destruct (release_ref_count this s) as [[[] s1]|] eqn:Hrel; [|done].
  injection H as <-. cbn [with_instances instances].
  apply slots_apart_delete. by eapply release_apart.
Qed.

Lemma size_two_lookups {A} (m : gmap nat A) a b x y :
  a <> b -> m !! a = Some x -> m !! b = Some y -> (2 <= size m)%nat.
Proof.
  intros Hne Ha Hb.
  pose proof (map_size_delete_Some a m (mk_is_Some _ _ Ha)) as Hs.
  assert (size (delete a m) <> 0%nat); [|lia].
  apply (map_size_ne_0_lookup_2 _ b). by rewrite lookup_delete_ne, Hb by done.
Qed.

(** What the invariant by slot says of one instance. *)
Lemma slot_counted_reads s a v :
  slot_counted s ->
  instances s !! a = Some v ->
  (mType v <> OBJECT -> mRefCount v = None)
  /\ (mType v = OBJECT -> forall l, mRefCount v = Some l ->
        exists c, counters s !! l = Some c
          /\ c = Z.of_nat (size (on_slot v (instances s))) /\ 1 <= c)
  /\ (mType v = OBJECT -> forall b w,
        b <> a -> instances s !! b = Some w -> shares_slot v w ->
        exists l c, mRefCount v = Some l /\ mRefCount w = Some l
          /\ counters s !! l = Some c /\ 2 <= c).
Proof.
  intros Hs Hv.
  assert (mType v = OBJECT -> forall l, mRefCount v = Some l ->
            exists c, counters s !! l = Some c
              /\ c = Z.of_nat (size (on_slot v (instances s))) /\ 1 <= c) as Hcount.
  { intros Hty l Hrc. destruct Hs as ((_ & Hlive & _) & _ & Hn).
    pose proof (map_Forall_lookup_1 _ _ _ _ Hn Hv Hty) as Hc.
    cbv beta in Hc. rewrite Hrc in Hc. eexists. split; [exact Hc|].
    split; [done|].
    by destruct (map_Forall_lookup_1 _ _ _ _ Hlive Hc) as [_ ?]. }
  split; [|split; [done|]].
  - destruct Hs as ((Hp & _) & _). by apply (map_Forall_lookup_1 _ _ _ _ Hp Hv).
  - intros Hty b w Hb Hw Hsh.
    assert (slots_apart (instances s)) as Hap
      by (apply one_counter_per_slot_facts, Hs).
    pose proof Hsh as (Htw & Hcw & Hpw).
    destruct (Hap a b v w Hv Hw) as (l & E1 & E2); try done.
    destruct (Hcount Hty l E1) as (c & Hc & -> & _).
    eexists l, _. split; [done|]. split; [done|]. split; [exact Hc|].
    assert (2 <= size (on_slot v (instances s)))%nat; [|lia].
    apply (size_two_lookups _ a b v w); [done| |].
    + apply on_slot_lookup. split; [done|]. by split.
    + by apply on_slot_lookup.
Qed.

(** C2 (as amended).  Reference-count invariant.  On a state that
    satisfies [slot_counted]: an instance whose kind is not Object has no
    counter; the counter of an Object instance is live, its value is the
    number of instances that share the slot, and it is at least 1 (it
    stays, at 1, with the last instance on the slot, and goes when that
    instance releases); two Object instances that share a slot hold one
    counter, which is then at least 2.  [slot_counted] is preserved by
    release, by copy-assignment (also of an instance to itself), by the
    copy and the move constructor building a new instance, and by
    destruction. *)
Theorem ref_count_invariant (s : host) (this other : nat) :
  slot_counted s ->
  (forall a v, instances s !! a = Some v ->
     (mType v <> OBJECT -> mRefCount v = None)
     /\ (mType v = OBJECT -> forall l, mRefCount v = Some l ->
           exists c, counters s !! l = Some c
             /\ c = Z.of_nat (size (on_slot v (instances s))) /\ 1 <= c)
     /\ (mType v = OBJECT -> forall b w,
           b <> a -> instances s !! b = Some w -> shares_slot v w ->
           exists l c, mRefCount v = Some l /\ mRefCount w = Some l
             /\ counters s !! l = Some c /\ 2 <= c))
  /\ (forall s', release_ref_count this s = Ok (tt, s') -> slot_counted s')
  /\ (forall s', assign this other s = Ok (tt, s') -> slot_counted s')
  /\ (forall s', instances s !! this = None ->
                 copy_construct this other s = Ok (tt, s') -> slot_counted s')
  /\ (forall s', instances s !! this = None -> this <> other ->
                 move_construct this other s = Ok (tt, s') -> slot_counted s')
  /\ (forall s', destroy this s = Ok (tt, s') -> slot_counted s').
Proof.
  intros Hs. split; [intros a v; by apply slot_counted_reads|].
  revert Hs. unfold slot_counted. intros [Hc Hap]%slot_counted_facts; [|lia].
  split; [|split; [|split; [|split]]]; intros s'; intros;
    (apply slot_counted_facts; [lia|]); split.
  - by destruct (release_counted s this s').
  - by eapply release_apart.
  - by eapply assign_counted.
  - by eapply assign_apart.
  - by eapply copy_construct_counted.
  - by eapply copy_construct_apart.
  - by eapply move_construct_counted.
  - by eapply move_construct_apart.
  - by eapply destroy_counted.
  - by eapply destroy_apart.
Qed.

(* ===================================================================== *)
(** ** Type mismatches                                                    *)
(* ===================================================================== *)

Lemma with_ctx_fail {A} ctx (m : Duk A) eng cnt inst h f :
  eng !! ctx = Some h -> m h = Fail f ->
  with_ctx ctx m (MkHost eng cnt inst) = Fail f.
Proof. intros He Hm. unfold with_ctx; simpl. by rewrite He, Hm. Qed.

(** C4.  Type-mismatch contract.  When the type the engine reports for the
    stack position is not in the acceptance mask, [copy_from_stack] and
    [take_from_stack] produce no variant: they stop on the assertion, or,
    when the caller put [DUK_TYPE_MASK_THROW] in the mask, on the error
    Duktape throws from the type check.  An accessor called on a variant
    of another kind stops on its assertion, so an accessor that returns
    has been called on its own kind; the pointer accessor also takes a
    Null variant, and returns the null pointer for it. *)
Theorem type_mismatch_contract (s : host) (ctx : Z) (h : duk_heap)
    (idx mask : Z) (v : DukValue) :
  (engines s !! ctx = Some h ->
   accepts mask (reported_type idx h) = false ->
   let stop := if negb (Z.land mask DUK_TYPE_MASK_THROW =? 0)
               then EngineError else AssertionFailure in
   copy_from_stack ctx idx mask s = Fail stop
   /\ take_from_stack ctx idx mask s = Fail stop
   /\ (Z.land mask DUK_TYPE_MASK_THROW = 0 -> stop = AssertionFailure))
  /\ (mType v <> NUMBER ->
      as_double v = Fail AssertionFailure /\ as_float v = Fail AssertionFailure
      /\ as_int v = Fail AssertionFailure /\ as_uint v = Fail AssertionFailure)
  /\ (mType v <> STRING ->
      as_string v = Fail AssertionFailure
      /\ as_c_string v = Fail AssertionFailure)
  /\ (mType v <> POINTER -> mType v <> NULLREF ->
      as_pointer v = Fail AssertionFailure)
  /\ (mType v = NULLREF -> pod_matches v = true -> as_pointer v = Ok 0)
  /\ (forall k, as_pointer (captured ctx TNull k) = Ok 0).
Proof.
  split; [|split; [|split; [|split; [|split]]]].
  - intros He Hacc stop. destruct s as [eng cnt inst]. cbn [engines] in He.
    assert (copy_from_stack ctx idx mask (MkHost eng cnt inst) = Fail stop) as Hc.
    { unfold copy_from_stack. eapply with_ctx_fail; [done|].
      by apply copy_from_stack_in_rejected. }
    split; [done|]. split.
    + unfold take_from_stack, bind. by rewrite Hc.
    + intros Hz. unfold stop. by rewrite Hz.
  - intros Hty. unfold as_double, as_float, as_int, as_uint.
    by case_decide.
  - intros Hty. unfold as_string, as_c_string. by case_decide.
  - intros Hp Hn. unfold as_pointer. case_decide as Hd; [done|].
    destruct Hd. by split.
  - intros Hty Hpod. unfold as_pointer, pod_matches in *. rewrite Hty in *.
    case_decide as Hd; [by destruct Hd|].
    destruct (mPOD v) as [| | |p|]; try done. simpl.
    apply Z.eqb_eq in Hpod. by subst.
  - intros k. done.
Qed.

(* ===================================================================== *)
(** ** Equality                                                           *)
(* ===================================================================== *)

(** C6.  Equality.  [x == y] answers true only for variants with the same
    engine handle and the same kind, and answers false, touching nothing,
    as soon as either differs.  With both the same: Undefined and Null
    variants are equal; Boolean, Number and Pointer variants compare their
    payloads (doubles as C++ [==] does); String variants compare their
    buffers. *)
Theorem equality_by_kind_and_engine
    (js_equals : duk_heap -> tval -> tval -> bool)
    (x y : DukValue) (s : host) :
  (forall s', equals js_equals x y s = Ok (true, s') ->
              mContext x = mContext y /\ mType x = mType y)
  /\ (mContext x <> mContext y \/ mType x <> mType y ->
      equals js_equals x y s = Ok (false, s))
  /\ (mContext x = mContext y -> mType x = mType y ->
      (mType x = UNDEFINED \/ mType x = NULLREF ->
       equals js_equals x y s = Ok (true, s))
      /\ (forall a b, mType x = BOOLEAN ->
            mPOD x = POD_boolean a -> mPOD y = POD_boolean b ->
            equals js_equals x y s = Ok (Bool.eqb a b, s))
      /\ (forall a b, mType x = NUMBER ->
            mPOD x = POD_number a -> mPOD y = POD_number b ->
            equals js_equals x y s = Ok (Double.eqb a b, s))
      /\ (forall a b, mType x = POINTER ->
            mPOD x = POD_pointer a -> mPOD y = POD_pointer b ->
            equals js_equals x y s = Ok (a =? b, s))
      /\ (mType x = STRING ->
          equals js_equals x y s
          = Ok (bool_decide (mString x = mString y), s))).
Proof.
  split; [|split].
  - intros s' H. unfold equals in H. case_decide as Hd; [by simplify_eq|].
    split.
    + destruct (decide (mContext x = mContext y)); [done|]. destruct Hd. by right.
    + destruct (decide (mType x = mType y)); [done|]. destruct Hd. by left.
  - intros Hd. unfold equals. case_decide as Hd'; [done|].
    destruct Hd'. destruct Hd; [by right|by left].
  - intros Hc Ht.
    assert (forall (k : Host bool),
              (if decide (mType x <> mType y \/ mContext x <> mContext y)
               then ret false else k) = k) as Hif.
    { intros k. case_decide as Hd; [|done]. by destruct Hd. }
    unfold equals. rewrite Hif.
    split; [|split; [|split; [|split]]].
    + by intros [-> | ->].
    + intros a b -> -> ->. done.
    + intros a b -> -> ->. done.
    + intros a b -> -> ->. done.
    + by intros ->.
Qed.

(* ===================================================================== *)
(** ** Numeric accessors                                                  *)
(* ===================================================================== *)

(** [as_uint] is the narrowing to [uint32_t]. *)
Lemma as_uint_narrows (v : DukValue) (d : spec_float) :
  mType v = NUMBER -> mPOD v = POD_number d ->
  as_uint v = Double.to_uint32 d.
Proof. intros Hty Hp. unfold as_uint. rewrite Hty, Hp. by case_decide. Qed.

(** [as_int] agrees with the narrowing to [int32_t] on the doubles whose
    integer part is a non-negative [int]. *)
Lemma as_int_narrows_nonnegative (v : DukValue) (d : spec_float) (n : Z) :
  mType v = NUMBER -> mPOD v = POD_number d ->
  Double.trunc d = Some n -> 0 <= n < Double.two31 ->
  as_int v = Ok n /\ Double.to_int32 d = Ok n.
Proof.
  intros Hty Hp Hn Hr. unfold as_int, Double.to_int32, Double.to_uint32.
  rewrite Hty, Hp, Hn. case_decide; [done|]. cbn [pod_number rbind].
  unfold Double.uint32_to_int32. rewrite Hn.
  assert ((0 <=? n) = true) as -> by (apply Z.leb_le; lia).
  assert ((n <? Double.two32) = true) as ->
    by (apply Z.ltb_lt; unfold Double.two32, Double.two31 in *; lia).
  assert ((- Double.two31 <=? n) = true) as ->
    by (apply Z.leb_le; unfold Double.two31 in *; lia).
  assert ((n <? Double.two31) = true) as Hlt by (apply Z.ltb_lt; lia).
  cbn [andb rbind]. by rewrite !Hlt.
Qed.

(** C7.  Numeric accessor narrowing, evaluated.  [as_int] converts through
    [uint32_t]: on the Number [-1.0], whose narrowing to a signed integer
    is [-1], the conversion to the unsigned type is undefined; on
    [3000000000.0], which no signed 32-bit integer holds, it answers
    [-1294967296].  [as_uint] on [3000000000.0] is the unsigned
    narrowing. *)
Theorem as_int_converts_through_unsigned :
  Double.to_int32 Sample.minus_one = Ok (-1)
  /\ as_int (Sample.number Sample.minus_one) = Fail InvalidAccess
  /\ Double.to_int32 Sample.three_billion = Fail InvalidAccess
  /\ as_int (Sample.number Sample.three_billion) = Ok (-1294967296)
  /\ as_uint (Sample.number Sample.three_billion) = Ok 3000000000.
Proof. repeat split; vm_compute; reflexivity. Qed.

(* ===================================================================== *)
(** ** Strings                                                            *)
(* ===================================================================== *)

(** C9.  String round-trip fidelity.  Capturing a string from the stack
    succeeds, changes nothing, and gives a String variant whose buffer is
    the string's bytes, all of them; pushing that variant puts a string
    with exactly those bytes on top of the stack. *)
Theorem string_round_trip (eng : gmap Z duk_heap) (cnt : gmap nat Z)
    (inst : gmap nat DukValue) (ctx : Z) (h : duk_heap)
    (idx mask : Z) (bytes : list byte) :
  eng !! ctx = Some h ->
  stack_at idx (h_stack h) = Some (TString bytes) ->
  accepts mask STRING = true ->
  exists A,
    copy_from_stack ctx idx mask (MkHost eng cnt inst)
    = Ok (A, MkHost eng cnt inst)
    /\ mType A = STRING
    /\ mString A = bytes
    /\ length (mString A) = length bytes
    /\ as_string A = Ok bytes
    /\ push A (MkHost eng cnt inst)
       = Ok (tt, MkHost (<[ctx := set_stack (TString bytes :: h_stack h) h]> eng)
                        cnt inst).
Proof.
  intros He Hv Hacc. exists (captured ctx (TString bytes) 0).
  split.
  { unfold copy_from_stack.
    erewrite step_with_ctx;
      [|done|by apply (copy_from_stack_in_value _ _ _ _ (TString bytes))].
    by rewrite insert_id. }
  do 4 (split; [done|]).
  unfold push. eapply step_with_ctx; [done|].
  by apply (push_in_captured ctx (TString bytes)).
Qed.

(* ===================================================================== *)
(** ** Stack balance                                                      *)
(* ===================================================================== *)

Lemma set_stack_id h : set_stack (h_stack h) h = h.
Proof. by destruct h. Qed.

(** [push] of a well-formed variant, on an engine whose ref array is
    there: one value more, nothing else changed. *)
Lemma push_in_spec v h r arr :
  supported (mType v) = true -> pod_matches v = true ->
  refs_at h r arr ->
  push_in v h = Ok (tt, set_stack (pushed_value v arr :: h_stack h) h).
Proof.
  intros Hs Hp Hat. destruct (decide (mType v = OBJECT)) as [Hty|Hty].
  - unfold pod_matches, pushed_value in *. rewrite Hty in *.
    destruct (mPOD v) as [| | | |i] eqn:Hpod; try done.
    by apply (push_in_object v i h r arr).
  - unfold push_in, pod_matches, pushed_value in *.
    destruct (mType v) eqn:Ht; try done; destruct (mPOD v); try done.
    all: unfold duk_push_lstring; by rewrite take_length.
Qed.

Lemma push_spec eng cnt inst v h r arr :
  eng !! mContext v = Some h ->
  supported (mType v) = true -> pod_matches v = true ->
  refs_at h r arr ->
  push v (MkHost eng cnt inst)
  = Ok (tt, MkHost (<[mContext v := set_stack (pushed_value v arr :: h_stack h) h]> eng)
                   cnt inst).
Proof.
  intros He Hs Hp Hat. unfold push. eapply step_with_ctx; [done|].
  by apply (push_in_spec v h r arr).
Qed.

Lemma replicate_shift {A} n (x : A) (l : list A) :
  replicate n x ++ x :: l = replicate (S n) x ++ l.
Proof. induction n as [|n IH]; [done|]. cbn [replicate app] in *. by rewrite IH. Qed.

Lemma push_times_spec n : forall eng cnt inst v h r arr,
  eng !! mContext v = Some h ->
  supported (mType v) = true -> pod_matches v = true ->
  refs_at h r arr ->
  push_times n v (MkHost eng cnt inst)
  = Ok (tt, MkHost (<[mContext v :=
                      set_stack (replicate n (pushed_value v arr) ++ h_stack h) h]> eng)
                   cnt inst).
Proof.
  induction n as [|n IH]; intros eng cnt inst v h r arr He Hs Hp Hat.
  - cbn [push_times replicate app]. rewrite set_stack_id.
    by rewrite insert_id.
  - cbn [push_times]. unfold bind.
    rewrite (push_spec _ _ _ _ _ _ _ He Hs Hp Hat).
    rewrite (IH _ _ _ _ (set_stack (pushed_value v arr :: h_stack h) h) r arr);
      [|apply lookup_insert_eq|done|done|by apply refs_at_set_stack].
    rewrite insert_insert_eq. cbn [h_stack set_stack].
    do 4 f_equal. unfold set_stack; cbn [h_objs h_stash]. f_equal.
    apply replicate_shift.
Qed.

Lemma object_value val : type_of val = OBJECT -> exists o, val = TObject o.
Proof. destruct val; try done. eauto. Qed.

(** Capture leaves the stack as it is. *)
Lemma copy_from_stack_stack eng cnt inst ctx h idx mask val :
  eng !! ctx = Some h -> refs_ok h ->
  stack_at idx (h_stack h) = Some val ->
  accepts mask (type_of val) = true ->
  exists A h1,
    copy_from_stack ctx idx mask (MkHost eng cnt inst)
    = Ok (A, MkHost (<[ctx := h1]> eng) cnt inst)
    /\ h_stack h1 = h_stack h
    /\ mContext A = ctx /\ mType A = type_of val.
Proof.
  intros He Hok Hv Hacc. unfold copy_from_stack.
  destruct (decide (type_of val = OBJECT)) as [Hty|Hty].
  - destruct (object_value _ Hty) as [o ->].
    destruct (ensure_ref_array_refs h Hok) as (r & arr & Hat).
    eexists _, _. split.
    + eapply step_with_ctx; [done|].
      rewrite copy_from_stack_in_ensure;
        [|done|by rewrite (reported_type_at _ _ _ Hv)].
      apply (copy_from_stack_in_object _ _ _ _ o r arr);
        [by rewrite ensure_ref_array_stack|done|done].
    + cbn [set_obj h_stack]. by rewrite ensure_ref_array_stack.
  - exists (captured ctx val 0), h. split.
    + eapply step_with_ctx; [done|]. by apply copy_from_stack_in_value.
    + split; [done|]. by destruct val.
Qed.

Lemma step_remove idx h val :
  stack_at idx (h_stack h) = Some val ->
  exists p, h_stack h !! p = Some val
       /\ duk_remove idx h = Ok (tt, set_stack (delete p (h_stack h)) h).
Proof.
  unfold stack_at, duk_remove. intros Hv.
  destruct (stack_pos idx (h_stack h)) as [p|]; [|done].
  exists p. split; [done|]. by rewrite Hv.
Qed.

(** [operator==] on two Objects of one engine: both values are pushed,
    compared by the engine, and popped. *)
Lemma equals_objects js eng cnt inst v y h r arr :
  eng !! mContext v = Some h -> mContext y = mContext v ->
  mType v = OBJECT -> mType y = OBJECT ->
  pod_matches v = true -> pod_matches y = true ->
  refs_at h r arr ->
  equals js v y (MkHost eng cnt inst)
  = Ok (js (set_stack (pushed_value y arr :: pushed_value v arr :: h_stack h) h)
           (pushed_value y arr) (pushed_value v arr),
        MkHost eng cnt inst).
Proof.
  intros He Hctx Htv Hty Hpv Hpy Hat. unfold equals.
  case_decide as Hd; [destruct Hd; congruence|]. rewrite Htv. unfold bind.
  rewrite (push_spec _ _ _ _ _ _ _ He) by (by rewrite ?Htv).
  erewrite (push_spec _ _ _ y _ r arr);
    [|by rewrite Hctx; apply lookup_insert_eq|by rewrite Hty|done
     |by apply refs_at_set_stack].
  rewrite Hctx, insert_insert_eq. cbn [h_stack set_stack].
  erewrite step_with_ctx; [|apply lookup_insert_eq|reflexivity].
  rewrite insert_insert_eq.
  erewrite step_with_ctx; [|apply lookup_insert_eq|reflexivity].
  rewrite insert_insert_eq. unfold ret, set_stack; cbn [h_objs h_stash h_stack].
  do 2 f_equal. f_equal. destruct h as [objs stash st]; cbn [h_objs h_stash h_stack].
  by rewrite insert_id.
Qed.

(** C8.  Stack balance.  On the engine [ctx] designates, with stack [st]:
    - capturing the value at a valid, accepted position succeeds; after
      [copy_from_stack] the stack is [st]; after [take_from_stack] the
      stack is [st] without the value at that position, one shorter,
      whatever the kind;
    - pushing a well-formed variant of one of the seven kinds succeeds
      and puts exactly one value on [st]; the variant, the counters and
      every heap object (so the ref array and its slot) are as before,
      and [n] pushes in a row put [n] copies of that value on [st];
    - comparing two Objects of the engine succeeds and leaves the whole
      state, the stack included, as it was;
    - releasing a slot ([free_ref], which destruction and assignment run)
      succeeds and leaves the stack [st]. *)
Theorem stack_balance (js_equals : duk_heap -> tval -> tval -> bool)
    (eng : gmap Z duk_heap) (cnt : gmap nat Z) (inst : gmap nat DukValue)
    (ctx : Z) (h : duk_heap) (idx mask : Z) (val : tval)
    (v y : DukValue) (r : nat) (arr : hobject) (n : nat) :
  eng !! ctx = Some h ->
  (refs_ok h -> stack_at idx (h_stack h) = Some val ->
   accepts mask (type_of val) = true ->
   (exists A h1,
      copy_from_stack ctx idx mask (MkHost eng cnt inst)
      = Ok (A, MkHost (<[ctx := h1]> eng) cnt inst)
      /\ h_stack h1 = h_stack h)
   /\ (exists A h1 p,
         take_from_stack ctx idx mask (MkHost eng cnt inst)
         = Ok (A, MkHost (<[ctx := h1]> eng) cnt inst)
         /\ h_stack h !! p = Some val
         /\ h_stack h1 = delete p (h_stack h)
         /\ S (length (h_stack h1)) = length (h_stack h)))
  /\ (mContext v = ctx -> supported (mType v) = true ->
      pod_matches v = true -> refs_at h r arr ->
      push v (MkHost eng cnt inst)
      = Ok (tt, MkHost (<[ctx := set_stack (pushed_value v arr :: h_stack h) h]> eng)
                       cnt inst)
      /\ push_times n v (MkHost eng cnt inst)
         = Ok (tt, MkHost (<[ctx := set_stack
                                      (replicate n (pushed_value v arr) ++ h_stack h)
                                      h]> eng)
                          cnt inst))
  /\ (mContext v = ctx -> mContext y = ctx ->
      mType v = OBJECT -> mType y = OBJECT ->
      pod_matches v = true -> pod_matches y = true -> refs_at h r arr ->
      exists b, equals js_equals v y (MkHost eng cnt inst)
                = Ok (b, MkHost eng cnt inst))
  /\ (refs_ok h ->
      forall k, exists h1,
        free_ref k h = Ok (tt, h1) /\ h_stack h1 = h_stack h).
Proof.
  intros He. split; [|split; [|split]].
  - intros Hok Hv Hacc.
    destruct (copy_from_stack_stack eng cnt inst ctx h idx mask val He Hok Hv Hacc)
      as (A & h1 & Hcopy & Hst & _). split; [by exists A, h1|].
    assert (stack_at idx (h_stack h1) = Some val) as Hv1 by (by rewrite Hst).
    destruct (step_remove idx h1 val Hv1) as (p & Hp & Hrem).
    exists (moved A), (set_stack (delete p (h_stack h1)) h1), p.
    rewrite Hst in Hp. split; [|split; [done|split]].
    + unfold take_from_stack, bind. rewrite Hcopy. hnext.
      erewrite step_with_ctx; [|apply lookup_insert_eq|exact Hrem].
      by rewrite insert_insert_eq.
    + cbn [set_stack h_stack]. by rewrite Hst.
    + cbn [set_stack h_stack]. rewrite Hst.
      rewrite length_delete by eauto.
      apply lookup_lt_Some in Hp. lia.
  - intros <- Hs Hp Hat. split.
    + by apply (push_spec _ _ _ _ _ r).
    + by apply (push_times_spec _ _ _ _ _ _ r).
  - intros <- Hy Htv Hty Hpv Hpy Hat. eexists.
    by apply (equals_objects js_equals eng cnt inst v y h r arr).
  - intros Hok k. destruct (free_ref_ok h k Hok) as (r' & arr' & _ & Hfree).
    eexists. split; [exact Hfree|].
    cbn [set_obj h_stack]. apply ensure_ref_array_stack.
Qed.

(* ===================================================================== *)
(** ** The operations return                                              *)
(* ===================================================================== *)

(** The invariant is stated on the states the operations return; on a
    state that satisfies it, whose Object instances designate slots of
    engines that are there and whose counters are below [INT_MAX], they do
    return. *)

Lemma release_returns s this :
  counted s -> engines_ready s -> is_Some (instances s !! this) ->
  exists s', release_ref_count this s = Ok (tt, s').
Proof.
  unfold counted. intros Hc Hr [v Hv]. apply counted_from_facts in Hc; [|lia].
  destruct s as [eng cnt inst]. cbn [instances] in Hv.
  destruct (decide (mType v = OBJECT)) as [Hty|Hty].
  2:{ eexists. by eapply release_other. }
  destruct (Hr this v Hv Hty) as ((i & Hp) & h & He & Hok).
  cbn [engines] in He.
  destruct (free_ref_ok h i Hok) as (r & arr & _ & Hfree).
  destruct (mRefCount v) as [l|] eqn:Hrc.
  - destruct (cf_live _ _ _ _ _ Hc Hv Hrc) as [c Hl]. cbn [counters] in Hl.
    destruct (Z.lt_ge_cases 1 c).
    + eexists. by eapply release_shared.
    + eexists. by eapply release_last.
  - eexists. by eapply release_sole.
Qed.

Lemma destroy_returns s this :
  counted s -> engines_ready s -> is_Some (instances s !! this) ->
  exists s', destroy this s = Ok (tt, s').
Proof.
  intros Hc Hr Hv. destruct (release_returns s this Hc Hr Hv) as [s1 H1].
  eexists. by apply destroy_unfold.
Qed.

Lemma release_bounded s this s' :
  counted s -> counters_bounded s ->
  release_ref_count this s = Ok (tt, s') -> counters_bounded s'.
Proof.
  intros _ Hb H. destruct s as [eng cnt inst].
  apply release_inv in H as (v & Hv & Hcase). unfold counters_bounded in *.
  cbn [counters] in *.
  destruct Hcase as [[Hty ->]|[(Hty & Hrc & eng' & ->)|
    [(Hty & l & c & Hrc & Hl & Hlt & ->)|(Hty & l & c & eng' & Hrc & Hl & Hle & ->)]]];
    cbn [counters]; try done.
  - intros l0 c0. destruct (decide (l0 = l)) as [->|Hne].
    + rewrite lookup_insert_eq. intros; simplify_eq. specialize (Hb _ _ Hl). lia.
    + rewrite lookup_insert_ne by done. apply Hb.
  - intros l0 c0 Hx. apply lookup_delete_Some in Hx as [_ Hx]. by eapply Hb.
Qed.

Lemma assign_returns s this rhs :
  counted s -> engines_ready s -> counters_bounded s ->
  is_Some (instances s !! this) -> is_Some (instances s !! rhs) ->
  exists s', assign this rhs s = Ok (tt, s').
Proof.
  intros Hc Hr Hb Hthis [r0 Hrhs].
  destruct (release_returns s this Hc Hr Hthis) as [[eng cnt inst] Hrel].
  pose proof (release_bounded _ _ _ Hc Hb Hrel) as Hb1.
  unfold counted in Hc. apply counted_from_facts in Hc; [|lia].
  destruct (release_counted _ _ _ Hc Hrel) as (Hc1 & v & Hv & Hinst & Hgo & Hgrc).
  cbn [instances] in Hinst.
  assert (inst !! this = Some (let_go v)) as Ht
    by (rewrite Hinst; apply lookup_insert_eq).
  assert (exists r, inst !! rhs = Some r) as [r Hr1].
  { destruct (decide (rhs = this)) as [->|Hne]; [eauto|].
    exists r0. rewrite Hinst. by rewrite lookup_insert_ne. }
  destruct (decide (mType r = OBJECT)) as [Hty|Hty].
  2:{ eexists. by eapply assign_plain. }
  assert (this <> rhs) as Hne by (intros ->; congruence).
  destruct (mRefCount r) as [l|] eqn:Hrc.
  - destruct (cf_live _ _ _ _ _ Hc1 Hr1 Hrc) as [c Hl]. cbn [counters] in Hl.
    pose proof (cf_least _ _ Hc1 l c Hl) as Hge. cbn [counters] in Hge.
    pose proof (Hb1 l c Hl) as Hlt. unfold Double.two31 in *.
    eexists. eapply assign_object_again; try done. unfold Double.two31. lia.
  - eexists. by eapply assign_object_first.
Qed.

Lemma store_default_counted eng cnt inst this :
  counted (MkHost eng cnt inst) -> inst !! this = None ->
  counted (MkHost eng cnt (<[this := default_value]> inst)).
Proof.
  unfold counted. intros Hc Hnew. apply counted_from_facts in Hc; [|lia].
  apply counted_from_facts; [lia|].
  eapply counted_from_insert; [exact Hc|done| | |done].
  - intros l. by rewrite Hnew.
  - apply (cf_least _ _ Hc).
Qed.

Lemma copy_construct_returns s this copy :
  counted s -> engines_ready s -> counters_bounded s ->
  instances s !! this = None -> is_Some (instances s !! copy) ->
  exists s', copy_construct this copy s = Ok (tt, s').
Proof.
  intros Hc Hr Hb Hnew [r Hcopy]. destruct s as [eng cnt inst].
  cbn [instances] in *.
  assert (this <> copy) as Hne by (intros ->; congruence).
  unfold copy_construct, bind. rewrite step_store. hnext.
  apply assign_returns.
  - by apply store_default_counted.
  - intros a v Hv Hty. cbn [instances engines] in *.
    destruct (decide (a = this)) as [->|Ha].
    + rewrite lookup_insert_eq in Hv. by simplify_eq.
    + rewrite lookup_insert_ne in Hv by done. by apply (Hr a v).
  - done.
  - cbn [instances]. rewrite lookup_insert_eq. eauto.
  - cbn [instances]. rewrite lookup_insert_ne by done. eauto.
Qed.

Lemma move_construct_returns s this move :
  this <> move -> is_Some (instances s !! move) ->
  exists s', move_construct this move s = Ok (tt, s').
Proof.
  intros Hne [A HA]. destruct s as [eng cnt inst]. eexists.
  by apply move_construct_spec.
Qed.

(** The first use of an engine creates the ref array, and the first slot
    handed out is 1. *)
Example first_allocation :
  ref_array_absent Sample.unused_heap
  /\ exists h', stash_ref (-1) Sample.unused_heap = Ok (1, h')
              /\ ref_array h' = Some (put_index 1 (TObject 6%nat) fresh_ref_array).
Proof.
  split; [vm_compute; reflexivity|]. eexists. split; vm_compute; reflexivity.
Qed.

(* ===================================================================== *)
(** ** The statements on the sample states                                *)
(* ===================================================================== *)

Lemma sample_refs_at : refs_at Sample.heap 1%nat Sample.refs.
Proof. split; vm_compute; reflexivity. Defined.

Lemma sample_refs_ok : refs_ok Sample.heap.
Proof. right. exists 1%nat, Sample.refs. exact sample_refs_at. Defined.

(** On the sample heap, whose free list is empty and whose array has
    length 2: an allocation appends at index 2, and an allocation after
    slot 1 was freed returns 1. *)
Lemma free_list_protocol_witness :
  refs_ok Sample.heap
  /\ refs_at (ensure_ref_array Sample.heap) 1%nat Sample.refs
  /\ stack_at (-1) (h_stack Sample.heap) = Some (TObject 6%nat)
  /\ 1 <= o_length Sample.refs < Double.two32
  /\ 1 <= 1 < Double.two32
  /\ (exists h', stash_ref (-1) Sample.heap = Ok (2, h'))
  /\ (exists h', (free_ref 1 ;;; stash_ref (-1)) Sample.heap = Ok (1, h')).
Proof.
  assert (refs_at (ensure_ref_array Sample.heap) 1%nat Sample.refs) as Hat
    by (split; vm_compute; reflexivity).
  assert (stack_at (-1) (h_stack Sample.heap) = Some (TObject 6%nat)) as Hv
    by reflexivity.
  assert (1 <= o_length Sample.refs < Double.two32) as Hlen
    by (vm_compute; split; [discriminate|reflexivity]).
  assert (1 <= 1 < Double.two32) as HK
    by (vm_compute; split; [discriminate|reflexivity]).
  destruct (free_list_protocol Sample.heap 1%nat Sample.refs (-1)
              (TObject 6%nat) 1 sample_refs_ok Hat Hv Hlen)
    as (Halloc & _ & _ & Hreuse).
  destruct (Hreuse HK) as (arr' & Hre & _).
  repeat (split; [assumption || exact sample_refs_ok|]).
  split; eexists; [exact Halloc|exact Hre].
Defined.

Lemma sample_engine : engines Sample.state !! Sample.ctx = Some Sample.heap.
Proof. vm_compute. reflexivity. Defined.

(** The lifecycle on the sample state: the object on top of the stack is
    captured into a slot, shared by three instances, two of which are
    destroyed; once the third is destroyed the next allocation returns
    that slot. *)
Lemma shared_ownership_lifecycle_witness :
  ({[ Sample.ctx := Sample.heap ]} : gmap Z duk_heap) !! Sample.ctx
  = Some Sample.heap
  /\ refs_ok Sample.heap
  /\ refs_at (ensure_ref_array Sample.heap) 1%nat Sample.refs
  /\ 1 <= o_length Sample.refs < Double.two32
  /\ stack_at (-1) (h_stack Sample.heap) = Some (TObject 6%nat)
  /\ accepts accept_all OBJECT = true
  /\ 1%nat <> 2%nat /\ 1%nat <> 3%nat /\ 2%nat <> 3%nat
  /\ exists A K s1 s2 C s3 h3,
       copy_from_stack Sample.ctx (-1) accept_all Sample.state = Ok (A, s1)
       /\ mPOD A = POD_ref_array_idx K /\ K <> 0
       /\ (store 1%nat A ;;; copy_construct 2%nat 1%nat ;;;
           copy_construct 3%nat 2%nat ;;; destroy 1%nat ;;; destroy 2%nat) s1
          = Ok (tt, s2)
       /\ instances s2 !! 3%nat = Some C
       /\ destroy 3%nat s2 = Ok (tt, s3)
       /\ engines s3 !! Sample.ctx = Some h3
       /\ exists h4, stash_ref (-1) h3 = Ok (K, h4).
Proof.
  assert (({[ Sample.ctx := Sample.heap ]} : gmap Z duk_heap) !! Sample.ctx
          = Some Sample.heap) as He by (vm_compute; reflexivity).
  assert (refs_at (ensure_ref_array Sample.heap) 1%nat Sample.refs) as Hat
    by (split; vm_compute; reflexivity).
  assert (1 <= o_length Sample.refs < Double.two32) as Hlen
    by (vm_compute; split; [discriminate|reflexivity]).
  assert (stack_at (-1) (h_stack Sample.heap) = Some (TObject 6%nat)) as Hv
    by reflexivity.
  assert (accepts accept_all OBJECT = true) as Hacc by (vm_compute; reflexivity).
  assert (1%nat <> 2%nat) as H12 by discriminate.
  assert (1%nat <> 3%nat) as H13 by discriminate.
  assert (2%nat <> 3%nat) as H23 by discriminate.
  destruct (shared_ownership_lifecycle
              {[ Sample.ctx := Sample.heap ]} ∅ {[ 100%nat := Sample.owner ]}
              Sample.ctx Sample.heap 1%nat Sample.refs (-1) accept_all
              6%nat 1%nat 2%nat 3%nat
              He sample_refs_ok Hat Hlen Hv Hacc H12 H13 H23)
    as (A & K & s1 & h1 & arr1 & s2 & C & s3 & h3 & arr3 & Hcap & _ & HK & HK0
        & Hseq & _ & _ & _ & _ & HC & _ & _ & _ & Hd & _ & _ & He3 & Hst3
        & _ & _ & Hnext).
  repeat (split; [assumption || exact sample_refs_ok|]).
  exists A, K, s1, s2, C, s3, h3.
  split; [exact Hcap|]. split; [exact HK|]. split; [exact HK0|].
  split; [exact Hseq|].
  split; [exact HC|]. split; [exact Hd|]. split; [exact He3|].
  apply (Hnext (-1) (TObject 6%nat)). rewrite Hst3. reflexivity.
Defined.

Lemma sample_shared_counted : counted Sample.shared.
Proof. apply (bool_decide_unpack _). vm_compute. reflexivity. Defined.

Lemma sample_shared_slot_counted : slot_counted Sample.shared.
Proof. apply (bool_decide_unpack _). vm_compute. reflexivity. Defined.

(** Releasing one of the two sharers of the sample state keeps the
    invariant. *)
Lemma ref_count_invariant_witness :
  slot_counted Sample.shared
  /\ release_ref_count 100%nat Sample.shared = Ok (tt, Sample.shared_released)
  /\ slot_counted Sample.shared_released.
Proof.
  assert (release_ref_count 100%nat Sample.shared
          = Ok (tt, Sample.shared_released)) as Hrel
    by (vm_compute; reflexivity).
  split; [exact sample_shared_slot_counted|]. split; [exact Hrel|].
  exact (proj1 (proj2 (ref_count_invariant Sample.shared 100%nat 101%nat
                         sample_shared_slot_counted)) _ Hrel).
Defined.

(** C2, as the specification words it, fails: with two instances sharing a
    slot, the counter is 2 and the invariant with "at least 2" holds;
    releasing one of them succeeds and leaves the other, now the only
    instance on the slot, still holding the counter, at 1.  The invariant
    with "at least 1" holds of that state, the one with "at least 2" does
    not. *)
Lemma ref_count_kept_at_one :
  counted_as_specified Sample.shared
  /\ release_ref_count 100%nat Sample.shared = Ok (tt, Sample.shared_released)
  /\ instances Sample.shared_released !! 101%nat = Some Sample.sharer
  /\ mType Sample.sharer = OBJECT
  /\ mRefCount Sample.sharer = Some 0%nat
  /\ size (on_slot Sample.sharer (instances Sample.shared_released)) = 1%nat
  /\ counters Sample.shared_released !! 0%nat = Some 1
  /\ slot_counted Sample.shared_released
  /\ ~ counted_as_specified Sample.shared_released.
Proof.
  split; [apply (bool_decide_unpack _); vm_compute; reflexivity|].
  split; [vm_compute; reflexivity|].
  split; [vm_compute; reflexivity|].
  split; [reflexivity|]. split; [reflexivity|].
  split; [vm_compute; reflexivity|].
  split; [vm_compute; reflexivity|].
  split; [apply (bool_decide_unpack _); vm_compute; reflexivity|].
  apply (bool_decide_eq_false_1 (counted_as_specified Sample.shared_released)).
  vm_compute. reflexivity.
Qed.

(** A Number asked for as a string, and an object captured with a mask
    that only admits numbers. *)
Lemma type_mismatch_contract_witness :
  engines Sample.state !! Sample.ctx = Some Sample.heap
  /\ accepts (type_mask NUMBER) (reported_type (-1) Sample.heap) = false
  /\ Z.land (type_mask NUMBER) DUK_TYPE_MASK_THROW = 0
  /\ mType (Sample.number Sample.minus_one) <> STRING
  /\ copy_from_stack Sample.ctx (-1) (type_mask NUMBER) Sample.state
     = Fail AssertionFailure
  /\ as_string (Sample.number Sample.minus_one) = Fail AssertionFailure.
Proof.
  assert (accepts (type_mask NUMBER) (reported_type (-1) Sample.heap) = false)
    as Hacc by (vm_compute; reflexivity).
  assert (Z.land (type_mask NUMBER) DUK_TYPE_MASK_THROW = 0) as Hthrow
    by (vm_compute; reflexivity).
  assert (mType (Sample.number Sample.minus_one) <> STRING) as Hty
    by discriminate.
  destruct (type_mismatch_contract Sample.state Sample.ctx Sample.heap (-1)
              (type_mask NUMBER) (Sample.number Sample.minus_one))
    as (Hcap & _ & Hstr & _).
  destruct (Hcap sample_engine Hacc) as (Hc & _ & Hstop).
  split; [exact sample_engine|]. split; [exact Hacc|]. split; [exact Hthrow|].
  split; [exact Hty|]. split.
  - rewrite <- (Hstop Hthrow). exact Hc.
  - exact (proj1 (Hstr Hty)).
Defined.

(** Moving one of the two sharers of the sample state to address 102. *)
Lemma move_leaves_source_empty_witness :
  instances Sample.shared !! 100%nat = Some Sample.sharer
  /\ 102%nat <> 100%nat
  /\ exists s' B A',
       move_construct 102%nat 100%nat Sample.shared = Ok (tt, s')
       /\ instances s' !! 102%nat = Some B
       /\ mRefCount B = mRefCount Sample.sharer
       /\ counters s' = counters Sample.shared
       /\ instances s' !! 100%nat = Some A'
       /\ mType A' = UNDEFINED.
Proof.
  assert (instances Sample.shared !! 100%nat = Some Sample.sharer) as HA
    by (vm_compute; reflexivity).
  assert (102%nat <> 100%nat) as Hne by discriminate.
  destruct (move_leaves_source_empty (engines Sample.shared)
              (counters Sample.shared) (instances Sample.shared)
              102%nat 100%nat Sample.sharer HA Hne)
    as (s' & B & A' & s'' & Hm & HB & _ & _ & _ & _ & Hrc & Hcnt & _ & HA'
        & Hty & _).
  split; [exact HA|]. split; [exact Hne|].
  exists s', B, A'. repeat split; assumption.
Defined.

(** The two cases the specification names: equal numbers of different
    engines, and a Boolean against a Number. *)
Lemma equality_by_kind_and_engine_witness :
  (mContext (Sample.number Sample.minus_one)
   <> mContext (MkDukValue 8192 NUMBER (POD_number Sample.minus_one) [] None)
   \/ mType (Sample.number Sample.minus_one)
      <> mType (MkDukValue 8192 NUMBER (POD_number Sample.minus_one) [] None))
  /\ equals Sample.same_value (Sample.number Sample.minus_one)
       (MkDukValue 8192 NUMBER (POD_number Sample.minus_one) [] None)
       Sample.state
     = Ok (false, Sample.state)
  /\ (mContext (MkDukValue Sample.ctx BOOLEAN (POD_boolean true) [] None)
      <> mContext (Sample.number (Double.of_Z 1))
      \/ mType (MkDukValue Sample.ctx BOOLEAN (POD_boolean true) [] None)
         <> mType (Sample.number (Double.of_Z 1)))
  /\ equals Sample.same_value
       (MkDukValue Sample.ctx BOOLEAN (POD_boolean true) [] None)
       (Sample.number (Double.of_Z 1)) Sample.state
     = Ok (false, Sample.state).
Proof.
  assert (mContext (Sample.number Sample.minus_one)
          <> mContext (MkDukValue 8192 NUMBER (POD_number Sample.minus_one) [] None)
          \/ mType (Sample.number Sample.minus_one)
             <> mType (MkDukValue 8192 NUMBER (POD_number Sample.minus_one) [] None))
    as H1 by (left; discriminate).
  assert (mContext (MkDukValue Sample.ctx BOOLEAN (POD_boolean true) [] None)
          <> mContext (Sample.number (Double.of_Z 1))
          \/ mType (MkDukValue Sample.ctx BOOLEAN (POD_boolean true) [] None)
             <> mType (Sample.number (Double.of_Z 1)))
    as H2 by (right; discriminate).
  split; [exact H1|]. split.
  - exact (proj1 (proj2 (equality_by_kind_and_engine Sample.same_value _ _
                           Sample.state)) H1).
  - split; [exact H2|].
    exact (proj1 (proj2 (equality_by_kind_and_engine Sample.same_value _ _
                           Sample.state)) H2).
Defined.

Lemma sample_owner_engine :
  ({[ Sample.ctx := Sample.heap ]} : gmap Z duk_heap) !! Sample.ctx
  = Some Sample.heap.
Proof. vm_compute. reflexivity. Defined.

(** On the sample state: the string under the top of the stack is taken,
    the owner of slot 1 is pushed three times, and compared with itself. *)
Lemma stack_balance_witness :
  ({[ Sample.ctx := Sample.heap ]} : gmap Z duk_heap) !! Sample.ctx
  = Some Sample.heap
  /\ refs_ok Sample.heap
  /\ stack_at (-2) (h_stack Sample.heap) = Some (TString Sample.text_bytes)
  /\ accepts accept_all (type_of (TString Sample.text_bytes)) = true
  /\ mContext Sample.owner = Sample.ctx
  /\ supported (mType Sample.owner) = true
  /\ pod_matches Sample.owner = true
  /\ mType Sample.owner = OBJECT
  /\ refs_at Sample.heap 1%nat Sample.refs
  /\ (exists A h1,
        take_from_stack Sample.ctx (-2) accept_all Sample.state
        = Ok (A, MkHost (<[Sample.ctx := h1]> {[ Sample.ctx := Sample.heap ]})
                        ∅ {[ 100%nat := Sample.owner ]})
        /\ S (length (h_stack h1)) = length (h_stack Sample.heap))
  /\ push_times 3 Sample.owner Sample.state
     = Ok (tt, MkHost (<[Sample.ctx :=
                          set_stack (replicate 3 (TObject 5%nat)
                                       ++ h_stack Sample.heap) Sample.heap]>
                         {[ Sample.ctx := Sample.heap ]})
                      ∅ {[ 100%nat := Sample.owner ]})
  /\ exists b, equals Sample.same_value Sample.owner Sample.owner Sample.state
               = Ok (b, Sample.state).
Proof.
  assert (stack_at (-2) (h_stack Sample.heap) = Some (TString Sample.text_bytes))
    as Hv by reflexivity.
  assert (accepts accept_all (type_of (TString Sample.text_bytes)) = true)
    as Hacc by (vm_compute; reflexivity).
  assert (mContext Sample.owner = Sample.ctx) as Hctx by reflexivity.
  assert (supported (mType Sample.owner) = true) as Hs by reflexivity.
  assert (pod_matches Sample.owner = true) as Hp by reflexivity.
  assert (mType Sample.owner = OBJECT) as Hty by reflexivity.
  destruct (stack_balance Sample.same_value
              {[ Sample.ctx := Sample.heap ]} ∅ {[ 100%nat := Sample.owner ]}
              Sample.ctx Sample.heap (-2) accept_all
              (TString Sample.text_bytes) Sample.owner Sample.owner
              1%nat Sample.refs 3%nat sample_owner_engine)
    as (Hcap & Hpush & Heq & _).
  destruct (Hcap sample_refs_ok Hv Hacc) as (_ & A & h1 & p & Htake & _ & _ & Hlen).
  destruct (Hpush Hctx Hs Hp sample_refs_at) as (_ & Hpushes).
  destruct (Heq Hctx Hctx Hty Hty Hp Hp sample_refs_at) as (b & Hb).
  split; [exact sample_owner_engine|]. split; [exact sample_refs_ok|].
  split; [exact Hv|]. split; [exact Hacc|]. split; [exact Hctx|].
  split; [exact Hs|]. split; [exact Hp|]. split; [exact Hty|].
  split; [exact sample_refs_at|].
  split; [exists A, h1; split; [exact Htake|exact Hlen]|].
  split; [exact Hpushes|]. exists b. exact Hb.
Defined.

(** The sample string holds a zero byte and two bytes above 127; it comes
    back byte for byte, four bytes long. *)
Lemma string_round_trip_witness :
  ({[ Sample.ctx := Sample.heap ]} : gmap Z duk_heap) !! Sample.ctx
  = Some Sample.heap
  /\ stack_at (-2) (h_stack Sample.heap) = Some (TString Sample.text_bytes)
  /\ accepts accept_all STRING = true
  /\ Sample.text_bytes = [x61; x00; xc3; xa9]
  /\ exists A,
       copy_from_stack Sample.ctx (-2) accept_all Sample.state
       = Ok (A, Sample.state)
       /\ mString A = Sample.text_bytes
       /\ length (mString A) = 4%nat
       /\ push A Sample.state
          = Ok (tt, MkHost (<[Sample.ctx :=
                               set_stack (TString Sample.text_bytes
                                            :: h_stack Sample.heap) Sample.heap]>
                              {[ Sample.ctx := Sample.heap ]})
                           ∅ {[ 100%nat := Sample.owner ]}).
Proof.
  assert (stack_at (-2) (h_stack Sample.heap) = Some (TString Sample.text_bytes))
    as Hv by reflexivity.
  assert (accepts accept_all STRING = true) as Hacc by (vm_compute; reflexivity).
  destruct (string_round_trip {[ Sample.ctx := Sample.heap ]} ∅
              {[ 100%nat := Sample.owner ]} Sample.ctx Sample.heap (-2)
              accept_all Sample.text_bytes sample_owner_engine Hv Hacc)
    as (A & Hcap & _ & Hstr & Hlen & _ & Hpush).
  split; [exact sample_owner_engine|]. split; [exact Hv|].
  split; [exact Hacc|]. split; [reflexivity|].
  exists A. split; [exact Hcap|]. split; [exact Hstr|].
  split; [exact Hlen|exact Hpush].
Defined.

(** The owner of slot 1 assigned to itself: the slot is freed and the
    instance is left Undefined. *)
Lemma self_assignment_witness :
  instances Sample.state !! 100%nat = Some Sample.owner
  /\ mType Sample.owner = OBJECT
  /\ mRefCount Sample.owner = None
  /\ mPOD Sample.owner = POD_ref_array_idx 1
  /\ engines Sample.state !! mContext Sample.owner = Some Sample.heap
  /\ refs_at Sample.heap 1%nat Sample.refs
  /\ assign 100%nat 100%nat Sample.state
     = Ok (tt, MkHost (<[Sample.ctx :=
                          set_obj 1%nat (spec_free 1 Sample.refs) Sample.heap]>
                         {[ Sample.ctx := Sample.heap ]})
                      ∅ (<[100%nat := released Sample.owner]>
                           {[ 100%nat := Sample.owner ]}))
  /\ mType (released Sample.owner) = UNDEFINED.
Proof.
  assert (instances Sample.state !! 100%nat = Some Sample.owner) as Hv
    by (vm_compute; reflexivity).
  assert (mType Sample.owner = OBJECT) as Hty by reflexivity.
  assert (mRefCount Sample.owner = None) as Hrc by reflexivity.
  assert (mPOD Sample.owner = POD_ref_array_idx 1) as Hp by reflexivity.
  destruct (self_assignment {[ Sample.ctx := Sample.heap ]} ∅
              {[ 100%nat := Sample.owner ]} 100%nat Sample.owner
              1 Sample.heap 1%nat Sample.refs 0%nat 0 Hv)
    as (Hu & _ & Hsole & _).
  split; [exact Hv|]. split; [exact Hty|]. split; [exact Hrc|].
  split; [exact Hp|]. split; [exact sample_engine|].
  split; [exact sample_refs_at|].
  split; [exact (Hsole Hty Hrc Hp sample_engine sample_refs_at)|exact Hu].
Defined.

(** A tag outside the enumeration, as capturing a buffer with the default
    mask records it, matches no case of [push]: nothing is pushed.  The
    statements above are about the seven kinds. *)
Remark push_outside_enum (ctx : Z) (h : duk_heap) (b : nat) :
  mType (captured ctx (TBuffer b) 0) = DUK_TYPE_BUFFER
  /\ supported DUK_TYPE_BUFFER = false
  /\ push_in (captured ctx (TBuffer b) 0) h = Ok (tt, h).
Proof. done. Qed.

(* ===================================================================== *)
(** ** The free list stays well formed                                    *)
(* ===================================================================== *)

Lemma free_chain_frame o o' h ks :
  free_chain o h ks ->
  (forall j, j ∈ ks -> slot j o' = slot j o) ->
  free_chain o' h ks.
Proof.
  induction 1 as [|k ks Hk Hch IH]; intros Hsame; [constructor|].
  constructor; [done|]. rewrite Hsame by (apply elem_of_cons; by left).
  apply IH. intros j Hj. apply Hsame. apply elem_of_cons. by right.
Qed.

Lemma free_chain_zero o ks : free_chain o 0 ks -> ks = [].
Proof. by inversion 1. Qed.

Lemma free_chain_head o h ks :
  free_chain o h ks -> h <> 0 ->
  exists rest, ks = h :: rest /\ free_chain o (tval_uint (slot h o)) rest.
Proof. inversion 1; [done|]. eauto. Qed.

Lemma free_chain_functional o h ks :
  free_chain o h ks -> forall ks', free_chain o h ks' -> ks = ks'.
Proof.
  induction 1 as [|k ks Hk Hch IH]; intros ks' H'.
  - by inversion H'.
  - inversion H' as [|k' ks0 Hk' Hch' E1 E2]; [congruence|]. subst.
    f_equal. by apply IH.
Qed.

Lemma free_list_wf_functional o ks ks' :
  free_list_wf o ks -> free_list_wf o ks' -> ks = ks'.
Proof.
  intros (_ & _ & H & _) (_ & _ & H' & _). by eapply free_chain_functional.
Qed.

Lemma put_index_length_inside i v o :
  0 <= i < o_length o -> o_length (put_index i v o) = o_length o.
Proof.
  intros Hi. unfold put_index; simpl.
  destruct (o_is_array o && (i <? Double.two32 - 1)); lia.
Qed.

Lemma put_index_length_append v o :
  o_is_array o = true -> 0 <= o_length o < Double.two32 - 1 ->
  o_length (put_index (o_length o) v o) = o_length o + 1.
Proof.
  intros Ha Hl. unfold put_index; simpl. rewrite Ha.
  destruct (Z.ltb_spec (o_length o) (Double.two32 - 1)); simpl; lia.
Qed.

Lemma fresh_ref_array_wf : free_list_wf fresh_ref_array [].
Proof.
  split; [done|]. split; [by vm_compute|].
  split; [constructor|]. split; constructor.
Qed.

(** What an allocation does to a well-formed array. *)
Lemma allocate_keeps_free_list v o ks k o' :
  free_list_wf o ks ->
  o_length o + 1 < Double.two32 - 1 ->
  allocate_slot v o = (k, o') ->
  free_list_wf o' (tail ks)
  /\ ~ live o ks k
  /\ live o' (tail ks) k
  /\ slot k o' = v
  /\ (forall i, live o ks i -> live o' (tail ks) i /\ slot i o' = slot i o)
  /\ (ks = [] -> k = o_length o /\ o_length o' = o_length o + 1)
  /\ (forall k0 rest, ks = k0 :: rest -> k = k0 /\ o_length o' = o_length o).
Proof.
  intros (Harr & Hlen & Hch & Hnd & Hin) Hroom Halloc.
  unfold allocate_slot in Halloc.
  destruct (Z.eqb_spec (free_head o) 0) as [H0|H0]; simplify_eq.
  - rewrite H0 in Hch. apply free_chain_zero in Hch as ->.
    assert (Double.wrap_uint32 (o_length o) = o_length o) as Hw
      by (apply wrap_uint32_small; lia).
    cbn [tail]. rewrite Hw.
    assert (free_head (put_index (o_length o) v o) = 0) as Hh.
    { unfold free_head. rewrite slot_put_index_ne by lia. exact H0. }
    assert (o_length (put_index (o_length o) v o) = o_length o + 1) as Hl
      by (apply put_index_length_append; [done|lia]).
    split; [|split; [|split; [|split; [|split; [|split]]]]].
    + split; [done|]. rewrite Hl. split; [lia|]. rewrite Hh.
      split; [constructor|]. split; constructor.
    + intros [? _]. lia.
    + split; [|apply not_elem_of_nil]. rewrite Hl. lia.
    + apply slot_put_index_eq.
    + intros i [Hi _]. split.
      * split; [|apply not_elem_of_nil]. rewrite Hl. lia.
      * apply slot_put_index_ne. lia.
    + done.
    + intros ? ? ?. done.
  - destruct (free_chain_head _ _ _ Hch H0) as (rest & -> & Hrest).
    apply NoDup_cons in Hnd as [Hnotin Hnd].
    apply Forall_cons in Hin as [Hk Hin].
    cbn [tail]. remember (free_head o) as k eqn:Ek.
    assert (o_length (put_index 0 (slot k o) o) = o_length o)
      as Hl1 by (apply put_index_length_inside; lia).
    assert (o_length (put_index k v (put_index 0 (slot k o) o)) = o_length o)
      as Hl2 by (rewrite put_index_length_inside; [done|lia]).
    split; [|split; [|split; [|split; [|split; [|split]]]]].
    + split; [done|]. rewrite Hl2. split; [done|]. split; [|done].
      unfold free_head. rewrite slot_put_index_ne by done.
      rewrite slot_put_index_eq.
      apply (free_chain_frame o); [done|]. intros j Hj.
      rewrite slot_put_index_ne by (intros ->; done).
      apply slot_put_index_ne. rewrite Forall_forall in Hin.
      specialize (Hin j Hj). lia.
    + intros [_ Hn]. apply Hn. apply elem_of_cons. by left.
    + split; [by rewrite Hl2|done].
    + apply slot_put_index_eq.
    + intros i [Hi Hn]. split.
      * split; [by rewrite Hl2|].
        intros Hx. apply Hn. apply elem_of_cons. by right.
      * rewrite slot_put_index_ne
          by (intros ->; apply Hn; apply elem_of_cons; by left).
        apply slot_put_index_ne. lia.
    + done.
    + intros k0 rest0 ?. simplify_eq. done.
Qed.

(** What freeing a slot in use does to a well-formed array. *)
Lemma release_keeps_free_list K o ks :
  free_list_wf o ks ->
  live o ks K ->
  free_list_wf (release_slot K o) (K :: ks)
  /\ o_length (release_slot K o) = o_length o
  /\ ~ live (release_slot K o) (K :: ks) K
  /\ (forall i, live o ks i -> i <> K ->
        live (release_slot K o) (K :: ks) i
        /\ slot i (release_slot K o) = slot i o).
Proof.
  intros (Harr & Hlen & Hch & Hnd & Hin) [HK Hfree].
  unfold release_slot.
  assert (o_length (put_index K (slot 0 o) o) = o_length o) as Hl1
    by (apply put_index_length_inside; lia).
  assert (o_length (put_index 0 (TNumber (Double.of_Z K))
                      (put_index K (slot 0 o) o)) = o_length o)
    as Hl2 by (rewrite put_index_length_inside; [done|lia]).
  assert (free_head (put_index 0 (TNumber (Double.of_Z K))
                       (put_index K (slot 0 o) o)) = K) as Hh.
  { unfold free_head. rewrite slot_put_index_eq. apply tval_uint_of_Z. lia. }
  split; [|split; [done|split]].
  - split; [done|]. rewrite Hl2. split; [done|]. rewrite Hh.
    split; [|split].
    + constructor; [lia|]. rewrite slot_put_index_ne by lia.
      rewrite slot_put_index_eq.
      apply (free_chain_frame o); [exact Hch|]. intros j Hj.
      rewrite Forall_forall in Hin. specialize (Hin j Hj).
      rewrite slot_put_index_ne by lia.
      apply slot_put_index_ne. intros ->. done.
    + by apply NoDup_cons.
    + apply Forall_cons. split; [lia|done].
  - intros [_ Hn]. apply Hn. apply elem_of_cons. by left.
  - intros i [Hi Hn] HiK. split.
    + split; [by rewrite Hl2|]. apply not_elem_of_cons. by split.
    + rewrite slot_put_index_ne by lia. by apply slot_put_index_ne.
Qed.

(** X1.  [stash_ref] keeps the free list well formed.  On an engine whose
    ref array is well formed, with free slots [ks], and can still grow,
    [stash_ref] of a value that is on the stack returns; the array it
    leaves is well formed, with free slots [tail ks]; the index returned
    was not in use and now is, and holds the value; every slot that was
    in use still is and holds what it held; with no free slot the index is
    the former length and the array is one longer, otherwise the index is
    the first free slot and the length is unchanged. *)
Theorem stash_ref_keeps_free_list (h : duk_heap) (r : nat) (arr : hobject)
    (ks : list Z) (idx : Z) (v : tval) :
  refs_at h r arr ->
  free_list_wf arr ks ->
  o_length arr + 1 < Double.two32 - 1 ->
  stack_at idx (h_stack h) = Some v ->
  exists k arr',
    stash_ref idx h = Ok (k, set_obj r arr' h)
    /\ free_list_wf arr' (tail ks)
    /\ ~ live arr ks k
    /\ live arr' (tail ks) k
    /\ slot k arr' = v
    /\ (forall i, live arr ks i -> live arr' (tail ks) i /\ slot i arr' = slot i arr)
    /\ (ks = [] -> k = o_length arr /\ o_length arr' = o_length arr + 1)
    /\ (forall k0 rest, ks = k0 :: rest -> k = k0 /\ o_length arr' = o_length arr).
Proof.
  intros Hat Hwf Hroom Hv.
  destruct (allocate_slot v arr) as [k arr'] eqn:Halloc.
  exists k, arr'. split.
  - rewrite (stash_ref_present _ _ _ _ _ Hat Hv). by rewrite Halloc.
  - by apply (allocate_keeps_free_list v arr ks k arr').
Qed.

(** X2.  [free_ref] keeps the free list well formed.  On an engine whose
    ref array is well formed, with free slots [ks], [free_ref] of a slot
    [K] in use returns; the array it leaves is well formed, with free
    slots [K :: ks], and as long as before; [K] is no longer in use; every
    other slot that was in use still is and holds what it held. *)
Theorem free_ref_keeps_free_list (h : duk_heap) (r : nat) (arr : hobject)
    (ks : list Z) (K : Z) :
  refs_at h r arr ->
  free_list_wf arr ks ->
  live arr ks K ->
  exists arr',
    free_ref K h = Ok (tt, set_obj r arr' h)
    /\ free_list_wf arr' (K :: ks)
    /\ o_length arr' = o_length arr
    /\ ~ live arr' (K :: ks) K
    /\ (forall i, live arr ks i -> i <> K ->
          live arr' (K :: ks) i /\ slot i arr' = slot i arr).
Proof.
  intros Hat Hwf HK. exists (release_slot K arr). split.
  - by apply free_ref_present.
  - by apply release_keeps_free_list.
Qed.

(** X3.  The ref array is created on first use.  On an engine whose stash
    has no entry under the key, [push_ref_array] returns, having pushed a
    new array [r]: [r] was not an object of the heap; the stash has gained
    exactly the entry for [r]; every other object is as it was; the array
    holds its slot 0 only, with an empty, well-formed free list; and
    pushing the array again, after popping it, changes nothing more. *)
Theorem ref_array_created_on_first_use (h : duk_heap) :
  ref_array_absent h ->
  exists r so h1,
    push_ref_array h = Ok (tt, h1)
    /\ h_stack h1 = TObject r :: h_stack h
    /\ h_stash h1 = h_stash h
    /\ h_objs h !! r = None
    /\ h_objs h !! h_stash h = Some so
    /\ h_objs h1 !! h_stash h = Some (put_string DUKVALUE_REF_ARRAY (TObject r) so)
    /\ (forall r', r' <> r -> r' <> h_stash h -> h_objs h1 !! r' = h_objs h !! r')
    /\ refs_at h1 r fresh_ref_array
    /\ free_list_wf fresh_ref_array []
    /\ (push_ref_array ;;; duk_pop ;;; push_ref_array) h = Ok (tt, h1).
Proof.
  intros Habs. destruct h as [objs stash st].
  destruct (push_ref_array_absent _ _ _ Habs) as (r & Hr & Hpush).
  unfold ref_array_absent in Habs. cbn [h_objs h_stash] in Habs.
  destruct (objs !! stash) as [so|] eqn:Hso; [|done].
  assert (ensure_ref_array (DukHeap objs stash st)
          = DukHeap (<[stash := put_string DUKVALUE_REF_ARRAY
                                  (TObject (fresh (dom objs))) so]>
                       (<[fresh (dom objs) := fresh_ref_array]> objs)) stash st)
    as Hens.
  { unfold ensure_ref_array. cbn [h_objs h_stash h_stack]. by rewrite Hso, Habs. }
  rewrite Hens in Hpush, Hr.
  assert (r = fresh (dom objs)) as ->.
  { unfold ref_array_ref in Hr. cbn [h_objs h_stash] in Hr.
    rewrite lookup_insert_eq in Hr. cbn [o_props put_string] in Hr.
    rewrite lookup_insert_eq in Hr. case_decide; by simplify_eq. }
  assert (objs !! fresh (dom objs) = None) as Hfresh
    by apply not_elem_of_dom, is_fresh.
  assert (fresh (dom objs) <> stash) as Hne by (intros E; congruence).
  eexists (fresh (dom objs)), so, _. split; [exact Hpush|].
  cbn [set_stack h_stack h_objs h_stash].
  split; [done|]. split; [done|]. split; [done|]. split; [done|].
  split; [apply lookup_insert_eq|].
  split.
  { intros r' H1 H2. by rewrite !lookup_insert_ne by done. }
  assert (refs_at
            (DukHeap (<[stash := put_string DUKVALUE_REF_ARRAY
                                   (TObject (fresh (dom objs))) so]>
                        (<[fresh (dom objs) := fresh_ref_array]> objs)) stash
                     (TObject (fresh (dom objs)) :: st))
            (fresh (dom objs)) fresh_ref_array) as Hat.
  { split; [exact Hr|]. cbn [h_objs].
    rewrite lookup_insert_ne by done. apply lookup_insert_eq. }
  split; [exact Hat|]. split; [apply fresh_ref_array_wf|].
  unfold bind. rewrite Hpush. next. rewrite step_pop. next.
  apply (push_ref_array_present _ _ _ _ fresh_ref_array).
  by destruct Hat.
Qed.

(** X4.  Allocating and freeing again.  On a well-formed ref array that
    can still grow, [stash_ref] followed by [free_ref] of the index it
    returned returns; the array is well formed; exactly the slots that
    were in use are in use, and they hold what they held; the index is
    the head of the free list, so the next allocation returns it; the
    array is at most one longer than it was. *)
Theorem stash_then_free_restores (h : duk_heap) (r : nat) (arr : hobject)
    (ks : list Z) (idx : Z) (v : tval) :
  refs_at h r arr ->
  free_list_wf arr ks ->
  o_length arr + 1 < Double.two32 - 1 ->
  stack_at idx (h_stack h) = Some v ->
  exists k arr2 ks2,
    (let* k := stash_ref idx in free_ref k ;;; ret k) h
    = Ok (k, set_obj r arr2 h)
    /\ free_list_wf arr2 ks2
    /\ free_head arr2 = k
    /\ (forall i, live arr2 ks2 i <-> live arr ks i)
    /\ (forall i, live arr ks i -> slot i arr2 = slot i arr)
    /\ o_length arr <= o_length arr2 <= o_length arr + 1.
Proof.
  intros Hat Hwf Hroom Hv.
  destruct (allocate_slot v arr) as [k arr1] eqn:Halloc.
  destruct (allocate_keeps_free_list v arr ks k arr1 Hwf Hroom Halloc)
    as (Hwf1 & Hnot & Hlive1 & _ & Hkeep1 & Hgrow & Hreuse).
  destruct (release_keeps_free_list k arr1 (tail ks) Hwf1 Hlive1)
    as (Hwf2 & Hlen2 & Hdead & Hkeep2).
  exists k, (release_slot k arr1), (k :: tail ks).
  assert (refs_at (set_obj r arr1 h) r arr1) as Hat1
    by (by apply (refs_at_set_obj _ _ arr)).
  split; [|split; [done|split; [|split; [|split]]]].
  - unfold bind. rewrite (stash_ref_present _ _ _ _ _ Hat Hv), Halloc.
    cbn [fst snd]. rewrite (free_ref_present _ _ _ _ Hat1).
    unfold ret, set_obj; cbn [h_objs h_stash h_stack].
    by rewrite insert_insert_eq.
  - unfold free_head, release_slot. rewrite slot_put_index_eq.
    apply tval_uint_of_Z. destruct Hlive1 as [Hk _].
    destruct Hwf1 as (_ & Hl & _). lia.
  - intros i. split.
    + intros Hi. destruct (decide (i = k)) as [->|Hne]; [done|].
      destruct Hi as [Hi Hn]. rewrite Hlen2 in Hi.
      apply not_elem_of_cons in Hn as [_ Hn].
      destruct ks as [|k0 rest].
      * destruct (Hgrow eq_refl) as [-> Hl]. split; [lia|apply not_elem_of_nil].
      * destruct (Hreuse k0 rest eq_refl) as [-> Hl]. cbn [tail] in Hn.
        split; [lia|]. apply not_elem_of_cons. by split.
    + intros Hi. assert (i <> k) as Hne by (intros ->; done).
      destruct (Hkeep1 i Hi) as [Hi1 _].
      by destruct (Hkeep2 i Hi1 Hne).
  - intros i Hi. assert (i <> k) as Hne by (intros ->; done).
    destruct (Hkeep1 i Hi) as [Hi1 Hs1].
    destruct (Hkeep2 i Hi1 Hne) as [_ Hs2]. congruence.
  - rewrite Hlen2. destruct ks as [|k0 rest].
    + destruct (Hgrow eq_refl) as [_ ->]. lia.
    + destruct (Hreuse k0 rest eq_refl) as [_ ->]. lia.
Qed.

(* ===================================================================== *)
(** ** Capture, push, equality and copies, composed                       *)
(* ===================================================================== *)

Lemma stack_at_none_remove idx h :
  stack_at idx (h_stack h) = None -> duk_remove idx h = Fail EngineError.
Proof.
  unfold stack_at, duk_remove. intros H.
  destruct (stack_pos idx (h_stack h)) as [p|]; [|done]. by rewrite H.
Qed.


Lemma copy_from_stack_in_none ctx idx mask h :
  stack_at idx (h_stack h) = None ->
  accepts mask DUK_TYPE_NONE = true ->
  copy_from_stack_in ctx idx mask h = Ok (nothing ctx, h).
Proof.
  intros Hv Hacc. unfold copy_from_stack_in, bind.
  assert (reported_type idx h = DUK_TYPE_NONE) as Hty
    by (unfold reported_type; by rewrite Hv).
  rewrite step_check_type_mask, Hty, Hacc. cbv beta iota. cbn [negb].
  rewrite step_get_type. cbv beta iota. by rewrite Hty.
Qed.

(** X5.  Capture of a position that holds no value.  With the default
    mask [copy_from_stack] does not stop there: it returns, changing
    nothing, a variant whose type tag is [DUK_TYPE_NONE], a tag outside
    [enum Type].  [push] of that variant returns and pushes nothing, and
    [operator==] on it reaches [assert(false)].  [take_from_stack] stops
    on the error [duk_remove] raises for the invalid index.  A mask
    without [DUK_TYPE_MASK_NONE] (and without the throw flag) makes
    [copy_from_stack] stop on its assertion. *)
Theorem capture_of_missing_value
    (js_equals : duk_heap -> tval -> tval -> bool)
    (s : host) (ctx : Z) (h : duk_heap) (idx : Z) :
  engines s !! ctx = Some h ->
  stack_at idx (h_stack h) = None ->
  copy_from_stack ctx idx accept_all s = Ok (nothing ctx, s)
  /\ supported (type (nothing ctx)) = false
  /\ take_from_stack ctx idx accept_all s = Fail EngineError
  /\ push (nothing ctx) s = Ok (tt, s)
  /\ equals js_equals (nothing ctx) (nothing ctx) s = Fail AssertionFailure
  /\ (forall mask, accepts mask DUK_TYPE_NONE = false ->
        Z.land mask DUK_TYPE_MASK_THROW = 0 ->
        copy_from_stack ctx idx mask s = Fail AssertionFailure).
Proof.
  intros He Hv. destruct s as [eng cnt inst]. cbn [engines] in He.
  set (s := MkHost eng cnt inst).
  assert (copy_from_stack ctx idx accept_all s = Ok (nothing ctx, s)) as Hc.
  { unfold copy_from_stack, s.
    erewrite step_with_ctx;
      [|done|by apply copy_from_stack_in_none]. by rewrite insert_id. }
  split; [done|]. split; [done|]. split; [|split; [|split]].
  - unfold take_from_stack, bind. rewrite Hc. hnext.
    unfold s. erewrite with_ctx_fail; [done|done|by apply stack_at_none_remove].
  - unfold push, s. cbn [nothing mContext].
    erewrite step_with_ctx; [|done|reflexivity]. by rewrite insert_id.
  - unfold equals. case_decide as Hd; [by destruct Hd|]. done.
  - intros mask Hacc Hthrow. unfold copy_from_stack, s.
    eapply with_ctx_fail; [done|].
    rewrite copy_from_stack_in_rejected.
    + by rewrite Hthrow.
    + unfold reported_type. by rewrite Hv.
Qed.

Lemma moved_captured ctx v k : moved (captured ctx v k) = captured ctx v k.
Proof. by destruct v. Qed.

Lemma allocate_slot_stores v arr :
  slot (fst (allocate_slot v arr)) (snd (allocate_slot v arr)) = v.
Proof.
  unfold allocate_slot.
  destruct (free_head arr =? 0); cbn [fst snd]; apply slot_put_index_eq.
Qed.

(** Capture, then push of the variant obtained, on one engine. *)
Lemma capture_then_push_in ctx idx mask h val :
  refs_ok h ->
  stack_at idx (h_stack h) = Some val ->
  accepts mask (type_of val) = true ->
  supported (type_of val) = true ->
  exists A h1,
    copy_from_stack_in ctx idx mask h = Ok (A, h1)
    /\ moved A = A
    /\ mContext A = ctx
    /\ h_stack h1 = h_stack h
    /\ (type_of val <> OBJECT -> h1 = h)
    /\ forall st, push_in A (set_stack st h1) = Ok (tt, set_stack (val :: st) h1).
Proof.
  intros Hok Hv Hacc Hs.
  destruct (decide (type_of val = OBJECT)) as [Hty|Hty].
  - destruct (object_value _ Hty) as [o ->].
    destruct (ensure_ref_array_refs h Hok) as (r & arr & Hat).
    eexists _, _. split.
    { rewrite copy_from_stack_in_ensure;
        [|done|by rewrite (reported_type_at _ _ _ Hv)].
      apply (copy_from_stack_in_object _ _ _ _ o r arr);
        [by rewrite ensure_ref_array_stack|done|done]. }
    split; [done|]. split; [done|].
    split; [cbn [set_obj h_stack]; apply ensure_ref_array_stack|].
    split; [done|]. intros st.
    erewrite push_in_object; [|done|done|].
    2:{ apply refs_at_set_stack. by apply (refs_at_set_obj _ _ arr). }
    by rewrite allocate_slot_stores.
  - exists (captured ctx val 0), h. split; [by apply copy_from_stack_in_value|].
    split; [apply moved_captured|]. split; [by destruct val|].
    split; [done|]. split; [done|]. intros st.
    by rewrite push_in_captured.
Qed.

(** X6.  Capture, then push.  For a value of one of the seven kinds at a
    valid position, accepted by the mask, on an engine whose ref array is
    there or can be created: [copy_from_stack] followed by [push] of the
    variant returns, and the stack is the former stack with that value on
    top; when the value is not an object nothing else of the engine
    changes. *)
Theorem capture_then_push (s : host) (ctx : Z) (h : duk_heap)
    (idx mask : Z) (val : tval) :
  engines s !! ctx = Some h ->
  refs_ok h ->
  stack_at idx (h_stack h) = Some val ->
  accepts mask (type_of val) = true ->
  supported (type_of val) = true ->
  exists h2,
    (let* A := copy_from_stack ctx idx mask in push A) s
    = Ok (tt, with_engines (<[ctx := h2]> (engines s)) s)
    /\ h_stack h2 = val :: h_stack h
    /\ (type_of val <> OBJECT -> h2 = set_stack (val :: h_stack h) h).
Proof.
  intros He Hok Hv Hacc Hs. destruct s as [eng cnt inst]. cbn [engines] in *.
  destruct (capture_then_push_in ctx idx mask h val Hok Hv Hacc Hs)
    as (A & h1 & Hcopy & _ & Hctx & Hst & Hsame & Hpush).
  exists (set_stack (val :: h_stack h) h1). split; [|split].
  - unfold bind, copy_from_stack.
    rewrite (step_with_ctx _ _ _ _ _ _ _ _ He Hcopy). unfold push.
    rewrite Hctx.
    erewrite step_with_ctx; [|apply lookup_insert_eq|].
    2:{ rewrite <- (set_stack_id h1) at 1. rewrite Hpush. by rewrite Hst. }
    by rewrite insert_insert_eq.
  - done.
  - intros Hty. by rewrite (Hsame Hty).
Qed.




Lemma double_eqb_sym x y : Double.eqb x y = Double.eqb y x.
Proof.
  destruct x as [s1|s1| |s1 m1 e1], y as [s2|s2| |s2 m2 e2]; simpl; try done.
  - by destruct s1, s2.
  - rewrite (Z.min_comm e2 e1), (Z.eqb_sym (Z.pos m2 * _)).
    by destruct s1, s2.
Qed.

Lemma double_eqb_refl x : x <> S754_nan -> Double.eqb x x = true.
Proof.
  destruct x as [s|s| |s m e]; simpl; try done.
  - intros _. by destruct s.
  - intros _. rewrite Z.eqb_refl. by destruct s.
Qed.

(** X8.  [operator==] is symmetric on variants that are not Objects:
    [x == y] and [y == x] give the same answer, or stop the same way, and
    a comparison that returns leaves the state as it was. *)
Theorem equality_symmetric (js_equals : duk_heap -> tval -> tval -> bool)
    (x y : DukValue) (s : host) :
  mType x <> OBJECT ->
  equals js_equals x y s = equals js_equals y x s
  /\ forall b s', equals js_equals x y s = Ok (b, s') -> s' = s.
Proof.
  intros Hobj. split.
  - unfold equals.
    destruct (decide (mType x = mType y /\ mContext x = mContext y)) as [[Ht Hc]|Hd].
    + case_decide as H1; [destruct H1; congruence|].
      case_decide as H2; [destruct H2; congruence|].
      rewrite <- Ht. destruct (mType x) eqn:Hx; try done.
      * unfold bind, lift.
        destruct (mPOD x) as [|a| | |], (mPOD y) as [|b| | |]; simpl; try done.
        by destruct a, b.
      * unfold bind, lift. destruct (mPOD x), (mPOD y); simpl; try done.
        by rewrite double_eqb_sym.
      * unfold ret. do 2 f_equal. apply bool_decide_ext. split; congruence.
      * unfold bind, lift. destruct (mPOD x), (mPOD y); simpl; try done.
        by rewrite Z.eqb_sym.
    + case_decide as H1.
      * case_decide as H2; [done|]. destruct Hd.
        destruct (decide (mType y = mType x)); [|destruct H2; by left].
        destruct (decide (mContext y = mContext x)); [|destruct H2; by right].
        done.
      * destruct Hd.
        destruct (decide (mType x = mType y)); [|destruct H1; by left].
        destruct (decide (mContext x = mContext y)); [|destruct H1; by right].
        done.
  - intros b s'. unfold equals. case_decide as H1.
    + unfold ret. by intros [= _ <-].
    + destruct (mType x) eqn:Hx; try done; unfold bind, lift, ret;
        destruct (mPOD x), (mPOD y); simpl; try done; by intros [= _ <-].
Qed.

Lemma equals_self_plain js (x : DukValue) (s : host) :
  supported (mType x) = true -> pod_matches x = true ->
  mType x <> OBJECT -> mPOD x <> POD_number S754_nan ->
  equals js x x s = Ok (true, s).
Proof.
  intros Hs Hp Hobj Hnan. unfold equals.
  case_decide as Hd; [by destruct Hd|].
  unfold pod_matches in Hp.
  destruct (mType x) eqn:Ht; try done;
    destruct (mPOD x) as [|b|d|p|i] eqn:Hpod; try done; unfold bind; simpl;
    unfold ret; rewrite ?bool_decide_eq_true_2 by done; try done.
  - by destruct b.
  - rewrite double_eqb_refl; [done|]. by intros ->.
  - by rewrite Z.eqb_refl.
Qed.

Lemma equals_self_object js (x : DukValue) (s : host) h r arr :
  pod_matches x = true -> mType x = OBJECT ->
  engines s !! mContext x = Some h -> refs_at h r arr ->
  (forall h' v, js h' v v = true) ->
  equals js x x s = Ok (true, s).
Proof.
  intros Hp Ht He Hat Hjs. destruct s as [eng cnt inst]. cbn [engines] in He.
  rewrite (equals_objects js eng cnt inst x x h r arr) by done.
  by rewrite Hjs.
Qed.

(** X9.  [operator==] is reflexive, except on NaN.  A well-formed variant
    of one of the seven kinds, not an Object, equals itself unless it is
    the Number NaN, which differs from itself ([x != x] is true); an
    Object equals itself when the engine's [==] says a value equals
    itself.  [operator!=] is the negation throughout. *)
Theorem equality_reflexive_but_nan
    (js_equals : duk_heap -> tval -> tval -> bool)
    (x : DukValue) (s : host) :
  supported (mType x) = true ->
  pod_matches x = true ->
  (mType x <> OBJECT -> mPOD x <> POD_number S754_nan ->
   equals js_equals x x s = Ok (true, s)
   /\ not_equals js_equals x x s = Ok (false, s))
  /\ (mType x = NUMBER -> mPOD x = POD_number S754_nan ->
      equals js_equals x x s = Ok (false, s)
      /\ not_equals js_equals x x s = Ok (true, s))
  /\ (forall h r arr,
        mType x = OBJECT ->
        engines s !! mContext x = Some h -> refs_at h r arr ->
        (forall h' v, js_equals h' v v = true) ->
        equals js_equals x x s = Ok (true, s)
        /\ not_equals js_equals x x s = Ok (false, s)).
Proof.
  intros Hs Hp.
  assert (forall b, equals js_equals x x s = Ok (b, s) ->
            equals js_equals x x s = Ok (b, s)
            /\ not_equals js_equals x x s = Ok (negb b, s)) as Hneg.
  { intros b Hb. split; [done|]. unfold not_equals, bind. by rewrite Hb. }
  split; [|split].
  - intros Hobj Hnan. apply (Hneg true). by apply equals_self_plain.
  - intros Ht Hnan. apply (Hneg false). unfold equals.
    case_decide as Hd; [by destruct Hd|]. by rewrite Ht, Hnan.
  - intros h r arr Ht He Hat Hjs. apply (Hneg true).
    by apply (equals_self_object _ _ _ h r arr).
Qed.

(** X10.  A released instance holds nothing more.  Once
    [release_ref_count] has returned, running it again on the same
    instance returns and changes nothing, and the destructor then only
    removes the instance: no slot is freed twice and no counter is
    decremented twice. *)
Theorem release_is_idempotent (s s' : host) (this : nat) :
  release_ref_count this s = Ok (tt, s') ->
  release_ref_count this s' = Ok (tt, s')
  /\ destroy this s' = Ok (tt, with_instances (delete this (instances s')) s').
Proof.
  intros H. destruct (release_post _ _ _ H) as (v & Hv & Hinst & Hgo).
  assert (release_ref_count this s' = Ok (tt, s')) as H2.
  { destruct s' as [eng' cnt' inst']. cbn [instances] in Hinst.
    apply (release_other _ _ _ _ (let_go v)); [|done].
    rewrite Hinst. apply lookup_insert_eq. }
  split; [done|]. by apply destroy_unfold.
Qed.


Lemma same_payload_observably a b : same_payload a b -> observably_equal a b.
Proof.
  destruct a as [ca ta pa sa ra], b as [cb tb pb sb rb].
  unfold same_payload, text; simpl. intros (-> & -> & -> & Htx).
  assert (tb = STRING -> sa = sb) as Hstr.
  { intros Hs. rewrite !decide_True in Htx by done. by simplify_eq. }
  clear Htx.
  split; [|split].
  - intros js y s. unfold equals; simpl. split.
    + case_decide; [done|]. destruct tb; try done.
      by rewrite Hstr.
    + case_decide as Hd; [done|].
      assert (tb = mType y) as ->.
      { destruct (decide (tb = mType y)) as [|Hne]; [done|].
        destruct Hd. left. congruence. }
      destruct (mType y) eqn:Hy; try done.
      by rewrite Hstr.
  - intros s. unfold push, push_in; simpl. destruct tb; try done.
    by rewrite Hstr.
  - unfold as_double, as_float, as_int, as_uint, as_pointer, as_string,
      as_c_string; simpl.
    repeat split; try done; case_decide; try done; by rewrite Hstr.
Qed.

Lemma assign_same_payload this rhs s s' :
  assign this rhs s = Ok (tt, s') ->
  exists t r, instances s' !! this = Some t /\ instances s' !! rhs = Some r
    /\ same_payload t r
    /\ (this <> rhs -> exists r0, instances s !! rhs = Some r0 /\ same_payload r r0).
Proof.
  intros H.
  apply assign_inv in H as (eng & cnt & inst & t & r & Hrel & Ht & Hr & Hty & Hcase).
  destruct (release_post _ _ _ Hrel) as (v & Hv & Hinst & _).
  cbn [instances] in Hinst.
  assert (this <> rhs -> instances s !! rhs = Some r) as Hold.
  { intros Hne. rewrite Hinst in Hr. by rewrite lookup_insert_ne in Hr. }
  destruct Hcase as [(Hplain & ->)|[(Hne & Hobj & Hrc & ->)|
    (Hne & Hobj & l & c & Hrc & Hl & Hov & ->)]]; cbn [instances].
  - assert (same_payload (copied r t) r) as Hsame.
    { unfold same_payload, copied, text; simpl. do 3 (split; [done|]).
      by case_decide. }
    destruct (decide (this = rhs)) as [->|Hne].
    + exists (copied r t), (copied r t). rewrite lookup_insert_eq.
      do 2 (split; [done|]). split; [done|]. done.
    + exists (copied r t), r. rewrite lookup_insert_eq.
      rewrite lookup_insert_ne by done.
      do 3 (split; [done|]). intros _. exists r. split; [by apply Hold|done].
  - eexists _, _. rewrite lookup_insert_eq.
    rewrite lookup_insert_ne by done. rewrite lookup_insert_eq.
    do 2 (split; [done|]). split.
    + unfold same_payload, sharing, text; simpl. rewrite Hobj.
      do 3 (split; [done|]). done.
    + intros _. exists r. split; [by apply Hold|].
      unfold same_payload, text; simpl. done.
  - exists (sharing r t l), r. rewrite lookup_insert_eq.
    rewrite lookup_insert_ne by done.
    do 2 (split; [done|]). split.
    + unfold same_payload, sharing, text; simpl. rewrite Hobj.
      do 3 (split; [done|]). done.
    + intros _. exists r. split; [by apply Hold|done].
Qed.

(** X11.  A copy cannot be told from its source.  After [this = rhs], or
    after copy-constructing [this] from [rhs], every public const member
    answers the same for [this] as for [rhs] ([operator==] on either side,
    [push], the accessors, [type] and [context]); and when the two are
    distinct instances, [rhs] still answers what it answered before. *)
Theorem copy_is_indistinguishable (s s' : host) (this rhs : nat) :
  assign this rhs s = Ok (tt, s') \/ copy_construct this rhs s = Ok (tt, s') ->
  exists t r,
    instances s' !! this = Some t /\ instances s' !! rhs = Some r
    /\ observably_equal t r
    /\ (this <> rhs ->
        exists r0, instances s !! rhs = Some r0 /\ observably_equal r r0).
Proof.
  intros [H|H].
  - destruct (assign_same_payload _ _ _ _ H) as (t & r & Ht & Hr & Hsame & Hold).
    exists t, r. do 2 (split; [done|]).
    split; [by apply same_payload_observably|].
    intros Hne. destruct (Hold Hne) as (r0 & Hr0 & Hs0).
    exists r0. split; [done|]. by apply same_payload_observably.
  - unfold copy_construct, bind in H. destruct s as [eng cnt inst].
    rewrite step_store in H. hnext_in H.
    destruct (assign_same_payload _ _ _ _ H) as (t & r & Ht & Hr & Hsame & Hold).
    exists t, r. do 2 (split; [done|]).
    split; [by apply same_payload_observably|].
    intros Hne. destruct (Hold Hne) as (r0 & Hr0 & Hs0).
    cbn [instances] in Hr0. rewrite lookup_insert_ne in Hr0 by done.
    exists r0. split; [done|]. by apply same_payload_observably.
Qed.

(** X12.  A copy compares equal to its source.  After [this = rhs], or
    after copy-constructing [this] from [rhs], with [rhs] a well-formed
    variant of one of the seven kinds other than the Number NaN:
    [this == rhs] and [rhs == this] are true and [this != rhs] is false
    (for an Object, on a state that satisfies the ownership invariant
    and with an engine whose [==] says a value equals itself). *)
Theorem copy_compares_equal (js_equals : duk_heap -> tval -> tval -> bool)
    (s s' : host) (this rhs : nat) (t r : DukValue) :
  assign this rhs s = Ok (tt, s') \/ copy_construct this rhs s = Ok (tt, s') ->
  instances s' !! this = Some t -> instances s' !! rhs = Some r ->
  supported (mType r) = true -> pod_matches r = true ->
  mPOD r <> POD_number S754_nan ->
  (mType r = OBJECT -> pinned s' /\ forall h v, js_equals h v v = true) ->
  equals js_equals t r s' = Ok (true, s')
  /\ equals js_equals r t s' = Ok (true, s')
  /\ not_equals js_equals t r s' = Ok (false, s').
Proof.
  intros Hrun Ht Hr Hs Hp Hnan Hobj.
  assert (same_payload t r) as Hsame.
  { destruct Hrun as [H|H].
    - destruct (assign_same_payload _ _ _ _ H) as (t0 & r0 & Ht0 & Hr0 & Hsame & _).
      congruence.
    - unfold copy_construct, bind in H. destruct s as [eng cnt inst].
      rewrite step_store in H. hnext_in H.
      destruct (assign_same_payload _ _ _ _ H) as (t0 & r0 & Ht0 & Hr0 & Hsame & _).
      congruence. }
  destruct (same_payload_observably _ _ Hsame) as (Heq & _).
  assert (equals js_equals r r s' = Ok (true, s')) as Hrefl.
  { destruct (decide (mType r = OBJECT)) as [Hty|Hty].
    - destruct (Hobj Hty) as [Hpin Hjs].
      destruct (pin_owned _ Hpin rhs r Hr Hty)
        as (o & h & ra & arr & ks & i & He & Hat & _).
      by apply (equals_self_object _ _ _ h ra arr).
    - by apply equals_self_plain. }
  destruct (Heq js_equals r s') as [E1 E2].
  assert (equals js_equals t r s' = Ok (true, s')) as Htr by congruence.
  split; [done|]. split; [congruence|].
  unfold not_equals, bind. by rewrite Htr.
Qed.

(** X13.  A captured value is read back.  Capturing a value that is not
    an object returns and changes nothing; the variant has the value's
    type, the engine handle, and no counter; the accessor of its kind
    returns the payload of the stack value: the double ([as_float] its
    rounding to [float], [as_uint] its narrowing), the pointer ([NULL]
    for null), the bytes of the string. *)
Theorem captured_value_read_back (s : host) (ctx : Z) (h : duk_heap)
    (idx mask : Z) (val : tval) :
  engines s !! ctx = Some h ->
  stack_at idx (h_stack h) = Some val ->
  accepts mask (type_of val) = true ->
  type_of val <> OBJECT ->
  exists A,
    copy_from_stack ctx idx mask s = Ok (A, s)
    /\ type A = type_of val /\ context A = ctx
    /\ mRefCount A = None
    /\ (forall d, val = TNumber d ->
          as_double A = Ok d /\ as_float A = Ok (Double.to_float d)
          /\ as_uint A = Double.to_uint32 d)
    /\ (forall p, val = TPointer p -> as_pointer A = Ok p)
    /\ (val = TNull -> as_pointer A = Ok 0)
    /\ (forall bytes, val = TString bytes ->
          as_string A = Ok bytes /\ as_c_string A = Ok bytes).
Proof.
  intros He Hv Hacc Hobj. destruct s as [eng cnt inst]. cbn [engines] in He.
  exists (captured ctx val 0). split.
  { unfold copy_from_stack.
    erewrite step_with_ctx; [|done|by apply copy_from_stack_in_value].
    by rewrite insert_id. }
  split; [by destruct val|]. split; [by destruct val|].
  split; [by destruct val|].
  split; [|split; [|split]].
  - by intros d ->.
  - by intros p ->.
  - by intros ->.
  - by intros bytes ->.
Qed.

(* ===================================================================== *)
(** ** The signed accessor, and variants without an engine                *)
(* ===================================================================== *)

(** X14.  What [as_int] answers.  On a Number with payload [d], [as_int]
    returns exactly when the integer part [u] of [d] fits [uint32_t], and
    then answers [u] read as a two's complement [int].  An answer that is
    not negative is the narrowing of [d] to [int]; an answer that is
    negative comes from a payload that no [int] holds; and on a payload
    whose integer part is negative and fits an [int], where that
    narrowing is defined, [as_int] is not. *)
Theorem as_int_characterised (v : DukValue) (d : spec_float) :
  mType v = NUMBER -> mPOD v = POD_number d ->
  (forall n, as_int v = Ok n <->
     exists u, Double.trunc d = Some u /\ 0 <= u < Double.two32
               /\ n = Double.uint32_to_int32 u)
  /\ (forall n, as_int v = Ok n -> 0 <= n -> Double.to_int32 d = Ok n)
  /\ (forall n, as_int v = Ok n -> n < 0 ->
        Double.to_int32 d = Fail InvalidAccess)
  /\ (forall u, Double.trunc d = Some u -> - Double.two31 <= u < 0 ->
        Double.to_int32 d = Ok u /\ as_int v = Fail InvalidAccess).
Proof.
  intros Hty Hp.
  assert (as_int v = rbind (Double.to_uint32 d)
                       (fun u => Ok (Double.uint32_to_int32 u))) as Hint.
  { unfold as_int. rewrite Hty, Hp. by case_decide. }
  assert (forall n, as_int v = Ok n <->
            exists u, Double.trunc d = Some u /\ 0 <= u < Double.two32
                      /\ n = Double.uint32_to_int32 u) as Hchar.
  { intros n. rewrite Hint. unfold Double.to_uint32.
    destruct (Double.trunc d) as [u|]; cbn [rbind].
    - destruct (Z.leb_spec 0 u), (Z.ltb_spec u Double.two32); cbn [andb rbind].
      + split.
        * intros [= <-]. exists u. split; [done|]. split; [lia|done].
        * intros (u' & [= <-] & _ & ->). done.
      + split; [done|]. intros (u' & [= <-] & ? & _). lia.
      + split; [done|]. intros (u' & [= <-] & ? & _). lia.
      + split; [done|]. intros (u' & [= <-] & ? & _). lia.
    - split; [done|]. by intros (u' & ? & _). }
  split; [exact Hchar|]. split; [|split].
  - intros n Hn Hpos. apply Hchar in Hn as (u & Hu & Hr & ->).
    unfold Double.to_int32, Double.uint32_to_int32 in *. rewrite Hu.
    unfold Double.two31, Double.two32 in *.
    destruct (Z.ltb_spec u (2 ^ 31)); [|lia].
    destruct (Z.leb_spec (- 2 ^ 31) u); [|lia]. done.
  - intros n Hn Hneg. apply Hchar in Hn as (u & Hu & Hr & ->).
    unfold Double.to_int32, Double.uint32_to_int32 in *. rewrite Hu.
    unfold Double.two31, Double.two32 in *.
    destruct (Z.ltb_spec u (2 ^ 31)); [lia|].
    destruct (Z.leb_spec (- 2 ^ 31) u); done.
  - intros u Hu Hr. split.
    + unfold Double.to_int32. rewrite Hu. unfold Double.two31 in *.
      destruct (Z.leb_spec (- 2 ^ 31) u); [|lia].
      destruct (Z.ltb_spec u (2 ^ 31)); [done|lia].
    + rewrite Hint. unfold Double.to_uint32. rewrite Hu.
      destruct (Z.leb_spec 0 u); [lia|]. done.
Qed.

(** X15.  A variant whose engine is gone.  When the context pointer of a
    variant designates no engine (as [NULL] does for a default-constructed
    one): [push] of a variant of one of the seven kinds is an invalid
    access; so is comparing it, as an Object, with an Object of the same
    context, and so is releasing or destroying it when it is an Object
    that holds the last reference to its slot.  A variant that is not an
    Object is still destroyed without harm. *)
Theorem variant_without_engine
    (js_equals : duk_heap -> tval -> tval -> bool)
    (s : host) (a : nat) (v : DukValue) :
  engines s !! mContext v = None ->
  (supported (mType v) = true -> push v s = Fail InvalidAccess)
  /\ (forall y, mType v = OBJECT -> mType y = OBJECT ->
        mContext y = mContext v ->
        equals js_equals v y s = Fail InvalidAccess)
  /\ (instances s !! a = Some v -> mType v = OBJECT ->
      (mRefCount v = None
       \/ exists l c, mRefCount v = Some l /\ counters s !! l = Some c /\ c <= 1) ->
      release_ref_count a s = Fail InvalidAccess
      /\ destroy a s = Fail InvalidAccess)
  /\ (instances s !! a = Some v -> mType v <> OBJECT ->
      destroy a s = Ok (tt, with_instances (delete a (instances s)) s)).
Proof.
  intros He. destruct s as [eng cnt inst]. cbn [engines instances counters] in *.
  assert (forall A (m : Duk A),
            with_ctx (mContext v) m (MkHost eng cnt inst) = Fail InvalidAccess)
    as Hctx.
  { intros A m. unfold with_ctx. cbn [engines]. by rewrite He. }
  split; [|split; [|split]].
  - intros _. unfold push. apply Hctx.
  - intros y Hv Hy Hc. unfold equals.
    case_decide as Hd; [destruct Hd; congruence|]. rewrite Hv.
    unfold bind, push. by rewrite Hctx.
  - intros Hv Hty Hlast.
    assert (release_ref_count a (MkHost eng cnt inst) = Fail InvalidAccess)
      as Hrel.
    { unfold release_ref_count, bind. rewrite (step_load _ _ _ _ _ Hv). hnext.
      case_decide; [|done].
      destruct Hlast as [Hrc|(l & c & Hrc & Hl & Hle)]; rewrite Hrc.
      - destruct (mPOD v); hnext; try done. by rewrite Hctx.
      - rewrite (step_read_int _ _ _ _ _ Hl). hnext.
        destruct (Z.ltb_spec 1 c); [lia|].
        destruct (mPOD v); hnext; try done. by rewrite Hctx. }
    split; [done|]. unfold destroy, bind. by rewrite Hrel.
  - intros Hv Hty. apply destroy_unfold. by apply (release_other _ _ _ _ v).
Qed.

(* ===================================================================== *)
(** ** Ownership of the slots                                             *)
(* ===================================================================== *)

Lemma refs_at_functional h r arr r' arr' :
  refs_at h r arr -> refs_at h r' arr' -> r = r' /\ arr = arr'.
Proof. intros [H1 H2] [H3 H4]. split; congruence. Qed.

Lemma owns_functional eng v o o' : owns eng v o -> owns eng v o' -> o = o'.
Proof.
  intros (h & r & arr & ks & i & He & Hat & Hwf & Hp & Hl & Hs)
         (h' & r' & arr' & ks' & i' & He' & Hat' & Hwf' & Hp' & Hl' & Hs').
  simplify_eq. destruct (refs_at_functional _ _ _ _ _ Hat Hat') as [-> ->].
  congruence.
Qed.

(** Freeing the slot [K] of engine [ctx] leaves every variant that
    designates another slot pinning what it pinned. *)
Lemma free_keeps_owner eng ctx h r arr ks K vb o :
  eng !! ctx = Some h -> refs_at h r arr -> free_list_wf arr ks ->
  live arr ks K ->
  owns eng vb o ->
  (mContext vb = ctx -> mPOD vb <> POD_ref_array_idx K) ->
  owns (<[ctx := set_obj r (release_slot K arr) h]> eng) vb o.
Proof.
  intros He Hat Hwf HK (h2 & r2 & arr2 & ks2 & i & He2 & Hat2 & Hwf2 & Hp & Hl & Hs)
         Hother.
  destruct (decide (mContext vb = ctx)) as [Hc|Hc].
  - rewrite Hc in He2. simplify_eq.
    destruct (refs_at_functional _ _ _ _ _ Hat Hat2) as [<- <-].
    rewrite (free_list_wf_functional _ _ _ Hwf2 Hwf) in Hl.
    assert (i <> K) as Hne by (intros ->; by apply Hother).
    destruct (release_keeps_free_list K arr ks Hwf HK) as (Hwf' & _ & _ & Hkeep).
    destruct (Hkeep i Hl Hne) as [Hl' Hs'].
    exists (set_obj r (release_slot K arr) h), r, (release_slot K arr), (K :: ks), i.
    split; [apply lookup_insert_eq|].
    split; [by apply (refs_at_set_obj _ _ arr)|].
    do 3 (split; [done|]). congruence.
  - exists h2, r2, arr2, ks2, i. rewrite lookup_insert_ne by done. done.
Qed.

(** Allocating a slot of engine [ctx] leaves every variant pinning what
    it pinned. *)
Lemma allocate_keeps_owner eng ctx h r arr ks v vb o :
  eng !! ctx = Some h -> refs_at h r arr -> free_list_wf arr ks ->
  o_length arr + 1 < Double.two32 - 1 ->
  owns eng vb o ->
  owns (<[ctx := set_obj r (snd (allocate_slot v arr)) h]> eng) vb o.
Proof.
  intros He Hat Hwf Hroom
         (h2 & r2 & arr2 & ks2 & i & He2 & Hat2 & Hwf2 & Hp & Hl & Hs).
  destruct (decide (mContext vb = ctx)) as [Hc|Hc].
  - rewrite Hc in He2. simplify_eq.
    destruct (refs_at_functional _ _ _ _ _ Hat Hat2) as [<- <-].
    rewrite (free_list_wf_functional _ _ _ Hwf2 Hwf) in Hl.
    destruct (allocate_slot v arr) as [k arr'] eqn:Halloc.
    destruct (allocate_keeps_free_list v arr ks k arr' Hwf Hroom Halloc)
      as (Hwf' & _ & _ & _ & Hkeep & _).
    destruct (Hkeep i Hl) as [Hl' Hs'].
    exists (set_obj r arr' h), r, arr', (tail ks), i.
    split; [apply lookup_insert_eq|].
    split; [by apply (refs_at_set_obj _ _ arr)|].
    do 3 (split; [done|]). cbn [snd]. congruence.
  - exists h2, r2, arr2, ks2, i. rewrite lookup_insert_ne by done. done.
Qed.

(** One instance is written, the engines move on: what is left to show
    for the invariant. *)
Lemma pinned_step eng eng' cnt cnt' inst a v' :
  pinned (MkHost eng cnt inst) ->
  (forall ctx h, eng' !! ctx = Some h -> engine_ok h) ->
  (forall b vb o, b <> a -> inst !! b = Some vb -> mType vb = OBJECT ->
     owns eng vb o -> owns eng' vb o) ->
  (mType v' = OBJECT ->
     (exists o, owns eng' v' o)
     /\ forall b vb, b <> a -> inst !! b = Some vb -> mType vb = OBJECT ->
          mContext v' = mContext vb -> mPOD v' = mPOD vb ->
          exists l, mRefCount v' = Some l /\ mRefCount vb = Some l) ->
  pinned (MkHost eng' cnt' (<[a := v']> inst)).
Proof.
  intros [H1 H2 H3] He Hkeep Hnew; cbn [engines instances] in *.
  split; cbn [engines instances].
  - done.
  - intros b v Hb Hty. destruct (decide (b = a)) as [->|Hne].
    + rewrite lookup_insert_eq in Hb. simplify_eq. by destruct (Hnew Hty).
    + rewrite lookup_insert_ne in Hb by done.
      destruct (H2 _ _ Hb Hty) as [o Ho]. exists o. by eapply Hkeep.
  - intros b1 b2 v1 v2 Hb1 Hb2 Hne Ht1 Ht2 Hc Hp.
    destruct (decide (b1 = a)) as [->|Hn1], (decide (b2 = a)) as [->|Hn2].
    + done.
    + rewrite lookup_insert_eq in Hb1. rewrite lookup_insert_ne in Hb2 by done.
      simplify_eq. destruct (Hnew Ht1) as [_ Hx]. by eapply Hx.
    + rewrite lookup_insert_eq in Hb2. rewrite lookup_insert_ne in Hb1 by done.
      simplify_eq. destruct (Hnew Ht2) as [_ Hx].
      destruct (Hx b1 v1) as (l & E1 & E2); try done. by exists l.
    + rewrite lookup_insert_ne in Hb1, Hb2 by done. by eapply H3.
Qed.

Lemma pinned_delete eng cnt cnt' inst a :
  pinned (MkHost eng cnt inst) ->
  pinned (MkHost eng cnt' (delete a inst)).
Proof.
  intros [H1 H2 H3]; cbn [engines instances] in *.
  split; cbn [engines instances].
  - done.
  - intros b v Hb. apply lookup_delete_Some in Hb as [_ Hb]. by eapply H2.
  - intros b1 b2 v1 v2 Hb1 Hb2.
    apply lookup_delete_Some in Hb1 as [_ Hb1].
    apply lookup_delete_Some in Hb2 as [_ Hb2]. by eapply H3.
Qed.

(** Running [release_ref_count] on the instance [Hv] names, an Object,
    in the hypothesis [H]. *)
Ltac release_run H Hv :=
  unfold release_ref_count, bind in H;
  rewrite (step_load _ _ _ _ _ Hv) in H; hnext_in H;
  destruct (decide (mType _ = OBJECT)); [|done].

(** [release_ref_count] that returned: what it did to the engines. *)
Lemma release_inv_engines eng cnt inst this s' :
  release_ref_count this (MkHost eng cnt inst) = Ok (tt, s') ->
  exists v, inst !! this = Some v
    /\ instances s' = <[this := let_go v]> inst
    /\ ((engines s' = eng
         /\ (mType v <> OBJECT
             \/ exists l c, mRefCount v = Some l /\ cnt !! l = Some c /\ 1 < c))
        \/ (mType v = OBJECT
            /\ (mRefCount v = None
                \/ exists l c, mRefCount v = Some l /\ cnt !! l = Some c /\ c <= 1)
            /\ exists i h h', mPOD v = POD_ref_array_idx i
                 /\ eng !! mContext v = Some h /\ free_ref i h = Ok (tt, h')
                 /\ engines s' = <[mContext v := h']> eng)).
Proof.
  intros H. pose proof (release_post _ _ _ H) as (v & Hv & Hinst & _).
  cbn [instances] in Hv, Hinst. exists v. do 2 (split; [done|]).
  pose proof (release_inv _ _ _ _ _ H) as (v' & Hv' & Hcase).
  assert (v' = v) as -> by congruence.
  destruct Hcase as [[Hty ->]|[(Hty & Hrc & eng' & ->)|
    [(Hty & l & c & Hrc & Hl & Hlt & ->)|(Hty & l & c & eng' & Hrc & Hl & Hle & ->)]]];
    cbn [engines].
  - left. split; [done|]. by left.
  - right. split; [done|]. split; [by left|].
    destruct (mPOD v) as [| | | |i] eqn:Hp.
    1-4: exfalso; release_run H Hv; rewrite Hrc, Hp in H; by hnext_in H.
    destruct (eng !! mContext v) as [h|] eqn:He.
    2:{ exfalso. release_run H Hv. rewrite Hrc, Hp in H. hnext_in H.
        unfold with_ctx in H. cbn [engines] in H. by rewrite He in H. }
    destruct (free_ref i h) as [[[] h']|f] eqn:Hf.
    2:{ exfalso. release_run H Hv. rewrite Hrc, Hp in H. hnext_in H.
        unfold with_ctx in H. cbn [engines] in H. by rewrite He, Hf in H. }
    exists i, h, h'. do 3 (split; [done|]).
    rewrite (release_sole _ _ _ _ _ _ _ _ Hv Hty Hrc Hp He Hf) in H.
    by simplify_eq.
  - left. split; [done|]. right. by exists l, c.
  - right. split; [done|]. split; [right; by exists l, c|].
    assert ((1 <? c) = false) as Hlt by (apply Z.ltb_ge; lia).
    destruct (mPOD v) as [| | | |i] eqn:Hp.
    1-4: exfalso; release_run H Hv; rewrite Hrc in H;
         rewrite (step_read_int _ _ _ _ _ Hl) in H; hnext_in H;
         rewrite Hlt, Hp in H; by hnext_in H.
    destruct (eng !! mContext v) as [h|] eqn:He.
    2:{ exfalso. release_run H Hv. rewrite Hrc in H.
        rewrite (step_read_int _ _ _ _ _ Hl) in H. hnext_in H.
        rewrite Hlt, Hp in H. hnext_in H.
        unfold with_ctx in H. cbn [engines] in H. by rewrite He in H. }
    destruct (free_ref i h) as [[[] h']|f] eqn:Hf.
    2:{ exfalso. release_run H Hv. rewrite Hrc in H.
        rewrite (step_read_int _ _ _ _ _ Hl) in H. hnext_in H.
        rewrite Hlt, Hp in H. hnext_in H.
        unfold with_ctx in H. cbn [engines] in H. by rewrite He, Hf in H. }
    exists i, h, h'. do 3 (split; [done|]).
    rewrite (release_last _ _ _ _ _ _ _ _ _ _ Hv Hty Hrc Hl Hle Hp He Hf) in H.
    by simplify_eq.
Qed.

(** Two instances that hold one counter: the counter is at least 2. *)
Lemma two_sharers least s a b va vb l c :
  counted_facts least s ->
  instances s !! a = Some va -> instances s !! b = Some vb -> a <> b ->
  mRefCount va = Some l -> mRefCount vb = Some l ->
  counters s !! l = Some c -> 2 <= c.
Proof.
  intros Hc Ha Hb Hne Hra Hrb Hl.
  pose proof (cf_total _ _ Hc l) as Ht. rewrite Hl in Ht. simpl in Ht.
  pose proof (sharers_delete l a (instances s)) as E1.
  rewrite Ha, (holds_Some_eq l va Hra) in E1.
  pose proof (sharers_delete l b (delete a (instances s))) as E2.
  rewrite lookup_delete_ne in E2 by done.
  rewrite Hb, (holds_Some_eq l vb Hrb) in E2. lia.
Qed.

Lemma release_pinned s this s' :
  counted_facts 1 s -> pinned s ->
  release_ref_count this s = Ok (tt, s') ->
  pinned s'
  /\ forall b vb o, b <> this -> instances s !! b = Some vb ->
       mType vb = OBJECT -> owns (engines s) vb o ->
       instances s' !! b = Some vb /\ owns (engines s') vb o.
Proof.
  intros Hc Hpin H. destruct s as [eng cnt inst].
  apply release_inv_engines in H as (v & Hv & Hinst & Hcase).
  destruct s' as [eng' cnt' inst']. cbn [instances engines] in *. subst inst'.
  assert (mType (let_go v) <> OBJECT) as Hgo.
  { unfold let_go. by case_decide. }
  destruct Hcase as [[-> _]|(Hty & Hlast & i & h & h' & Hp & He & Hf & ->)].
  - split.
    + eapply pinned_step; [exact Hpin|apply (pin_engines _ Hpin)|done|done].
    + intros b vb o Hb Hvb _ Ho. by rewrite lookup_insert_ne by done.
  - destruct (pin_owned _ Hpin this v Hv Hty) as [o0 Hown0].
    destruct Hown0 as (h0 & r & arr & ks & i0 & He0 & Hat & Hwf & Hp0 & Hl & Hs).
    cbn [engines] in He0. rewrite He in He0. injection He0 as <-.
    rewrite Hp in Hp0. injection Hp0 as <-.
    rewrite (free_ref_present _ _ _ _ Hat) in Hf. injection Hf as <-.
    assert (forall b vb, b <> this -> inst !! b = Some vb -> mType vb = OBJECT ->
              mContext vb = mContext v -> mPOD vb <> POD_ref_array_idx i)
      as Hother.
    { intros b vb Hb Hvb Htb Hcb Hpb.
      destruct (pin_apart _ Hpin this b v vb Hv Hvb) as (l & Hl1 & Hl2);
        try done; try congruence.
      destruct Hlast as [Hnone|(l' & c & Hrc & Hcl & Hle)]; [congruence|].
      assert (l' = l) as -> by congruence.
      pose proof (two_sharers 1 _ this b v vb l c Hc Hv Hvb) as Hge.
      cbn [counters] in Hge. specialize (Hge (not_eq_sym Hb) Hl1 Hl2 Hcl). lia. }
    assert (forall b vb o, b <> this -> inst !! b = Some vb ->
              mType vb = OBJECT -> owns eng vb o ->
              owns (<[mContext v := set_obj r (release_slot i arr) h]> eng) vb o)
      as Hkeep.
    { intros b vb o Hb Hvb Htb Ho.
      apply (free_keeps_owner _ _ _ _ _ ks); try done.
      intros Hcb. by apply (Hother b). }
    split.
    + eapply pinned_step; [exact Hpin| |exact Hkeep|done].
      intros ctx hc Hh. destruct (decide (ctx = mContext v)) as [->|Hne].
      * rewrite lookup_insert_eq in Hh. injection Hh as <-. right.
        exists r, (release_slot i arr), (i :: ks). split.
        -- by apply (refs_at_set_obj _ _ arr).
        -- by destruct (release_keeps_free_list i arr ks Hwf Hl).
      * rewrite lookup_insert_ne in Hh by done.
        by apply (pin_engines _ Hpin ctx).
    + intros b vb o Hb Hvb Htb Ho. rewrite lookup_insert_ne by done.
      split; [done|]. by apply (Hkeep b).
Qed.

Lemma owns_same_slot eng v v' o :
  mContext v' = mContext v -> mPOD v' = mPOD v -> owns eng v o -> owns eng v' o.
Proof.
  intros Hc Hp (h & r & arr & ks & i & He & Hat & Hwf & Hpod & Hl & Hs).
  exists h, r, arr, ks, i. rewrite Hc, Hp. done.
Qed.

Lemma assign_pinned s this rhs s' :
  counted_facts 1 s -> pinned s ->
  assign this rhs s = Ok (tt, s') ->
  pinned s'
  /\ (forall b vb o, b <> this -> instances s !! b = Some vb ->
        mType vb = OBJECT -> owns (engines s) vb o ->
        exists vb', instances s' !! b = Some vb' /\ mType vb' = OBJECT
                    /\ owns (engines s') vb' o)
  /\ (forall r' o, instances s' !! rhs = Some r' -> mType r' = OBJECT ->
        owns (engines s') r' o ->
        exists t', instances s' !! this = Some t' /\ mType t' = OBJECT
                   /\ owns (engines s') t' o).
Proof.
  intros Hc Hpin H.
  apply assign_inv in H as (eng & cnt & inst & t & r & Hrel & Ht & Hr & Hty & Hcase).
  destruct (release_pinned _ _ _ Hc Hpin Hrel) as [Hpin1 Hframe].
  cbn [instances engines] in Hframe.
  assert (forall b vb, b <> this -> inst !! b = Some vb -> mType vb = OBJECT ->
            mContext r = mContext vb -> mPOD r = mPOD vb -> mType r = OBJECT ->
            b <> rhs ->
            exists l, mRefCount r = Some l /\ mRefCount vb = Some l) as Hapart.
  { intros b vb Hb Hvb Htb Hcb Hpb Htr Hbr.
    apply (pin_apart _ Hpin1 rhs b r vb); try done; by apply not_eq_sym. }
  destruct Hcase as [(Hplain & ->)|[(Hne & Hobj & Hrc & ->)|
    (Hne & Hobj & l & c & Hrc & Hl & Hov & ->)]]; cbn [instances engines].
  - split; [|split].
    + eapply pinned_step; [exact Hpin1|apply (pin_engines _ Hpin1)|done|].
      intros Hx. by cbn in Hx.
    + intros b vb o Hb Hvb Htb Ho.
      destruct (Hframe b vb o Hb Hvb Htb Ho) as [Hvb1 Ho1].
      exists vb. by rewrite lookup_insert_ne by done.
    + intros r' o Hr' Htr' _. exfalso.
      destruct (decide (rhs = this)) as [->|Hne].
      * rewrite lookup_insert_eq in Hr'. by simplify_eq.
      * rewrite lookup_insert_ne in Hr' by done. by simplify_eq.
  - set (l := fresh (dom cnt)).
    assert (pinned (MkHost eng cnt (<[rhs := with_mRefCount (Some l) r]> inst)))
      as Hpin2.
    { eapply pinned_step; [exact Hpin1|apply (pin_engines _ Hpin1)|done|].
      intros _. split.
      - destruct (pin_owned _ Hpin1 rhs r Hr Hobj) as [o Ho]. exists o.
        by apply (owns_same_slot _ r).
      - intros b vb Hb Hvb Htb Hcb Hpb.
        destruct (decide (b = this)) as [->|Hbt]; [congruence|].
        destruct (Hapart b vb Hbt Hvb Htb Hcb Hpb Hobj Hb) as (l' & E & _).
        congruence. }
    split; [|split].
    + eapply pinned_step; [exact Hpin2|apply (pin_engines _ Hpin1)|done|].
      intros _. split.
      * destruct (pin_owned _ Hpin1 rhs r Hr Hobj) as [o Ho]. exists o.
        by apply (owns_same_slot _ r).
      * intros b vb Hb Hvb Htb Hcb Hpb.
        destruct (decide (b = rhs)) as [->|Hbr].
        -- rewrite lookup_insert_eq in Hvb. simplify_eq. by exists l.
        -- rewrite lookup_insert_ne in Hvb by done.
           destruct (Hapart b vb Hb Hvb Htb Hcb Hpb Hobj Hbr) as (l' & E & _).
           congruence.
    + intros b vb o Hb Hvb Htb Ho.
      destruct (Hframe b vb o Hb Hvb Htb Ho) as [Hvb1 Ho1].
      rewrite lookup_insert_ne by done.
      destruct (decide (b = rhs)) as [->|Hbr].
      * rewrite lookup_insert_eq. eexists. split; [done|].
        assert (vb = r) as -> by congruence.
        split; [done|]. by apply (owns_same_slot _ r).
      * rewrite lookup_insert_ne by done. by exists vb.
    + intros r' o Hr' Htr' Ho. rewrite lookup_insert_ne in Hr' by done.
      rewrite lookup_insert_eq in Hr'. simplify_eq.
      rewrite lookup_insert_eq. eexists. split; [done|]. split; [done|].
      by apply (owns_same_slot _ (with_mRefCount (Some l) r)).
  - split; [|split].
    + eapply pinned_step; [exact Hpin1|apply (pin_engines _ Hpin1)|done|].
      intros _. split.
      * destruct (pin_owned _ Hpin1 rhs r Hr Hobj) as [o Ho]. exists o.
        by apply (owns_same_slot _ r).
      * intros b vb Hb Hvb Htb Hcb Hpb.
        destruct (decide (b = rhs)) as [->|Hbr].
        -- assert (vb = r) as -> by congruence. by exists l.
        -- destruct (Hapart b vb Hb Hvb Htb Hcb Hpb Hobj Hbr) as (l' & E1 & E2).
           exists l. split; [done|]. congruence.
    + intros b vb o Hb Hvb Htb Ho.
      destruct (Hframe b vb o Hb Hvb Htb Ho) as [Hvb1 Ho1].
      exists vb. by rewrite lookup_insert_ne by done.
    + intros r' o Hr' Htr' Ho. rewrite lookup_insert_ne in Hr' by done.
      assert (r' = r) as -> by congruence.
      rewrite lookup_insert_eq. eexists. split; [done|]. split; [done|].
      by apply (owns_same_slot _ r).
Qed.

Lemma destroy_pinned s this s' :
  counted_facts 1 s -> pinned s ->
  destroy this s = Ok (tt, s') ->
  pinned s'
  /\ forall b vb o, b <> this -> instances s !! b = Some vb ->
       mType vb = OBJECT -> owns (engines s) vb o ->
       instances s' !! b = Some vb /\ owns (engines s') vb o.
Proof.
  intros Hc Hpin H. unfold destroy, bind at 1 in H.
  destruct (release_ref_count this s) as [[[] s1]|] eqn:Hrel; [|done].
  injection H as <-.
  destruct (release_pinned _ _ _ Hc Hpin Hrel) as [Hpin1 Hframe].
  destruct s1 as [eng cnt inst]. cbn [instances engines with_instances] in *.
  split; [by apply (pinned_delete _ cnt)|].
  intros b vb o Hb Hvb Htb Ho. rewrite lookup_delete_ne by done.
  by apply Hframe.
Qed.

Lemma store_plain_pinned eng cnt inst this v :
  pinned (MkHost eng cnt inst) -> mType v <> OBJECT ->
  pinned (MkHost eng cnt (<[this := v]> inst)).
Proof.
  intros Hpin Hty.
  eapply pinned_step; [exact Hpin|apply (pin_engines _ Hpin)|done|done].
Qed.

Lemma copy_construct_pinned s this copy s' :
  counted_facts 1 s -> pinned s ->
  instances s !! this = None ->
  copy_construct this copy s = Ok (tt, s') ->
  pinned s'
  /\ (forall b vb o, instances s !! b = Some vb ->
        mType vb = OBJECT -> owns (engines s) vb o ->
        exists vb', instances s' !! b = Some vb' /\ mType vb' = OBJECT
                    /\ owns (engines s') vb' o)
  /\ (forall r' o, instances s' !! copy = Some r' -> mType r' = OBJECT ->
        owns (engines s') r' o ->
        exists t', instances s' !! this = Some t' /\ mType t' = OBJECT
                   /\ owns (engines s') t' o).
Proof.
  intros Hc Hpin Hnew H. destruct s as [eng cnt inst]. cbn [instances] in Hnew.
  unfold copy_construct, bind at 1 in H. rewrite step_store in H. hnext_in H.
  assert (counted_facts 1 (MkHost eng cnt (<[this := default_value]> inst)))
    as Hc1.
  { eapply counted_from_insert; [exact Hc|done| | |done].
    - intros l. by rewrite Hnew.
    - apply (cf_least _ _ Hc). }
  assert (pinned (MkHost eng cnt (<[this := default_value]> inst))) as Hpin1
    by (by apply store_plain_pinned).
  destruct (assign_pinned _ _ _ _ Hc1 Hpin1 H) as (Hpin' & Hframe & Hthis).
  split; [done|]. split; [|done].
  intros b vb o Hvb Htb Ho. cbn [instances engines] in *.
  assert (b <> this) as Hb by (intros ->; congruence).
  apply (Hframe b vb o); try done. by rewrite lookup_insert_ne by done.
Qed.

Lemma move_construct_pinned s this move s' :
  pinned s ->
  instances s !! this = None -> this <> move ->
  move_construct this move s = Ok (tt, s') ->
  pinned s'
  /\ engines s' = engines s
  /\ (forall b vb, b <> move -> instances s !! b = Some vb ->
        instances s' !! b = Some vb)
  /\ (forall A o, instances s !! move = Some A -> mType A = OBJECT ->
        owns (engines s) A o ->
        exists t', instances s' !! this = Some t' /\ mType t' = OBJECT
                   /\ owns (engines s') t' o).
Proof.
  intros Hpin Hnew Hne H. destruct s as [eng cnt inst]. cbn [instances] in Hnew.
  destruct (inst !! move) as [A|] eqn:HA.
  2:{ by rewrite move_construct_missing in H. }
  rewrite (move_construct_spec _ _ _ _ _ _ HA Hne) in H. injection H as <-.
  cbn [instances engines].
  split; [|split; [done|split]].
  - rewrite (insert_insert_ne _ move this) by done.
    assert (pinned (MkHost eng cnt (<[move := moved_from A]> inst))) as Hpin1
      by (by apply store_plain_pinned).
    eapply pinned_step; [exact Hpin1|apply (pin_engines _ Hpin)|done|].
    intros Hty. cbn [moved mType] in Hty. split.
    + destruct (pin_owned _ Hpin move A HA Hty) as [o Ho]. exists o.
      by apply (owns_same_slot _ A).
    + intros b vb Hb Hvb Htb Hcb Hpb.
      destruct (decide (b = move)) as [->|Hbm].
      * rewrite lookup_insert_eq in Hvb. by simplify_eq.
      * rewrite lookup_insert_ne in Hvb by done.
        apply (pin_apart _ Hpin move b A vb); try done; by apply not_eq_sym.
  - intros b vb Hb Hvb. rewrite lookup_insert_ne by (by apply not_eq_sym).
    rewrite lookup_insert_ne; [done|]. intros ->. congruence.
  - intros A' o HA' Hty Ho. assert (A' = A) as -> by congruence.
    rewrite lookup_insert_ne by (by apply not_eq_sym).
    rewrite lookup_insert_eq. eexists. split; [done|]. split; [done|].
    by apply (owns_same_slot _ A).
Qed.

Lemma ensure_ref_array_absent h :
  ref_array_absent h -> exists r, refs_at (ensure_ref_array h) r fresh_ref_array.
Proof.
  intros Habs. unfold ref_array_absent in Habs. unfold ensure_ref_array.
  destruct (h_objs h !! h_stash h) as [so|] eqn:Hs; [|done]. rewrite Habs.
  set (r := fresh (dom (h_objs h))).
  assert (r <> h_stash h) as Hne.
  { intros E. apply (is_fresh (dom (h_objs h))). fold r. rewrite E.
    apply elem_of_dom. eauto. }
  exists r. split; simpl.
  - unfold ref_array_ref; simpl. rewrite lookup_insert_eq; simpl.
    rewrite lookup_insert_eq. by case_decide.
  - rewrite lookup_insert_ne by done. by rewrite lookup_insert_eq.
Qed.

Lemma engine_ok_ensure h :
  engine_ok h ->
  refs_ok h
  /\ exists r arr ks,
       refs_at (ensure_ref_array h) r arr /\ free_list_wf arr ks
       /\ (room 1 h -> o_length arr + 1 < Double.two32 - 1).
Proof.
  intros [Habs|(r & arr & ks & Hat & Hwf)].
  - split; [by left|]. destruct (ensure_ref_array_absent h Habs) as [r Hat].
    exists r, fresh_ref_array, []. split; [done|].
    split; [apply fresh_ref_array_wf|]. intros _.
    change (o_length fresh_ref_array) with 1. unfold Double.two32. lia.
  - split; [right; by exists r, arr|]. exists r, arr, ks.
    rewrite (ensure_ref_array_present _ _ _ Hat). do 2 (split; [done|]).
    intros Hroom. by apply (Hroom r).
Qed.

Lemma ensure_keeps_owner eng ctx h vb o :
  eng !! ctx = Some h -> owns eng vb o ->
  owns (<[ctx := ensure_ref_array h]> eng) vb o.
Proof.
  intros He (h2 & r2 & arr2 & ks2 & i & He2 & Hat2 & Hwf2 & Hp & Hl & Hs).
  exists h2, r2, arr2, ks2, i. split; [|done].
  destruct (decide (mContext vb = ctx)) as [Hc|Hc].
  - rewrite Hc in *. assert (h2 = h) as -> by congruence.
    rewrite (ensure_ref_array_present _ _ _ Hat2). apply lookup_insert_eq.
  - by rewrite lookup_insert_ne by done.
Qed.

Lemma capture_pinned s ctx h idx mask val :
  pinned s ->
  engines s !! ctx = Some h -> room 1 h ->
  stack_at idx (h_stack h) = Some val ->
  accepts mask (type_of val) = true ->
  exists A s1,
    copy_from_stack ctx idx mask s = Ok (A, s1)
    /\ counters s1 = counters s /\ instances s1 = instances s
    /\ mRefCount A = None /\ mType A = type_of val /\ mContext A = ctx
    /\ (forall c, c <> ctx -> engines s1 !! c = engines s !! c)
    /\ (forall vb o, owns (engines s) vb o -> owns (engines s1) vb o)
    /\ (forall o, val = TObject o -> owns (engines s1) A o)
    /\ (exists h1, engines s1 !! ctx = Some h1 /\ h_stack h1 = h_stack h
                   /\ (room 2 h -> room 1 h1))
    /\ (forall a, instances s !! a = None ->
          pinned (with_instances (<[a := A]> (instances s1)) s1)).
Proof.
  intros Hpin He Hroom Hv Hacc. destruct s as [eng cnt inst].
  cbn [engines instances counters] in *.
  destruct (decide (type_of val = OBJECT)) as [Hty|Hty].
  - destruct (object_value _ Hty) as [o ->].
    destruct (engine_ok_ensure h (pin_engines _ Hpin ctx h He))
      as (Hok & r & arr & ks & Hat & Hwf & Hlen).
    specialize (Hlen Hroom).
    destruct (allocate_slot (TObject o) arr) as [k arr'] eqn:Halloc.
    destruct (allocate_keeps_free_list _ arr ks k arr' Hwf Hlen Halloc)
      as (Hwf' & Hnot & Hlive & Hslot & _ & Hgrow & Hreuse).
    set (h1 := set_obj r arr' (ensure_ref_array h)).
    assert (refs_at h1 r arr') as Hat1 by (by apply (refs_at_set_obj _ _ arr)).
    assert (forall vb o', owns eng vb o' -> owns (<[ctx := h1]> eng) vb o')
      as Hkeep.
    { intros vb o' Ho.
      apply (ensure_keeps_owner _ ctx h) in Ho; [|done].
      pose proof (allocate_keeps_owner _ ctx (ensure_ref_array h) r arr ks
                    (TObject o) vb o' (lookup_insert_eq _ _ _) Hat Hwf Hlen Ho)
        as Ho'.
      rewrite insert_insert_eq in Ho'. by rewrite Halloc in Ho'. }
    assert (owns (<[ctx := h1]> eng) (captured ctx (TObject o) k) o) as Hnew.
    { exists h1, r, arr', (tail ks), k. split; [apply lookup_insert_eq|].
      done. }
    exists (captured ctx (TObject o) k), (MkHost (<[ctx := h1]> eng) cnt inst).
    split.
    { unfold copy_from_stack. eapply step_with_ctx; [done|].
      rewrite copy_from_stack_in_ensure;
        [|done|by rewrite (reported_type_at _ _ _ Hv)].
      erewrite copy_from_stack_in_object;
        [|by rewrite ensure_ref_array_stack|done|done].
      by rewrite Halloc. }
    do 5 (split; [done|]). cbn [engines instances counters].
    split; [intros c Hc; by rewrite lookup_insert_ne by done|].
    split; [exact Hkeep|].
    split; [intros o' [= <-]; exact Hnew|].
    split.
    { exists h1. split; [apply lookup_insert_eq|].
      split; [cbn [h1 set_obj h_stack]; apply ensure_ref_array_stack|].
      intros Hroom2 r1 arr1 Hat1'.
      destruct (refs_at_functional _ _ _ _ _ Hat1 Hat1') as [<- <-].
      assert (o_length arr' <= o_length arr + 1) as Hle.
      { destruct ks as [|k0 rest].
        - destruct (Hgrow eq_refl) as [_ ->]. lia.
        - destruct (Hreuse k0 rest eq_refl) as [_ ->]. lia. }
      destruct (pin_engines _ Hpin ctx h He) as [Habs|(r0 & arr0 & ks0 & Hat0 & _)].
      - destruct (ensure_ref_array_absent h Habs) as [r0 Hat0].
        destruct (refs_at_functional _ _ _ _ _ Hat Hat0) as [_ ->].
        change (o_length fresh_ref_array) with 1 in Hle.
        unfold Double.two32. lia.
      - pose proof (Hroom2 r0 arr0 Hat0) as Hr2.
        rewrite (ensure_ref_array_present _ _ _ Hat0) in Hat.
        destruct (refs_at_functional _ _ _ _ _ Hat Hat0) as [_ ->]. lia. }
    intros a Ha. unfold with_instances; cbn [engines instances counters].
    eapply pinned_step; [exact Hpin| |intros b vb o' _ _ _; apply Hkeep|].
    + intros c hc Hc. destruct (decide (c = ctx)) as [->|Hne].
      * rewrite lookup_insert_eq in Hc. injection Hc as <-. right.
        by exists r, arr', (tail ks).
      * rewrite lookup_insert_ne in Hc by done. by apply (pin_engines _ Hpin c).
    + intros _. split; [by exists o|].
      intros b vb Hb Hvb Htb Hcb Hpb. exfalso. apply Hnot.
      destruct (pin_owned _ Hpin b vb Hvb Htb) as [o' Ho'].
      destruct Ho' as (h2 & r2 & arr2 & ks2 & i & He2 & Hat2 & Hwf2 & Hp & Hl & Hs).
      cbn [engines captured mContext mPOD] in *. rewrite <- Hcb in He2.
      assert (h2 = h) as -> by congruence.
      rewrite (ensure_ref_array_present _ _ _ Hat2) in Hat.
      destruct (refs_at_functional _ _ _ _ _ Hat Hat2) as [<- <-].
      rewrite (free_list_wf_functional _ _ _ Hwf2 Hwf) in Hl.
      assert (i = k) as -> by congruence. done.
  - exists (captured ctx val 0), (MkHost eng cnt inst). split.
    { unfold copy_from_stack.
      erewrite step_with_ctx; [|done|by apply copy_from_stack_in_value].
      by rewrite insert_id. }
    do 2 (split; [done|]).
    split; [by destruct val|]. split; [by destruct val|].
    split; [by destruct val|]. split; [done|]. split; [done|].
    split; [intros o ->; done|].
    split.
    { exists h. do 2 (split; [done|]). intros Hroom2 r arr Hat.
      specialize (Hroom2 r arr Hat). lia. }
    intros a Ha. apply store_plain_pinned; [done|]. by destruct val.
Qed.

(** X16.  The ownership invariant is kept.  [pinned] says: the ref array
    of every engine is absent or well formed; every Object instance
    designates a slot in use of its engine's array, and the slot holds an
    object; two Object instances that designate the same slot share a
    counter.  On a state that also satisfies the reference-count
    invariant it is preserved by release, by copy-assignment, by the copy
    and the move constructor building a new instance, and by
    destruction. *)
Theorem ownership_invariant (s : host) (this other : nat) :
  counted s -> pinned s ->
  (forall s', release_ref_count this s = Ok (tt, s') -> pinned s')
  /\ (forall s', assign this other s = Ok (tt, s') -> pinned s')
  /\ (forall s', instances s !! this = None ->
                 copy_construct this other s = Ok (tt, s') -> pinned s')
  /\ (forall s', instances s !! this = None -> this <> other ->
                 move_construct this other s = Ok (tt, s') -> pinned s')
  /\ (forall s', destroy this s = Ok (tt, s') -> pinned s').
Proof.
  unfold counted. intros Hc Hpin. apply counted_from_facts in Hc; [|lia].
  split; [|split; [|split; [|split]]]; intros s'.
  - intros H. by destruct (release_pinned _ _ _ Hc Hpin H).
  - intros H. by destruct (assign_pinned _ _ _ _ Hc Hpin H).
  - intros Hnew H. by destruct (copy_construct_pinned _ _ _ _ Hc Hpin Hnew H).
  - intros Hnew Hne H. by destruct (move_construct_pinned _ _ _ _ Hpin Hnew Hne H).
  - intros H. by destruct (destroy_pinned _ _ _ Hc Hpin H).
Qed.

(** X17.  Giving up one instance never invalidates another.  On a state
    that satisfies both invariants, let [b] be an Object instance other
    than [this] that pins the object [o].  After [release_ref_count] or
    the destructor ran on [this], [b] is unchanged and still pins [o];
    after [this = other], or after [this] was copy-constructed from
    [other], [b] is still an Object and still pins [o] (only its counter
    pointer may have been set, when it is the source). *)
Theorem others_keep_their_objects (s : host) (this other b : nat)
    (vb : DukValue) (o : nat) :
  counted s -> pinned s ->
  b <> this ->
  instances s !! b = Some vb -> mType vb = OBJECT ->
  owns (engines s) vb o ->
  (forall s', release_ref_count this s = Ok (tt, s') ->
     instances s' !! b = Some vb /\ owns (engines s') vb o)
  /\ (forall s', destroy this s = Ok (tt, s') ->
        instances s' !! b = Some vb /\ owns (engines s') vb o)
  /\ (forall s', assign this other s = Ok (tt, s') ->
        exists vb', instances s' !! b = Some vb' /\ mType vb' = OBJECT
                    /\ owns (engines s') vb' o)
  /\ (forall s', instances s !! this = None ->
        copy_construct this other s = Ok (tt, s') ->
        exists vb', instances s' !! b = Some vb' /\ mType vb' = OBJECT
                    /\ owns (engines s') vb' o).
Proof.
  unfold counted. intros Hc Hpin Hb Hvb Htb Ho.
  apply counted_from_facts in Hc; [|lia].
  split; [|split; [|split]]; intros s'.
  - intros H. destruct (release_pinned _ _ _ Hc Hpin H) as [_ Hframe].
    by apply Hframe.
  - intros H. destruct (destroy_pinned _ _ _ Hc Hpin H) as [_ Hframe].
    by apply Hframe.
  - intros H. destruct (assign_pinned _ _ _ _ Hc Hpin H) as (_ & Hframe & _).
    by apply (Hframe b vb).
  - intros Hnew H.
    destruct (copy_construct_pinned _ _ _ _ Hc Hpin Hnew H) as (_ & Hframe & _).
    by apply (Hframe b vb).
Qed.

(** X18.  A copy pins the object its source pins.  On a state that
    satisfies both invariants, with [rhs] an Object instance that pins
    [o] and [this] another address: after [this = rhs], after
    copy-constructing [this] from [rhs] and after move-constructing
    [this] from [rhs], [this] is an Object and pins [o]. *)
Theorem copy_pins_the_same_object (s : host) (this rhs : nat)
    (r : DukValue) (o : nat) :
  counted s -> pinned s ->
  this <> rhs ->
  instances s !! rhs = Some r -> mType r = OBJECT ->
  owns (engines s) r o ->
  (forall s', assign this rhs s = Ok (tt, s') ->
     exists t', instances s' !! this = Some t' /\ mType t' = OBJECT
                /\ owns (engines s') t' o)
  /\ (forall s', instances s !! this = None ->
        copy_construct this rhs s = Ok (tt, s') ->
        exists t', instances s' !! this = Some t' /\ mType t' = OBJECT
                   /\ owns (engines s') t' o)
  /\ (forall s', instances s !! this = None ->
        move_construct this rhs s = Ok (tt, s') ->
        exists t', instances s' !! this = Some t' /\ mType t' = OBJECT
                   /\ owns (engines s') t' o).
Proof.
  unfold counted. intros Hc Hpin Hne Hr Htr Ho.
  apply counted_from_facts in Hc; [|lia].
  split; [|split]; intros s'.
  - intros H. destruct (assign_pinned _ _ _ _ Hc Hpin H) as (_ & Hframe & Hthis).
    destruct (Hframe rhs r o (not_eq_sym Hne) Hr Htr Ho) as (r' & Hr' & Htr' & Ho').
    by apply (Hthis r').
  - intros Hnew H.
    destruct (copy_construct_pinned _ _ _ _ Hc Hpin Hnew H) as (_ & Hframe & Hthis).
    destruct (Hframe rhs r o Hr Htr Ho) as (r' & Hr' & Htr' & Ho').
    by apply (Hthis r').
  - intros Hnew H.
    destruct (move_construct_pinned _ _ _ _ Hpin Hnew Hne H) as (_ & _ & _ & Hthis).
    by apply (Hthis r).
Qed.

(** Capture, the variant returned being constructed at [a]. *)
Lemma capture_at s ctx h idx mask val a :
  counted_facts 1 s -> pinned s ->
  engines s !! ctx = Some h -> room 1 h ->
  stack_at idx (h_stack h) = Some val ->
  accepts mask (type_of val) = true ->
  instances s !! a = None ->
  exists A s',
    (let* A := copy_from_stack ctx idx mask in store a A ;;; ret A) s
    = Ok (A, s')
    /\ instances s' = <[a := A]> (instances s)
    /\ mRefCount A = None /\ mType A = type_of val /\ mContext A = ctx
    /\ counted_facts 1 s' /\ pinned s'
    /\ (forall vb o, owns (engines s) vb o -> owns (engines s') vb o)
    /\ (forall o, val = TObject o -> owns (engines s') A o)
    /\ (exists h1, engines s' !! ctx = Some h1 /\ h_stack h1 = h_stack h
                   /\ (room 2 h -> room 1 h1)).
Proof.
  intros Hc Hpin He Hroom Hv Hacc Ha.
  destruct (capture_pinned s ctx h idx mask val Hpin He Hroom Hv Hacc)
    as (A & s1 & Hcopy & Hcnt & Hinst & Hrc & Hty & Hctx & _ & Hkeep & Hnew
        & Hh1 & Hpin').
  exists A, (with_instances (<[a := A]> (instances s1)) s1).
  split; [unfold bind; by rewrite Hcopy|].
  split; [cbn [with_instances instances]; by rewrite Hinst|].
  do 3 (split; [done|]).
  split; [|split; [by apply Hpin'|done]].
  destruct s as [eng cnt inst], s1 as [eng1 cnt1 inst1].
  cbn [engines instances counters with_instances] in *. subst cnt1 inst1.
  eapply counted_from_insert; [exact Hc| | | |].
  - done.
  - intros l. rewrite Ha. by rewrite holds_Some_ne by congruence.
  - apply (cf_least _ _ Hc).
  - intros b vb l _ _ Hl. congruence.
Qed.

(** X19.  Capture establishes ownership.  On a state that satisfies both
    invariants, whose engine [ctx] has room for one more slot, capturing
    an accepted value from a valid position and constructing the result
    at a new address [a] returns; both invariants hold afterwards; every
    Object instance there was is unchanged and pins what it pinned; and
    when the value is an object the new variant is an Object that pins
    it. *)
Theorem capture_pins_the_object (s : host) (ctx : Z) (h : duk_heap)
    (idx mask : Z) (val : tval) (a : nat) :
  counted s -> pinned s ->
  engines s !! ctx = Some h -> room 1 h ->
  stack_at idx (h_stack h) = Some val ->
  accepts mask (type_of val) = true ->
  instances s !! a = None ->
  exists A s',
    (let* A := copy_from_stack ctx idx mask in store a A ;;; ret A) s
    = Ok (A, s')
    /\ instances s' !! a = Some A
    /\ counted s' /\ pinned s'
    /\ (forall b vb o, instances s !! b = Some vb -> mType vb = OBJECT ->
          owns (engines s) vb o ->
          instances s' !! b = Some vb /\ owns (engines s') vb o)
    /\ (forall o, val = TObject o -> mType A = OBJECT /\ owns (engines s') A o).
Proof.
  unfold counted. intros Hc Hpin He Hroom Hv Hacc Ha.
  apply counted_from_facts in Hc; [|lia].
  destruct (capture_at s ctx h idx mask val a Hc Hpin He Hroom Hv Hacc Ha)
    as (A & s' & Hrun & Hinst & Hrc & Hty & Hctx & Hc' & Hpin' & Hkeep & Hnew & _).
  exists A, s'. split; [done|].
  split; [rewrite Hinst; apply lookup_insert_eq|].
  split; [by apply counted_from_facts; [lia|]|]. split; [done|]. split.
  - intros b vb o Hvb Htb Ho. split; [|by apply Hkeep].
    rewrite Hinst. rewrite lookup_insert_ne; [done|]. intros ->. congruence.
  - intros o ->. split; [done|]. by apply Hnew.
Qed.

Lemma pinned_ready s : pinned s -> engines_ready s.
Proof.
  intros Hpin a v Hv Hty.
  destruct (pin_owned _ Hpin a v Hv Hty)
    as (o & h & r & arr & ks & i & He & Hat & Hwf & Hp & Hl & Hs).
  split; [by exists i|]. exists h. split; [done|]. right. by exists r, arr.
Qed.

(** X20.  Independent captures of one object are separate references.
    On a state that satisfies both invariants, whose engine has room for
    two more slots, capturing the same stack object twice, at two new
    addresses, returns two Object variants without counters that
    designate different slots and both pin the object; destroying the
    first returns and leaves the second in place, still pinning the
    object. *)
Theorem independent_captures (s : host) (ctx : Z) (h : duk_heap)
    (idx mask : Z) (o : nat) (a1 a2 : nat) :
  counted s -> pinned s ->
  engines s !! ctx = Some h -> room 2 h ->
  stack_at idx (h_stack h) = Some (TObject o) ->
  accepts mask OBJECT = true ->
  instances s !! a1 = None -> instances s !! a2 = None -> a1 <> a2 ->
  exists A1 s1 A2 s2 s3,
    (let* A := copy_from_stack ctx idx mask in store a1 A ;;; ret A) s
    = Ok (A1, s1)
    /\ (let* A := copy_from_stack ctx idx mask in store a2 A ;;; ret A) s1
       = Ok (A2, s2)
    /\ instances s2 !! a1 = Some A1 /\ instances s2 !! a2 = Some A2
    /\ mType A1 = OBJECT /\ mType A2 = OBJECT
    /\ mRefCount A1 = None /\ mRefCount A2 = None
    /\ mPOD A1 <> mPOD A2
    /\ owns (engines s2) A1 o /\ owns (engines s2) A2 o
    /\ destroy a1 s2 = Ok (tt, s3)
    /\ instances s3 !! a2 = Some A2 /\ owns (engines s3) A2 o.
Proof.
  unfold counted. intros Hc Hpin He Hroom Hv Hacc Ha1 Ha2 Hne.
  apply counted_from_facts in Hc; [|lia].
  assert (room 1 h) as Hroom1.
  { intros r arr Hat. specialize (Hroom r arr Hat). lia. }
  destruct (capture_at s ctx h idx mask _ a1 Hc Hpin He Hroom1 Hv Hacc Ha1)
    as (A1 & s1 & Hrun1 & Hinst1 & Hrc1 & Hty1 & Hctx1 & Hc1 & Hpin1 & Hkeep1
        & Hnew1 & h1 & He1 & Hst1 & Hr1).
  assert (instances s1 !! a2 = None) as Ha2'.
  { rewrite Hinst1. by rewrite lookup_insert_ne by done. }
  rewrite <- Hst1 in Hv.
  destruct (capture_at s1 ctx h1 idx mask _ a2 Hc1 Hpin1 He1 (Hr1 Hroom) Hv Hacc Ha2')
    as (A2 & s2 & Hrun2 & Hinst2 & Hrc2 & Hty2 & Hctx2 & Hc2 & Hpin2 & Hkeep2
        & Hnew2 & _).
  assert (instances s2 !! a1 = Some A1) as HA1.
  { rewrite Hinst2, Hinst1. rewrite lookup_insert_ne by (by apply not_eq_sym).
    apply lookup_insert_eq. }
  assert (instances s2 !! a2 = Some A2) as HA2.
  { rewrite Hinst2. apply lookup_insert_eq. }
  assert (owns (engines s2) A2 o) as Ho2 by (by apply Hnew2).
  assert (exists s3, destroy a1 s2 = Ok (tt, s3)) as [s3 Hd].
  { apply destroy_returns; [|by apply pinned_ready|by rewrite HA1].
    unfold counted. by apply counted_from_facts; [lia|]. }
  exists A1, s1, A2, s2, s3. do 2 (split; [done|]).
  do 6 (split; [done|]). split.
  { intros Hp.
    destruct (pin_apart _ Hpin2 a1 a2 A1 A2 HA1 HA2 Hne) as (l & E & _);
      try done; congruence. }
  split; [by apply Hkeep2, Hnew1|]. split; [done|]. split; [done|].
  destruct (destroy_pinned _ _ _ Hc2 Hpin2 Hd) as [_ Hframe].
  by apply (Hframe a2 A2 o (not_eq_sym Hne)).
Qed.

Lemma pinned_set_stack eng cnt inst ctx h st :
  pinned (MkHost eng cnt inst) -> eng !! ctx = Some h ->
  pinned (MkHost (<[ctx := set_stack st h]> eng) cnt inst).
Proof.
  intros Hpin He.
  assert (forall v o, owns eng v o -> owns (<[ctx := set_stack st h]> eng) v o)
    as Hkeep.
  { intros v o (h2 & r & arr & ks & i & He2 & Hat & Hrest).
    destruct (decide (mContext v = ctx)) as [Hc|Hc].
    - rewrite Hc in He2. assert (h2 = h) as -> by congruence.
      exists (set_stack st h), r, arr, ks, i.
      split; [rewrite Hc; apply lookup_insert_eq|].
      split; [by apply refs_at_set_stack|done].
    - exists h2, r, arr, ks, i. by rewrite lookup_insert_ne by done. }
  destruct Hpin as [H1 H2 H3]; cbn [engines instances] in *.
  split; cbn [engines instances].
  - intros c hc Hc. destruct (decide (c = ctx)) as [->|Hne].
    + rewrite lookup_insert_eq in Hc. injection Hc as <-.
      destruct (H1 ctx h He) as [Habs|(r & arr & ks & Hat & Hwf)].
      * by left.
      * right. exists r, arr, ks. split; [by apply refs_at_set_stack|done].
    + rewrite lookup_insert_ne in Hc by done. by apply (H1 c).
  - intros a v Hv Hty. destruct (H2 a v Hv Hty) as [o Ho]. exists o.
    by apply Hkeep.
  - done.
Qed.

(** X21.  An Object instance pushes its object.  On a state that
    satisfies the ownership invariant, [push] of any Object instance
    returns; it puts the object the instance pins on top of the stack of
    the instance's engine and changes nothing else; the invariant holds
    afterwards. *)
Theorem pinned_object_is_pushed (s : host) (a : nat) (v : DukValue) :
  pinned s ->
  instances s !! a = Some v -> mType v = OBJECT ->
  exists o h s',
    owns (engines s) v o
    /\ engines s !! mContext v = Some h
    /\ push v s = Ok (tt, s')
    /\ s' = with_engines
              (<[mContext v := set_stack (TObject o :: h_stack h) h]> (engines s)) s
    /\ pinned s'.
Proof.
  intros Hpin Hv Hty.
  destruct (pin_owned _ Hpin a v Hv Hty) as [o Ho].
  pose proof Ho as (h & r & arr & ks & i & He & Hat & Hwf & Hp & Hl & Hs).
  destruct s as [eng cnt inst]. cbn [engines] in *.
  exists o, h,
    (MkHost (<[mContext v := set_stack (TObject o :: h_stack h) h]> eng) cnt inst).
  split; [done|]. split; [done|]. split; [|split; [done|]].
  - unfold push. eapply step_with_ctx; [done|].
    rewrite (push_in_object v i h r arr Hty Hp Hat). by rewrite Hs.
  - by apply pinned_set_stack.
Qed.

(** X22.  [operator==] on Objects compares what they pin.  For two
    Object variants of one engine that pin the objects [ox] and [oy],
    whatever slots they designate, [x == y] returns the engine's [==] on
    [oy] and [ox] and leaves the state as it was; so two variants that pin
    the same object are equal when the engine's [==] says a value equals
    itself. *)
Theorem object_equality_is_by_referent
    (js_equals : duk_heap -> tval -> tval -> bool)
    (s : host) (x y : DukValue) (ox oy : nat) :
  mType x = OBJECT -> mType y = OBJECT -> mContext y = mContext x ->
  owns (engines s) x ox -> owns (engines s) y oy ->
  exists h,
    engines s !! mContext x = Some h
    /\ equals js_equals x y s
       = Ok (js_equals (set_stack (TObject oy :: TObject ox :: h_stack h) h)
               (TObject oy) (TObject ox), s)
    /\ ((forall h' v, js_equals h' v v = true) -> ox = oy ->
        equals js_equals x y s = Ok (true, s)).
Proof.
  intros Htx Hty Hc
    (h & r & arr & ks & i & He & Hat & Hwf & Hp & Hl & Hs)
    (h' & r' & arr' & ks' & j & He' & Hat' & Hwf' & Hp' & Hl' & Hs').
  rewrite Hc in He'. assert (h' = h) as -> by congruence.
  destruct (refs_at_functional _ _ _ _ _ Hat Hat') as [<- <-].
  assert (equals js_equals x y s
          = Ok (js_equals (set_stack (TObject oy :: TObject ox :: h_stack h) h)
                  (TObject oy) (TObject ox), s)) as Heq.
  { destruct s as [eng cnt inst]. cbn [engines] in *.
    rewrite (equals_objects js_equals eng cnt inst x y h r arr);
      try done.
    - unfold pushed_value. by rewrite Htx, Hty, Hp, Hp', Hs, Hs'.
    - unfold pod_matches. by rewrite Htx, Hp.
    - unfold pod_matches. by rewrite Hty, Hp'. }
  exists h. split; [done|]. split; [done|].
  intros Hjs ->. by rewrite Heq, Hjs.
Qed.

(** X23.  No operation goes wrong on a state that satisfies the
    invariants.  With both invariants and every counter below [INT_MAX]:
    [release_ref_count] and the destructor on an existing instance,
    copy-assignment between existing instances, and copy- and
    move-construction of a new instance from an existing one all return:
    none reaches an assertion, an engine error or an invalid access. *)
Theorem operations_are_safe (s : host) (this other new : nat) :
  counted s -> pinned s -> counters_bounded s ->
  is_Some (instances s !! this) -> is_Some (instances s !! other) ->
  instances s !! new = None ->
  (exists s', release_ref_count this s = Ok (tt, s'))
  /\ (exists s', destroy this s = Ok (tt, s'))
  /\ (exists s', assign this other s = Ok (tt, s'))
  /\ (exists s', copy_construct new other s = Ok (tt, s'))
  /\ (exists s', move_construct new other s = Ok (tt, s')).
Proof.
  intros Hc Hpin Hb Hthis Hother Hnew.
  pose proof (pinned_ready s Hpin) as Hr.
  split; [by apply release_returns|].
  split; [by apply destroy_returns|].
  split; [by apply assign_returns|].
  split; [by apply copy_construct_returns|].
  apply move_construct_returns; [|done].
  intros ->. destruct Hother as [? ?]. congruence.
Qed.

(* ===================================================================== *)
(** ** The further statements on the sample states                        *)
(* ===================================================================== *)

Lemma sample_free_list : free_list_wf Sample.refs [].
Proof.
  split; [reflexivity|]. split; [by vm_compute|].
  split; [constructor|]. split; constructor.
Defined.

Lemma sample_live : live Sample.refs [] 1.
Proof. split; [by vm_compute|apply not_elem_of_nil]. Defined.

Lemma sample_room : room 2 Sample.heap.
Proof.
  intros r arr Hat.
  destruct (refs_at_functional _ _ _ _ _ Hat sample_refs_at) as [_ ->].
  by vm_compute.
Defined.

Lemma sample_room_1 : room 1 Sample.heap.
Proof.
  intros r arr Hat.
  destruct (refs_at_functional _ _ _ _ _ Hat sample_refs_at) as [_ ->].
  by vm_compute.
Defined.

Lemma sample_slot_pins (v : DukValue) :
  mContext v = Sample.ctx -> mPOD v = POD_ref_array_idx 1 ->
  owns {[ Sample.ctx := Sample.heap ]} v 5%nat.
Proof.
  intros Hc Hp. exists Sample.heap, 1%nat, Sample.refs, [], 1.
  split; [rewrite Hc; apply lookup_singleton_eq|].
  split; [exact sample_refs_at|]. split; [exact sample_free_list|].
  split; [exact Hp|]. split; [exact sample_live|reflexivity].
Defined.

Lemma sample_engine_ok ctx h :
  ({[ Sample.ctx := Sample.heap ]} : gmap Z duk_heap) !! ctx = Some h ->
  engine_ok h.
Proof.
  intros [_ <-]%lookup_singleton_Some. right.
  exists 1%nat, Sample.refs, []. split; [exact sample_refs_at|exact sample_free_list].
Defined.

Lemma sample_state_counted : counted Sample.state.
Proof. apply (bool_decide_unpack _). vm_compute. reflexivity. Defined.

Lemma sample_state_pinned : pinned Sample.state.
Proof.
  split; unfold Sample.state; cbn [engines instances].
  - apply sample_engine_ok.
  - intros a v [_ <-]%lookup_singleton_Some _. exists 5%nat.
    by apply sample_slot_pins.
  - intros a b va vb [<- _]%lookup_singleton_Some [<- _]%lookup_singleton_Some Hne.
    done.
Defined.

Lemma sample_sharers a v :
  instances Sample.shared !! a = Some v -> v = Sample.sharer.
Proof.
  unfold Sample.shared; cbn [instances].
  intros [[_ <-]|[_ [_ <-]%lookup_singleton_Some]]%lookup_insert_Some; done.
Defined.

Lemma sample_shared_pinned : pinned Sample.shared.
Proof.
  split.
  - apply sample_engine_ok.
  - intros a v ->%sample_sharers _. exists 5%nat. by apply sample_slot_pins.
  - intros a b va vb ->%sample_sharers ->%sample_sharers _ _ _ _ _.
    by exists 0%nat.
Defined.

Lemma sample_shared_bounded : counters_bounded Sample.shared.
Proof.
  intros l c. unfold Sample.shared; cbn [counters].
  intros [_ <-]%lookup_singleton_Some. by vm_compute.
Defined.

(** On the sample heap, whose free list is empty: an allocation appends
    at the length of the array and leaves slot 1 as it is. *)
Lemma stash_ref_keeps_free_list_witness :
  refs_at Sample.heap 1%nat Sample.refs
  /\ free_list_wf Sample.refs []
  /\ o_length Sample.refs + 1 < Double.two32 - 1
  /\ stack_at (-1) (h_stack Sample.heap) = Some (TObject 6%nat)
  /\ exists arr',
       stash_ref (-1) Sample.heap
       = Ok (o_length Sample.refs, set_obj 1%nat arr' Sample.heap)
       /\ free_list_wf arr' []
       /\ live arr' [] (o_length Sample.refs)
       /\ slot 1 arr' = slot 1 Sample.refs.
Proof.
  assert (o_length Sample.refs + 1 < Double.two32 - 1) as Hroom
    by (by vm_compute).
  assert (stack_at (-1) (h_stack Sample.heap) = Some (TObject 6%nat)) as Hv
    by reflexivity.
  destruct (stash_ref_keeps_free_list Sample.heap 1%nat Sample.refs [] (-1)
              (TObject 6%nat) sample_refs_at sample_free_list Hroom Hv)
    as (k & arr' & Hrun & Hwf & _ & Hlive & _ & Hkeep & Hgrow & _).
  destruct (Hgrow eq_refl) as [-> _].
  split; [exact sample_refs_at|]. split; [exact sample_free_list|].
  split; [exact Hroom|]. split; [exact Hv|].
  exists arr'. split; [exact Hrun|]. split; [exact Hwf|]. split; [exact Hlive|].
  exact (proj2 (Hkeep 1 sample_live)).
Defined.

(** On the sample heap: freeing slot 1 puts it on the free list. *)
Lemma free_ref_keeps_free_list_witness :
  refs_at Sample.heap 1%nat Sample.refs
  /\ free_list_wf Sample.refs []
  /\ live Sample.refs [] 1
  /\ exists arr',
       free_ref 1 Sample.heap = Ok (tt, set_obj 1%nat arr' Sample.heap)
       /\ free_list_wf arr' [1]
       /\ ~ live arr' [1] 1.
Proof.
  destruct (free_ref_keeps_free_list Sample.heap 1%nat Sample.refs [] 1
              sample_refs_at sample_free_list sample_live)
    as (arr' & Hrun & Hwf & _ & Hdead & _).
  split; [exact sample_refs_at|]. split; [exact sample_free_list|].
  split; [exact sample_live|].
  exists arr'. split; [exact Hrun|]. split; [exact Hwf|exact Hdead].
Defined.

(** On the engine that was never used, the first push creates the
    array. *)
Lemma ref_array_created_on_first_use_witness :
  ref_array_absent Sample.unused_heap
  /\ exists r h1,
       push_ref_array Sample.unused_heap = Ok (tt, h1)
       /\ h_stack h1 = TObject r :: h_stack Sample.unused_heap
       /\ refs_at h1 r fresh_ref_array.
Proof.
  assert (ref_array_absent Sample.unused_heap) as Habs
    by (vm_compute; reflexivity).
  destruct (ref_array_created_on_first_use Sample.unused_heap Habs)
    as (r & so & h1 & Hpush & Hst & _ & _ & _ & _ & _ & Hat & _).
  split; [exact Habs|]. exists r, h1.
  split; [exact Hpush|]. split; [exact Hst|exact Hat].
Defined.

(** The sample stack has four values: position 7 holds none. *)
Lemma capture_of_missing_value_witness :
  engines Sample.state !! Sample.ctx = Some Sample.heap
  /\ stack_at 7 (h_stack Sample.heap) = None
  /\ copy_from_stack Sample.ctx 7 accept_all Sample.state
     = Ok (nothing Sample.ctx, Sample.state)
  /\ take_from_stack Sample.ctx 7 accept_all Sample.state = Fail EngineError
  /\ equals Sample.same_value (nothing Sample.ctx) (nothing Sample.ctx)
       Sample.state = Fail AssertionFailure.
Proof.
  assert (stack_at 7 (h_stack Sample.heap) = None) as Hv by reflexivity.
  destruct (capture_of_missing_value Sample.same_value Sample.state Sample.ctx
              Sample.heap 7 sample_engine Hv)
    as (Hc & _ & Ht & _ & He & _).
  split; [exact sample_engine|]. split; [exact Hv|].
  split; [exact Hc|]. split; [exact Ht|exact He].
Defined.

(** The string of the sample stack, captured and pushed. *)
Lemma capture_then_push_witness :
  engines Sample.state !! Sample.ctx = Some Sample.heap
  /\ refs_ok Sample.heap
  /\ stack_at (-2) (h_stack Sample.heap) = Some (TString Sample.text_bytes)
  /\ accepts accept_all (type_of (TString Sample.text_bytes)) = true
  /\ supported (type_of (TString Sample.text_bytes)) = true
  /\ exists h2,
       (let* A := copy_from_stack Sample.ctx (-2) accept_all in push A)
         Sample.state
       = Ok (tt, with_engines (<[Sample.ctx := h2]> (engines Sample.state))
                   Sample.state)
       /\ h_stack h2 = TString Sample.text_bytes :: h_stack Sample.heap.
Proof.
  assert (stack_at (-2) (h_stack Sample.heap) = Some (TString Sample.text_bytes))
    as Hv by reflexivity.
  assert (accepts accept_all (type_of (TString Sample.text_bytes)) = true)
    as Hacc by reflexivity.
  assert (supported (type_of (TString Sample.text_bytes)) = true) as Hs
    by reflexivity.
  destruct (capture_then_push Sample.state Sample.ctx Sample.heap (-2)
              accept_all _ sample_engine sample_refs_ok Hv Hacc Hs)
    as (h2 & Hrun & Hst & _).
  split; [exact sample_engine|]. split; [exact sample_refs_ok|].
  split; [exact Hv|]. split; [exact Hacc|]. split; [exact Hs|].
  exists h2. split; [exact Hrun|exact Hst].
Defined.



(** Two Numbers compared both ways. *)
Lemma equality_symmetric_witness :
  mType (Sample.number Sample.minus_one) <> OBJECT
  /\ equals Sample.same_value (Sample.number Sample.minus_one)
       (Sample.number Sample.three_billion) Sample.state
     = equals Sample.same_value (Sample.number Sample.three_billion)
         (Sample.number Sample.minus_one) Sample.state
  /\ equals Sample.same_value (Sample.number Sample.minus_one)
       (Sample.number Sample.three_billion) Sample.state
     = Ok (false, Sample.state).
Proof.
  assert (mType (Sample.number Sample.minus_one) <> OBJECT) as Hty
    by discriminate.
  split; [exact Hty|].
  destruct (equality_symmetric Sample.same_value
              (Sample.number Sample.minus_one)
              (Sample.number Sample.three_billion) Sample.state Hty)
    as [Hsym Hsame].
  split; [exact Hsym|].
  destruct (equals Sample.same_value (Sample.number Sample.minus_one)
              (Sample.number Sample.three_billion) Sample.state)
    as [[b s']|f] eqn:Hrun.
  - rewrite (Hsame b s' eq_refl). vm_compute in Hrun. by injection Hrun as <- _.
  - vm_compute in Hrun. discriminate Hrun.
Defined.

(** The Number NaN differs from itself. *)
Lemma equality_reflexive_but_nan_witness :
  supported (mType (Sample.number S754_nan)) = true
  /\ pod_matches (Sample.number S754_nan) = true
  /\ equals Sample.same_value (Sample.number S754_nan)
       (Sample.number S754_nan) Sample.state = Ok (false, Sample.state)
  /\ not_equals Sample.same_value (Sample.number S754_nan)
       (Sample.number S754_nan) Sample.state = Ok (true, Sample.state).
Proof.
  destruct (equality_reflexive_but_nan Sample.same_value
              (Sample.number S754_nan) Sample.state eq_refl eq_refl)
    as (_ & Hnan & _).
  split; [reflexivity|]. split; [reflexivity|].
  exact (Hnan eq_refl eq_refl).
Defined.

(** One of the two sharers of the sample state, released twice. *)
Lemma release_is_idempotent_witness :
  release_ref_count 100%nat Sample.shared = Ok (tt, Sample.shared_released)
  /\ release_ref_count 100%nat Sample.shared_released
     = Ok (tt, Sample.shared_released).
Proof.
  assert (release_ref_count 100%nat Sample.shared
          = Ok (tt, Sample.shared_released)) as Hrel
    by (vm_compute; reflexivity).
  split; [exact Hrel|].
  exact (proj1 (release_is_idempotent _ _ _ Hrel)).
Defined.

(** One sharer of the sample state assigned from the other. *)
Lemma copy_is_indistinguishable_witness :
  exists s' t r,
    assign 100%nat 101%nat Sample.shared = Ok (tt, s')
    /\ instances s' !! 100%nat = Some t /\ instances s' !! 101%nat = Some r
    /\ observably_equal t r.
Proof.
  assert (exists s', assign 100%nat 101%nat Sample.shared = Ok (tt, s'))
    as [s' Hrun] by (eexists; vm_compute; reflexivity).
  destruct (copy_is_indistinguishable Sample.shared s' 100%nat 101%nat
              (or_introl Hrun)) as (t & r & Ht & Hr & Hobs & _).
  exists s', t, r. split; [exact Hrun|]. split; [exact Ht|].
  split; [exact Hr|exact Hobs].
Defined.

(** The Number [-1.0] of the sample stack, captured and read. *)
Lemma captured_value_read_back_witness :
  engines Sample.state !! Sample.ctx = Some Sample.heap
  /\ stack_at (-3) (h_stack Sample.heap) = Some (TNumber Sample.minus_one)
  /\ accepts accept_all (type_of (TNumber Sample.minus_one)) = true
  /\ type_of (TNumber Sample.minus_one) <> OBJECT
  /\ exists A,
       copy_from_stack Sample.ctx (-3) accept_all Sample.state
       = Ok (A, Sample.state)
       /\ as_double A = Ok Sample.minus_one.
Proof.
  assert (stack_at (-3) (h_stack Sample.heap) = Some (TNumber Sample.minus_one))
    as Hv by reflexivity.
  assert (accepts accept_all (type_of (TNumber Sample.minus_one)) = true)
    as Hacc by reflexivity.
  assert (type_of (TNumber Sample.minus_one) <> OBJECT) as Hty by discriminate.
  destruct (captured_value_read_back Sample.state Sample.ctx Sample.heap (-3)
              accept_all _ sample_engine Hv Hacc Hty)
    as (A & Hrun & _ & _ & _ & Hnum & _).
  split; [exact sample_engine|]. split; [exact Hv|]. split; [exact Hacc|].
  split; [exact Hty|]. exists A. split; [exact Hrun|].
  exact (proj1 (Hnum _ eq_refl)).
Defined.

(** Releasing one of the two sharers of the sample state keeps the
    ownership invariant. *)
Lemma ownership_invariant_witness :
  counted Sample.shared /\ pinned Sample.shared
  /\ release_ref_count 100%nat Sample.shared = Ok (tt, Sample.shared_released)
  /\ pinned Sample.shared_released.
Proof.
  assert (release_ref_count 100%nat Sample.shared
          = Ok (tt, Sample.shared_released)) as Hrel
    by (vm_compute; reflexivity).
  split; [exact sample_shared_counted|]. split; [exact sample_shared_pinned|].
  split; [exact Hrel|].
  exact (proj1 (ownership_invariant Sample.shared 100%nat 101%nat
                  sample_shared_counted sample_shared_pinned) _ Hrel).
Defined.

(** Destroying one of the two sharers leaves the other pinning object 5. *)
Lemma others_keep_their_objects_witness :
  counted Sample.shared /\ pinned Sample.shared
  /\ 101%nat <> 100%nat
  /\ instances Sample.shared !! 101%nat = Some Sample.sharer
  /\ mType Sample.sharer = OBJECT
  /\ owns (engines Sample.shared) Sample.sharer 5%nat
  /\ exists s',
       destroy 100%nat Sample.shared = Ok (tt, s')
       /\ instances s' !! 101%nat = Some Sample.sharer
       /\ owns (engines s') Sample.sharer 5%nat.
Proof.
  assert (101%nat <> 100%nat) as Hne by discriminate.
  assert (instances Sample.shared !! 101%nat = Some Sample.sharer) as Hb
    by (vm_compute; reflexivity).
  assert (owns (engines Sample.shared) Sample.sharer 5%nat) as Ho
    by (by apply sample_slot_pins).
  assert (exists s', destroy 100%nat Sample.shared = Ok (tt, s'))
    as [s' Hrun] by (eexists; vm_compute; reflexivity).
  destruct (others_keep_their_objects Sample.shared 100%nat 101%nat 101%nat
              Sample.sharer 5%nat sample_shared_counted sample_shared_pinned
              Hne Hb eq_refl Ho) as (_ & Hdestroy & _).
  split; [exact sample_shared_counted|]. split; [exact sample_shared_pinned|].
  split; [exact Hne|]. split; [exact Hb|]. split; [reflexivity|].
  split; [exact Ho|]. exists s'. split; [exact Hrun|].
  exact (Hdestroy s' Hrun).
Defined.

(** A copy of the owner of slot 1 pins object 5 as well. *)
Lemma copy_pins_the_same_object_witness :
  counted Sample.state /\ pinned Sample.state
  /\ 101%nat <> 100%nat
  /\ instances Sample.state !! 100%nat = Some Sample.owner
  /\ mType Sample.owner = OBJECT
  /\ owns (engines Sample.state) Sample.owner 5%nat
  /\ instances Sample.state !! 101%nat = None
  /\ exists s' t',
       copy_construct 101%nat 100%nat Sample.state = Ok (tt, s')
       /\ instances s' !! 101%nat = Some t' /\ mType t' = OBJECT
       /\ owns (engines s') t' 5%nat.
Proof.
  assert (101%nat <> 100%nat) as Hne by discriminate.
  assert (instances Sample.state !! 100%nat = Some Sample.owner) as Hr
    by (vm_compute; reflexivity).
  assert (instances Sample.state !! 101%nat = None) as Hnew
    by (vm_compute; reflexivity).
  assert (owns (engines Sample.state) Sample.owner 5%nat) as Ho
    by (by apply sample_slot_pins).
  assert (exists s', copy_construct 101%nat 100%nat Sample.state = Ok (tt, s'))
    as [s' Hrun] by (eexists; vm_compute; reflexivity).
  destruct (copy_pins_the_same_object Sample.state 101%nat 100%nat
              Sample.owner 5%nat sample_state_counted sample_state_pinned
              Hne Hr eq_refl Ho) as (_ & Hcopy & _).
  destruct (Hcopy s' Hnew Hrun) as (t' & Ht' & Hty & Ho').
  split; [exact sample_state_counted|]. split; [exact sample_state_pinned|].
  split; [exact Hne|]. split; [exact Hr|]. split; [reflexivity|].
  split; [exact Ho|]. split; [exact Hnew|].
  exists s', t'. split; [exact Hrun|]. split; [exact Ht'|].
  split; [exact Hty|exact Ho'].
Defined.

(** The object on top of the sample stack, captured at address 7. *)
Lemma capture_pins_the_object_witness :
  counted Sample.state /\ pinned Sample.state
  /\ engines Sample.state !! Sample.ctx = Some Sample.heap
  /\ room 1 Sample.heap
  /\ stack_at (-1) (h_stack Sample.heap) = Some (TObject 6%nat)
  /\ accepts accept_all (type_of (TObject 6%nat)) = true
  /\ instances Sample.state !! 7%nat = None
  /\ exists A s',
       (let* A := copy_from_stack Sample.ctx (-1) accept_all in
        store 7%nat A ;;; ret A) Sample.state = Ok (A, s')
       /\ counted s' /\ pinned s'
       /\ mType A = OBJECT /\ owns (engines s') A 6%nat
       /\ owns (engines s') Sample.owner 5%nat.
Proof.
  assert (stack_at (-1) (h_stack Sample.heap) = Some (TObject 6%nat))
    as Hv by reflexivity.
  assert (accepts accept_all (type_of (TObject 6%nat)) = true)
    as Hacc by reflexivity.
  assert (instances Sample.state !! 7%nat = None) as Hnew
    by (vm_compute; reflexivity).
  assert (instances Sample.state !! 100%nat = Some Sample.owner) as Hr
    by (vm_compute; reflexivity).
  assert (owns (engines Sample.state) Sample.owner 5%nat) as Ho
    by (by apply sample_slot_pins).
  destruct (capture_pins_the_object Sample.state Sample.ctx Sample.heap (-1)
              accept_all _ 7%nat sample_state_counted sample_state_pinned
              sample_engine sample_room_1 Hv Hacc Hnew)
    as (A & s' & Hrun & _ & Hc' & Hpin' & Hkeep & Hobj).
  split; [exact sample_state_counted|]. split; [exact sample_state_pinned|].
  split; [exact sample_engine|]. split; [exact sample_room_1|].
  split; [exact Hv|]. split; [exact Hacc|]. split; [exact Hnew|].
  exists A, s'. split; [exact Hrun|]. split; [exact Hc'|].
  split; [exact Hpin'|].
  split; [exact (proj1 (Hobj _ eq_refl))|].
  split; [exact (proj2 (Hobj _ eq_refl))|].
  exact (proj2 (Hkeep 100%nat Sample.owner 5%nat Hr eq_refl Ho)).
Defined.

(** The object on top of the sample stack, captured twice. *)
Lemma independent_captures_witness :
  counted Sample.state /\ pinned Sample.state
  /\ engines Sample.state !! Sample.ctx = Some Sample.heap
  /\ room 2 Sample.heap
  /\ stack_at (-1) (h_stack Sample.heap) = Some (TObject 6%nat)
  /\ accepts accept_all OBJECT = true
  /\ instances Sample.state !! 7%nat = None
  /\ instances Sample.state !! 8%nat = None
  /\ 7%nat <> 8%nat
  /\ exists A1 A2 s2 s3,
       instances s2 !! 7%nat = Some A1 /\ instances s2 !! 8%nat = Some A2
       /\ mPOD A1 <> mPOD A2
       /\ owns (engines s2) A1 6%nat /\ owns (engines s2) A2 6%nat
       /\ destroy 7%nat s2 = Ok (tt, s3)
       /\ owns (engines s3) A2 6%nat.
Proof.
  assert (stack_at (-1) (h_stack Sample.heap) = Some (TObject 6%nat))
    as Hv by reflexivity.
  assert (accepts accept_all OBJECT = true) as Hacc by reflexivity.
  assert (instances Sample.state !! 7%nat = None) as H7
    by (vm_compute; reflexivity).
  assert (instances Sample.state !! 8%nat = None) as H8
    by (vm_compute; reflexivity).
  assert (7%nat <> 8%nat) as Hne by discriminate.
  destruct (independent_captures Sample.state Sample.ctx Sample.heap (-1)
              accept_all 6%nat 7%nat 8%nat sample_state_counted
              sample_state_pinned sample_engine sample_room Hv Hacc H7 H8 Hne)
    as (A1 & s1 & A2 & s2 & s3 & _ & _ & HA1 & HA2 & _ & _ & _ & _ & Hpod
        & Ho1 & Ho2 & Hd & _ & Ho3).
  split; [exact sample_state_counted|]. split; [exact sample_state_pinned|].
  split; [exact sample_engine|]. split; [exact sample_room|].
  split; [exact Hv|]. split; [exact Hacc|]. split; [exact H7|].
  split; [exact H8|]. split; [exact Hne|].
  exists A1, A2, s2, s3. split; [exact HA1|]. split; [exact HA2|].
  split; [exact Hpod|]. split; [exact Ho1|]. split; [exact Ho2|].
  split; [exact Hd|exact Ho3].
Defined.

(** The owner of slot 1 pushes object 5. *)
Lemma pinned_object_is_pushed_witness :
  pinned Sample.state
  /\ instances Sample.state !! 100%nat = Some Sample.owner
  /\ mType Sample.owner = OBJECT
  /\ exists s',
       push Sample.owner Sample.state = Ok (tt, s')
       /\ s' = with_engines
                 (<[Sample.ctx := set_stack (TObject 5%nat :: h_stack Sample.heap)
                                    Sample.heap]> (engines Sample.state))
                 Sample.state
       /\ pinned s'.
Proof.
  assert (instances Sample.state !! 100%nat = Some Sample.owner) as Hr
    by (vm_compute; reflexivity).
  destruct (pinned_object_is_pushed Sample.state 100%nat Sample.owner
              sample_state_pinned Hr eq_refl)
    as (o & h & s' & Ho & He & Hrun & Hs' & Hpin').
  assert (o = 5%nat) as ->.
  { apply (owns_functional _ _ _ _ Ho). by apply sample_slot_pins. }
  assert (h = Sample.heap) as ->.
  { pose proof sample_engine as He'. change (mContext Sample.owner) with Sample.ctx in He.
    congruence. }
  split; [exact sample_state_pinned|]. split; [exact Hr|].
  split; [reflexivity|]. exists s'. split; [exact Hrun|].
  split; [exact Hs'|exact Hpin'].
Defined.

(** Every operation returns on the sample state with two sharers. *)
Lemma operations_are_safe_witness :
  counted Sample.shared /\ pinned Sample.shared
  /\ counters_bounded Sample.shared
  /\ is_Some (instances Sample.shared !! 100%nat)
  /\ is_Some (instances Sample.shared !! 101%nat)
  /\ instances Sample.shared !! 102%nat = None
  /\ (exists s', destroy 100%nat Sample.shared = Ok (tt, s'))
  /\ (exists s', assign 100%nat 101%nat Sample.shared = Ok (tt, s'))
  /\ (exists s', copy_construct 102%nat 101%nat Sample.shared = Ok (tt, s'))
  /\ (exists s', move_construct 102%nat 101%nat Sample.shared = Ok (tt, s')).
Proof.
  assert (is_Some (instances Sample.shared !! 100%nat)) as H100
    by (exists Sample.sharer; vm_compute; reflexivity).
  assert (is_Some (instances Sample.shared !! 101%nat)) as H101
    by (exists Sample.sharer; vm_compute; reflexivity).
  assert (instances Sample.shared !! 102%nat = None) as H102
    by (vm_compute; reflexivity).
  destruct (operations_are_safe Sample.shared 100%nat 101%nat 102%nat
              sample_shared_counted sample_shared_pinned sample_shared_bounded
              H100 H101 H102) as (_ & Hd & Ha & Hc & Hm).
  split; [exact sample_shared_counted|]. split; [exact sample_shared_pinned|].
  split; [exact sample_shared_bounded|]. split; [exact H100|].
  split; [exact H101|]. split; [exact H102|].
  split; [exact Hd|]. split; [exact Ha|]. split; [exact Hc|exact Hm].
Defined.

(** [3000000000.0] read with [as_int]: a negative answer, for a payload
    that no [int] holds. *)
Lemma as_int_characterised_witness :
  mType (Sample.number Sample.three_billion) = NUMBER
  /\ mPOD (Sample.number Sample.three_billion)
     = POD_number Sample.three_billion
  /\ as_int (Sample.number Sample.three_billion) = Ok (-1294967296)
  /\ Double.to_int32 Sample.three_billion = Fail InvalidAccess.
Proof.
  assert (as_int (Sample.number Sample.three_billion) = Ok (-1294967296))
    as Hrun by (vm_compute; reflexivity).
  destruct (as_int_characterised (Sample.number Sample.three_billion)
              Sample.three_billion eq_refl eq_refl) as (_ & _ & Hneg & _).
  split; [reflexivity|]. split; [reflexivity|]. split; [exact Hrun|].
  apply (Hneg _ Hrun). reflexivity.
Defined.

(** A default-constructed value on the sample state, where [NULL]
    designates no engine: it cannot be pushed. *)
Lemma variant_without_engine_witness :
  engines Sample.state !! mContext default_value = None
  /\ supported (mType default_value) = true
  /\ push default_value Sample.state = Fail InvalidAccess.
Proof.
  assert (engines Sample.state !! mContext default_value = None) as He
    by (vm_compute; reflexivity).
  destruct (variant_without_engine Sample.same_value Sample.state 0%nat
              default_value He) as (Hpush & _).
  split; [exact He|]. split; [reflexivity|]. exact (Hpush eq_refl).
Defined.

(** On the sample heap: a slot allocated and freed again leaves slot 1,
    and only slot 1, in use. *)
Lemma stash_then_free_restores_witness :
  refs_at Sample.heap 1%nat Sample.refs
  /\ free_list_wf Sample.refs []
  /\ o_length Sample.refs + 1 < Double.two32 - 1
  /\ stack_at (-1) (h_stack Sample.heap) = Some (TObject 6%nat)
  /\ exists k arr2 ks2,
       (let* k := stash_ref (-1) in free_ref k ;;; ret k) Sample.heap
       = Ok (k, set_obj 1%nat arr2 Sample.heap)
       /\ free_list_wf arr2 ks2
       /\ live arr2 ks2 1
       /\ slot 1 arr2 = slot 1 Sample.refs.
Proof.
  assert (o_length Sample.refs + 1 < Double.two32 - 1) as Hroom
    by (by vm_compute).
  assert (stack_at (-1) (h_stack Sample.heap) = Some (TObject 6%nat)) as Hv
    by reflexivity.
  destruct (stash_then_free_restores Sample.heap 1%nat Sample.refs [] (-1)
              (TObject 6%nat) sample_refs_at sample_free_list Hroom Hv)
    as (k & arr2 & ks2 & Hrun & Hwf & _ & Hlive & Hkeep & _).
  split; [exact sample_refs_at|]. split; [exact sample_free_list|].
  split; [exact Hroom|]. split; [exact Hv|].
  exists k, arr2, ks2. split; [exact Hrun|]. split; [exact Hwf|].
  split; [exact (proj2 (Hlive 1) sample_live)|exact (Hkeep 1 sample_live)].
Defined.

(** A copy of the Number [-1.0] equals it. *)
Lemma copy_compares_equal_witness :
  exists s',
    copy_construct 101%nat 100%nat
      (MkHost {[ Sample.ctx := Sample.heap ]} ∅
              {[ 100%nat := Sample.number Sample.minus_one ]})
    = Ok (tt, s')
    /\ instances s' !! 101%nat = Some (Sample.number Sample.minus_one)
    /\ instances s' !! 100%nat = Some (Sample.number Sample.minus_one)
    /\ equals Sample.same_value (Sample.number Sample.minus_one)
         (Sample.number Sample.minus_one) s' = Ok (true, s').
Proof.
  assert (exists s',
            copy_construct 101%nat 100%nat
              (MkHost {[ Sample.ctx := Sample.heap ]} ∅
                      {[ 100%nat := Sample.number Sample.minus_one ]})
            = Ok (tt, s')
            /\ instances s' !! 101%nat = Some (Sample.number Sample.minus_one)
            /\ instances s' !! 100%nat = Some (Sample.number Sample.minus_one))
    as (s' & Hrun & Ht & Hr)
    by (eexists; split; [vm_compute; reflexivity|split; vm_compute; reflexivity]).
  assert (mPOD (Sample.number Sample.minus_one) <> POD_number S754_nan) as Hnan
    by discriminate.
  assert (mType (Sample.number Sample.minus_one) = OBJECT ->
          pinned s' /\ forall h v, Sample.same_value h v v = true) as Hobj
    by discriminate.
  destruct (copy_compares_equal Sample.same_value _ s' 101%nat 100%nat _ _
              (or_intror Hrun) Ht Hr eq_refl eq_refl Hnan Hobj) as (Heq & _).
  exists s'. split; [exact Hrun|]. split; [exact Ht|]. split; [exact Hr|exact Heq].
Defined.

(** The two sharers of the sample state are equal. *)
Lemma object_equality_is_by_referent_witness :
  mType Sample.sharer = OBJECT
  /\ owns (engines Sample.shared) Sample.sharer 5%nat
  /\ equals Sample.same_value Sample.sharer Sample.sharer Sample.shared
     = Ok (true, Sample.shared).
Proof.
  assert (owns (engines Sample.shared) Sample.sharer 5%nat) as Ho
    by (by apply sample_slot_pins).
  assert (forall h v, Sample.same_value h v v = true) as Hjs
    by (intros h v; by apply bool_decide_eq_true_2).
  destruct (object_equality_is_by_referent Sample.same_value Sample.shared
              Sample.sharer Sample.sharer 5%nat 5%nat eq_refl eq_refl eq_refl
              Ho Ho) as (h & _ & _ & Hsame).
  split; [reflexivity|]. split; [exact Ho|]. exact (Hsame Hjs eq_refl).
Defined.
